(** * charm_tui: the table model ([model/tableModel.go])

    A shallow embedding of the state-management core of the terminal table
    viewer: the row store, the sort and filter engines, the viewport
    manager, the cursor guard and the interaction controller, followed by
    the properties of the specification that were checked against it.

    Conventions.
    - Go's [int] is modelled by [Z], which is exact while no sum leaves
      the range of a 64-bit word.  The integers the program computes are
      slice lengths, terminal dimensions and column widths; the one sum a
      schema can drive out of that range, the running total of
      [CalculateMaxColumns], is also given on 64-bit integers
      ([count_columns_int]).  [time.ParseDuration], which relies on
      unsigned 64-bit arithmetic, has its wrap-around written out.
    - A Go [string] is a byte sequence: Rocq's [string].  A slice is a
      [list]; [nil] and the empty slice are not distinguished, the program
      only ever takes their length.
    - A run-time panic (index or slice bounds out of range) is the outcome
      [Panic]; an [error] returned by a function is the outcome [Err].
    - The library functions the program calls ([strings], [strconv], [time],
      [sort], and the [table] widget of bubbles) are modelled in modules of
      the same names, after their documented behaviour; of the widget the
      state is modelled, not the lines it renders.
    - [View], the key map and the styles only render the state; they are
      left out. *)

From Stdlib Require Import ZArith String Ascii List Bool Lia.
From Stdlib Require Import Floats.SpecFloat DecimalString.
From stdpp Require Import base option list strings gmap.

Local Open Scope string_scope.

(** ** Outcomes of Go code *)

Inductive result (A : Type) : Type :=
| Ok (a : A)
| Err (e : string)
| Panic (e : string).
Arguments Ok {A} a.
Arguments Err {A} e.
Arguments Panic {A} e.

#[global] Instance result_ret : MRet result := fun A a => Ok a.
#[global] Instance result_bind : MBind result := fun A B f r =>
  match r with
  | Ok a => f a
  | Err e => Err e
  | Panic e => Panic e
  end.
#[global] Instance result_fmap : FMap result := fun A B f r =>
  match r with
  | Ok a => Ok (f a)
  | Err e => Err e
  | Panic e => Panic e
  end.

Definition is_Ok {A} (r : result A) : Prop := ∃ a, r = Ok a.

(** [len(s)], [s[i]] and [s[lo:hi]] with Go's bounds checks. *)
Definition len {A} (s : list A) : Z := Z.of_nat (length s).

Definition index {A} (s : list A) (i : Z) : result A :=
  if (0 <=? i)%Z && (i <? len s)%Z then
    match s !! Z.to_nat i with
    | Some x => Ok x
    | None => Panic "index out of range"
    end
  else Panic "index out of range".

Definition slice {A} (s : list A) (lo hi : Z) : result (list A) :=
  if (0 <=? lo)%Z && (lo <=? hi)%Z && (hi <=? len s)%Z then
    Ok (take (Z.to_nat (hi - lo)) (drop (Z.to_nat lo) s))
  else Panic "slice bounds out of range".

(** Comparison of Go strings: bytewise lexicographic. *)
Definition string_lt (a b : string) : bool :=
  match String.compare a b with Lt => true | _ => false end.
Definition string_gt (a b : string) : bool :=
  match String.compare a b with Gt => true | _ => false end.

Definition nat_byte (c : ascii) : nat := nat_of_ascii c.
Definition is_digit (c : ascii) : bool :=
  (48 <=? nat_byte c)%nat && (nat_byte c <=? 57)%nat.
Definition is_upper (c : ascii) : bool :=
  (65 <=? nat_byte c)%nat && (nat_byte c <=? 90)%nat.
Definition digit_val (c : ascii) : Z := Z.of_nat (nat_byte c) - 48.

(** ** Package [sort]: [sort.Slice]

    Go (1.19 and later) sorts with a pattern-defeating quicksort over the
    pair of callbacks [Less] and [Swap]; ranges of at most twelve elements
    are sorted by insertion.  The slice is a list updated in place, [less]
    is the caller's closure (it may panic).  Every turn of the outer loop
    and every recursive call works on a strictly shorter range, so the
    explicit budget, one more than the length of the slice, bounds them. *)
Module sort.
Section pdqsort.
Context {A : Type} (less : A → A → result bool).

Definition Less (data : list A) (i j : nat) : result bool :=
  match data !! i, data !! j with
  | Some x, Some y => less x y
  | _, _ => Panic "index out of range"
  end.

Definition Swap (data : list A) (i j : nat) : result (list A) :=
  match data !! i, data !! j with
  | Some x, Some y => Ok (<[i:=y]> (<[j:=x]> data))
  | _, _ => Panic "index out of range"
  end.

(** [for j := i; j > a && data.Less(j, j-1); j-- { data.Swap(j, j-1) }] *)
Fixpoint insertion_shift (data : list A) (a j : nat) : result (list A) :=
  match j with
  | O => Ok data
  | S j' =>
      if (a <? j)%nat then
        lt ← Less data j j';
        if lt : bool then data' ← Swap data j j'; insertion_shift data' a j'
        else Ok data
      else Ok data
  end.

(** [for i := a + 1; i < b; i++ { ... }], [n] iterations left. *)
Fixpoint insertion_loop (data : list A) (a i n : nat) : result (list A) :=
  match n with
  | O => Ok data
  | S n' => data' ← insertion_shift data a i; insertion_loop data' a (S i) n'
  end.

Definition insertionSort_func (data : list A) (a b : nat) : result (list A) :=
  insertion_loop data a (S a) (b - S a).

(** [siftDown_func]: the root moves down at most [hi] times. *)
Fixpoint siftDown_loop (n : nat) (data : list A) (root hi first : nat)
  : result (list A) :=
  match n with
  | O => Ok data
  | S n' =>
      let child := (2 * root + 1)%nat in
      if (hi <=? child)%nat then Ok data
      else
        c ← (if (child + 1 <? hi)%nat then
               lt ← Less data (first + child) (first + child + 1);
               Ok (if lt : bool then S child else child)
             else Ok child);
        lt ← Less data (first + root) (first + c);
        if lt : bool then
          data' ← Swap data (first + root) (first + c);
          siftDown_loop n' data' c hi first
        else Ok data
  end.

Definition siftDown_func (data : list A) (lo hi first : nat) : result (list A) :=
  siftDown_loop (S hi) data lo hi first.

Fixpoint for_down (n : nat) (data : list A)
    (body : list A → nat → result (list A)) : result (list A) :=
  match n with
  | O => Ok data
  | S i => data' ← body data i; for_down i data' body
  end.

Definition heapSort_func (data : list A) (a b : nat) : result (list A) :=
  let first := a in
  let lo := 0%nat in
  let hi := (b - a)%nat in
  data1 ← for_down (S ((hi - 1) / 2)) data
            (fun d i => siftDown_func d i hi first);
  for_down hi data1
    (fun d i => d' ← Swap d first (first + i); siftDown_func d' lo i first).

(** [partition_func]: the two scans of one quicksort partition. *)
Fixpoint scan_up (n : nat) (data : list A) (a i j : nat) : result nat :=
  match n with
  | O => Ok i
  | S n' =>
      if (i <=? j)%nat then
        lt ← Less data i a;
        if lt : bool then scan_up n' data a (S i) j else Ok i
      else Ok i
  end.

Fixpoint scan_down (n : nat) (data : list A) (a i j : nat) : result nat :=
  match n with
  | O => Ok j
  | S n' =>
      if (i <=? j)%nat then
        lt ← Less data j a;
        if lt : bool then Ok j else scan_down n' data a i (j - 1)
      else Ok j
  end.

Fixpoint partition_loop (n : nat) (data : list A) (a i j : nat)
  : result (list A * nat) :=
  match n with
  | O => Ok (data, j)
  | S n' =>
      i1 ← scan_up (S j - i) data a i j;
      j1 ← scan_down (S j - i1) data a i1 j;
      if (j1 <? i1)%nat then Ok (data, j1)
      else
        data' ← Swap data i1 j1;
        partition_loop n' data' a (S i1) (j1 - 1)
  end.

Definition partition_func (data : list A) (a b pivot : nat)
  : result (list A * nat * bool) :=
  data0 ← Swap data a pivot;
  let i := S a in
  let j := (b - 1)%nat in
  i1 ← scan_up (S j - i) data0 a i j;
  j1 ← scan_down (S j - i1) data0 a i1 j;
  if (j1 <? i1)%nat then
    data1 ← Swap data0 j1 a; Ok (data1, j1, true)
  else
    data1 ← Swap data0 i1 j1;
    '(data2, j2) ← partition_loop (b - a) data1 a (S i1) (j1 - 1);
    data3 ← Swap data2 j2 a;
    Ok (data3, j2, false).

(** [partitionEqual_func]: elements equal to the pivot, then greater. *)
Fixpoint scan_up_eq (n : nat) (data : list A) (a i j : nat) : result nat :=
  match n with
  | O => Ok i
  | S n' =>
      if (i <=? j)%nat then
        lt ← Less data a i;
        if lt : bool then Ok i else scan_up_eq n' data a (S i) j
      else Ok i
  end.

Fixpoint scan_down_eq (n : nat) (data : list A) (a i j : nat) : result nat :=
  match n with
  | O => Ok j
  | S n' =>
      if (i <=? j)%nat then
        lt ← Less data a j;
        if lt : bool then scan_down_eq n' data a i (j - 1) else Ok j
      else Ok j
  end.

Fixpoint partitionEqual_loop (n : nat) (data : list A) (a i j : nat)
  : result (list A * nat) :=
  match n with
  | O => Ok (data, i)
  | S n' =>
      i1 ← scan_up_eq (S j - i) data a i j;
      j1 ← scan_down_eq (S j - i1) data a i1 j;
      if (j1 <? i1)%nat then Ok (data, i1)
      else
        data' ← Swap data i1 j1;
        partitionEqual_loop n' data' a (S i1) (j1 - 1)
  end.

Definition partitionEqual_func (data : list A) (a b pivot : nat)
  : result (list A * nat) :=
  data0 ← Swap data a pivot;
  partitionEqual_loop (S (b - a)) data0 a (S a) (b - 1).

(** [partialInsertionSort_func]: at most five out-of-order pairs are
    repaired, and none on ranges shorter than fifty elements. *)
Fixpoint skip_ordered (n : nat) (data : list A) (i b : nat) : result nat :=
  match n with
  | O => Ok i
  | S n' =>
      if (i <? b)%nat then
        lt ← Less data i (i - 1);
        if lt : bool then Ok i else skip_ordered n' data (S i) b
      else Ok i
  end.

(** [for j := i - 1; j >= 1; j-- { if !Less(j, j-1) { break }; Swap(j, j-1) }] *)
Fixpoint shift_left (data : list A) (j : nat) : result (list A) :=
  match j with
  | O => Ok data
  | S j' =>
      lt ← Less data j j';
      if lt : bool then data' ← Swap data j j'; shift_left data' j'
      else Ok data
  end.

(** [for j := i + 1; j < b; j++ { if !Less(j, j-1) { break }; Swap(j, j-1) }] *)
Fixpoint shift_right (n : nat) (data : list A) (j b : nat) : result (list A) :=
  match n with
  | O => Ok data
  | S n' =>
      if (j <? b)%nat then
        lt ← Less data j (j - 1);
        if lt : bool then data' ← Swap data j (j - 1); shift_right n' data' (S j) b
        else Ok data
      else Ok data
  end.

Fixpoint partialInsertion_loop (steps : nat) (data : list A) (a b i : nat)
  : result (list A * bool) :=
  match steps with
  | O => Ok (data, false)
  | S steps' =>
      i1 ← skip_ordered (b - i) data i b;
      if (i1 =? b)%nat then Ok (data, true)
      else if (b - a <? 50)%nat then Ok (data, false)
      else
        data1 ← Swap data i1 (i1 - 1);
        data2 ← (if (2 <=? i1 - a)%nat then shift_left data1 (i1 - 1) else Ok data1);
        data3 ← (if (2 <=? b - i1)%nat then shift_right (b - i1) data2 (S i1) b
                 else Ok data2);
        partialInsertion_loop steps' data3 a b i1
  end.

Definition partialInsertionSort_func (data : list A) (a b : nat)
  : result (list A * bool) :=
  partialInsertion_loop 5 data a b (S a).

(** [breakPatterns_func]: three swaps at pseudo-random places. *)
Definition xorshift_Next (r : Z) : Z :=
  let m := (2 ^ 64)%Z in
  let r1 := Z.lxor r (Z.shiftl r 13 mod m) in
  let r2 := Z.lxor r1 (Z.shiftr r1 7) in
  Z.lxor r2 (Z.shiftl r2 17 mod m).

Definition bits_Len (n : nat) : nat :=
  match n with O => O | _ => S (Nat.log2 n) end.

Definition nextPowerOfTwo (length : nat) : Z := Z.shiftl 1 (Z.of_nat (bits_Len length)).

Fixpoint breakPatterns_loop (n : nat) (data : list A) (a length idx i : nat)
    (random modulus : Z) : result (list A) :=
  match n with
  | O => Ok data
  | S n' =>
      let random' := xorshift_Next random in
      let other := Z.to_nat (Z.land random' (modulus - 1)) in
      let other := if (length <=? other)%nat then (other - length)%nat else other in
      data' ← Swap data (idx - 1 + i) (a + other);
      breakPatterns_loop n' data' a length idx (S i) random' modulus
  end.

Definition breakPatterns_func (data : list A) (a b : nat) : result (list A) :=
  let length := (b - a)%nat in
  if (8 <=? length)%nat then
    breakPatterns_loop 3 data a length (a + (length / 4) * 2 - 1) 0
      (Z.of_nat length) (nextPowerOfTwo length)
  else Ok data.

(** [choosePivot_func] and its median helpers; [swaps] is threaded. *)
Inductive sortedHint := unknownHint | increasingHint | decreasingHint.

Definition order2_func (data : list A) (a b swaps : nat) : result (nat * nat * nat) :=
  lt ← Less data b a;
  Ok (if lt : bool then (b, a, S swaps) else (a, b, swaps)).

Definition median_func (data : list A) (a b c swaps : nat) : result (nat * nat) :=
  '(a, b, swaps) ← order2_func data a b swaps;
  '(b, c, swaps) ← order2_func data b c swaps;
  '(a, b, swaps) ← order2_func data a b swaps;
  Ok (b, swaps).

Definition medianAdjacent_func (data : list A) (a swaps : nat) : result (nat * nat) :=
  median_func data (a - 1) a (a + 1) swaps.

Definition choosePivot_func (data : list A) (a b : nat) : result (nat * sortedHint) :=
  let l := (b - a)%nat in
  let i := (a + l / 4 * 1)%nat in
  let j := (a + l / 4 * 2)%nat in
  let k := (a + l / 4 * 3)%nat in
  '(j, swaps) ←
    (if (8 <=? l)%nat then
       '(i, j, k, swaps) ←
         (if (50 <=? l)%nat then
            '(i, swaps) ← medianAdjacent_func data i 0;
            '(j, swaps) ← medianAdjacent_func data j swaps;
            '(k, swaps) ← medianAdjacent_func data k swaps;
            Ok (i, j, k, swaps)
          else Ok (i, j, k, 0%nat));
       median_func data i j k swaps
     else Ok (j, 0%nat));
  Ok (j, if (swaps =? 0)%nat then increasingHint
         else if (swaps =? 12)%nat then decreasingHint
         else unknownHint).

(** [reverseRange_func]: [for i < j { Swap(i, j); i++; j-- }] *)
Fixpoint reverseRange_loop (n : nat) (data : list A) (i j : nat) : result (list A) :=
  match n with
  | O => Ok data
  | S n' =>
      if (i <? j)%nat then
        data' ← Swap data i j; reverseRange_loop n' data' (S i) (j - 1)
      else Ok data
  end.

Definition reverseRange_func (data : list A) (a b : nat) : result (list A) :=
  reverseRange_loop (b - a) data a (b - 1).

(** [pdqsort_func]: every turn of the outer loop, and every recursive
    call, works on a strictly shorter range; [budget] bounds them. *)
Fixpoint pdqsort_func (budget : nat) (data : list A) (a b limit : nat)
    (wasBalanced wasPartitioned : bool) : result (list A) :=
  match budget with
  | O => Panic "pdqsort: budget exhausted"
  | S budget' =>
      let length := (b - a)%nat in
      if (length <=? 12)%nat then insertionSort_func data a b
      else if (limit =? 0)%nat then heapSort_func data a b
      else
        '(data, limit) ←
          (if wasBalanced then Ok (data, limit)
           else data' ← breakPatterns_func data a b; Ok (data', (limit - 1)%nat));
        '(pivot, hint) ← choosePivot_func data a b;
        '(data, pivot, hint) ←
          (match hint with
           | decreasingHint =>
               data' ← reverseRange_func data a b;
               Ok (data', ((b - 1) - (pivot - a))%nat, increasingHint)
           | _ => Ok (data, pivot, hint)
           end);
        '(data, sorted) ←
          (match hint with
           | increasingHint =>
               if wasBalanced && wasPartitioned
               then partialInsertionSort_func data a b
               else Ok (data, false)
           | _ => Ok (data, false)
           end);
        if sorted : bool then Ok data
        else
          dup ← (if (0 <? a)%nat then lt ← Less data (a - 1) pivot; Ok (negb lt)
                 else Ok false);
          if dup : bool then
            '(data, mid) ← partitionEqual_func data a b pivot;
            pdqsort_func budget' data mid b limit wasBalanced wasPartitioned
          else
            '(data, mid, alreadyPartitioned) ← partition_func data a b pivot;
            let leftLen := (mid - a)%nat in
            let rightLen := (b - mid)%nat in
            let balanceThreshold := (length / 8)%nat in
            if (leftLen <? rightLen)%nat then
              data ← pdqsort_func budget' data a mid limit true true;
              pdqsort_func budget' data (S mid) b limit
                (balanceThreshold <=? leftLen)%nat alreadyPartitioned
            else
              data ← pdqsort_func budget' data (S mid) b limit true true;
              pdqsort_func budget' data a mid limit
                (balanceThreshold <=? rightLen)%nat alreadyPartitioned
  end.

(** [sort.Slice(x, less)] *)
Definition Slice (x : list A) : result (list A) :=
  let length := List.length x in
  pdqsort_func (S length) x 0 length (bits_Len length) true true.
End pdqsort.
End sort.

(** ** 64-bit floating point

    [float64] values are IEEE 754 binary64 numbers without payloads
    ([spec_float] at precision 53, [emax = 1024]); [<] and [>] are the IEEE
    comparisons, false as soon as one side is a NaN. *)
Definition float64 := spec_float.
Definition f64_lt (x y : float64) : bool := SFltb x y.
Definition f64_gt (x y : float64) : bool :=
  match SFcompare x y with Some Gt => true | _ => false end.
Definition f64_of_Z (z : Z) : float64 := binary_normalize 53 1024 z 0 false.
Definition f64_is_inf (x : float64) : bool :=
  match x with S754_infinity _ => true | _ => false end.

(** The binary64 number nearest to [m * 2^e2 * 10^e10], ties to even. *)
Definition f64_round (neg : bool) (m e2 e10 : Z) : float64 :=
  match m with
  | Zpos p =>
      if (0 <=? e10)%Z then binary_round 53 1024 neg (p * Z.to_pos (10 ^ e10)) e2
      else SFdiv 53 1024 (S754_finite neg p e2)
                 (S754_finite false (Z.to_pos (10 ^ (- e10))) 0)
  | _ => S754_zero neg
  end.

(** [uint64(x)] for a non-negative finite [x]: truncation. *)
Definition f64_to_uint64 (x : float64) : Z :=
  match x with
  | S754_finite false m e =>
      if (0 <=? e)%Z then (Zpos m * 2 ^ e)%Z else (Zpos m / 2 ^ (- e))%Z
  | _ => 0%Z
  end.

(** ** Package [strconv]: [strconv.ParseFloat(s, 64)]

    [None] stands for [err != nil].  The accepted syntax is the one of
    [readFloat] and [special]: an optional sign, decimal or [0x] hexadecimal
    digits with at most one point and [_] separators, a decimal exponent
    (binary, and mandatory, after hexadecimal digits), or one of [inf],
    [infinity], [nan] in any case.  The value is the nearest binary64
    number; a value that rounds to an infinity is a range error. *)
Module strconv.
Definition lower (c : ascii) : ascii := ascii_of_nat (Nat.lor (nat_byte c) 32).

Fixpoint commonPrefixLenIgnoreCase (s prefix : string) : nat :=
  match s, prefix with
  | String c s', String p prefix' =>
      let c' := if is_upper c then ascii_of_nat (nat_byte c + 32) else c in
      if Ascii.eqb c' p then S (commonPrefixLenIgnoreCase s' prefix') else O
  | _, _ => O
  end.

Definition special_inf (sign : bool) (nsign : nat) (s : string)
  : option (float64 * nat) :=
  let n := commonPrefixLenIgnoreCase s "infinity" in
  let n := if (3 <? n)%nat && (n <? 8)%nat then 3%nat else n in
  if (n =? 3)%nat || (n =? 8)%nat then Some (S754_infinity sign, (nsign + n)%nat)
  else None.

(** [special]: the value and the number of bytes it spans. *)
Definition special (s : string) : option (float64 * nat) :=
  match s with
  | EmptyString => None
  | String c rest =>
      if Ascii.eqb c "+" then special_inf false 1 rest
      else if Ascii.eqb c "-" then special_inf true 1 rest
      else if Ascii.eqb (lower c) "i" then special_inf false 0 s
      else if Ascii.eqb (lower c) "n" then
        if (commonPrefixLenIgnoreCase s "nan" =? 3)%nat then Some (S754_nan, 3%nat)
        else None
      else None
  end.

(** State of the digit loop of [readFloat]; the mantissa keeps every
    digit (Go's truncation to 19 digits only feeds its fast paths). *)
Record digits := Digits {
  mantissa : Z; nd : Z; dp : Z;
  sawdot : bool; sawdigits : bool; underscores : bool }.

Fixpoint read_digits (hex : bool) (st : digits) (s : string) : digits * string :=
  match s with
  | EmptyString => (st, s)
  | String c s' =>
      let '(Digits m n d dot dig us) := st in
      if Ascii.eqb c "_" then read_digits hex (Digits m n d dot dig true) s'
      else if Ascii.eqb c "." then
        if dot then (st, s) else read_digits hex (Digits m n n true dig us) s'
      else if is_digit c then
        if Ascii.eqb c "0" && (n =? 0)%Z
        then read_digits hex (Digits m n (d - 1) dot true us) s'
        else read_digits hex
               (Digits (m * (if hex then 16 else 10) + digit_val c) (n + 1) d dot true us) s'
      else if hex && (97 <=? nat_byte (lower c))%nat && (nat_byte (lower c) <=? 102)%nat then
        read_digits hex
          (Digits (m * 16 + (Z.of_nat (nat_byte (lower c)) - 97 + 10)) (n + 1) d dot true us) s'
      else (st, s)
  end.

Fixpoint read_exp (e : Z) (us : bool) (s : string) : Z * bool * string :=
  match s with
  | EmptyString => (e, us, s)
  | String c s' =>
      if Ascii.eqb c "_" then read_exp e true s'
      else if is_digit c then
        read_exp (if (e <? 10000)%Z then (e * 10 + digit_val c)%Z else e) us s'
      else (e, us, s)
  end.

(** [underscoreOK]: an underscore only between digits, or after a base
    prefix. *)
Fixpoint underscore_scan (hex : bool) (saw : ascii) (s : string) : bool :=
  match s with
  | EmptyString => negb (Ascii.eqb saw "_")
  | String c s' =>
      if is_digit c || (hex && (97 <=? nat_byte (lower c))%nat
                            && (nat_byte (lower c) <=? 102)%nat)
      then underscore_scan hex "0" s'
      else if Ascii.eqb c "_" then
        if Ascii.eqb saw "0" then underscore_scan hex "_" s' else false
      else if Ascii.eqb saw "_" then false
      else underscore_scan hex "!" s'
  end.

Definition underscoreOK (s : string) : bool :=
  let s := match s with
           | String c r => if Ascii.eqb c "-" || Ascii.eqb c "+" then r else s
           | EmptyString => s
           end in
  match s with
  | String "0" (String x r) =>
      if Ascii.eqb (lower x) "b" || Ascii.eqb (lower x) "o" || Ascii.eqb (lower x) "x"
      then underscore_scan (Ascii.eqb (lower x) "x") "0" r
      else underscore_scan false "^" s
  | _ => underscore_scan false "^" s
  end.

(** [readFloat]: sign, base, mantissa, exponent, whether an underscore
    was met, and the unread rest of the string. *)
Definition readFloat (s : string) : option (bool * bool * Z * Z * bool * string) :=
  match s with
  | EmptyString => None
  | String c0 r0 =>
      let '(neg, s1) :=
        if Ascii.eqb c0 "+" then (false, r0)
        else if Ascii.eqb c0 "-" then (true, r0) else (false, s) in
      let '(hex, s2) :=
        match s1 with
        | String "0" (String x (String c r)) =>
            if Ascii.eqb (lower x) "x" then (true, String c r) else (false, s1)
        | _ => (false, s1)
        end in
      let '(Digits m n d dot dig us, s3) :=
        read_digits hex (Digits 0 0 0 false false false) s2 in
      if negb dig then None
      else
        let d := if dot then d else n in
        let '(d, n) := if hex then (d * 4, n * 4)%Z else (d, n) in
        let expChar := if hex then "p"%char else "e"%char in
        let finish (d : Z) (us : bool) (rest : string) :=
          Some (neg, hex, m, (if (m =? 0)%Z then 0 else d - n)%Z, us, rest) in
        match s3 with
        | String c r =>
            if Ascii.eqb (lower c) expChar then
              match r with
              | EmptyString => None
              | String c2 r2 =>
                  let '(esign, r3) :=
                    if Ascii.eqb c2 "+" then (1%Z, r2)
                    else if Ascii.eqb c2 "-" then ((-1)%Z, r2) else (1%Z, r) in
                  match r3 with
                  | String c3 _ =>
                      if is_digit c3 then
                        let '(e, us, rest) := read_exp 0 us r3 in
                        finish (d + e * esign)%Z us rest
                      else None
                  | EmptyString => None
                  end
              end
            else if hex then None else finish d us s3
        | EmptyString => if hex then None else finish d us s3
        end
  end.

Definition ParseFloat (s : string) : option float64 :=
  match special s with
  | Some (v, n) => if (n =? String.length s)%nat then Some v else None
  | None =>
      match readFloat s with
      | Some (neg, hex, m, e, us, rest) =>
          if negb (String.eqb rest "") then None
          else if us && negb (underscoreOK s) then None
          else
            let v := if hex then f64_round neg m e 0 else f64_round neg m 0 e in
            if f64_is_inf v then None else Some v
      | None => None
      end
  end.
End strconv.

(** ** Package [time]: [time.ParseDuration]

    The result is in nanoseconds; [None] stands for [err != nil].  The
    accumulators are [uint64]: the one addition that can wrap is reduced
    modulo [2^64]. *)
Module time.
Definition Duration := Z.

Fixpoint leadingInt (x : Z) (s : string) : option (Z * string) :=
  match s with
  | EmptyString => Some (x, s)
  | String c s' =>
      if is_digit c then
        if (x >? 2 ^ 63 / 10)%Z then None
        else
          let x' := (x * 10 + digit_val c)%Z in
          if (x' >? 2 ^ 63)%Z then None else leadingInt x' s'
      else Some (x, s)
  end.

Fixpoint leadingFraction (x : Z) (scale : float64) (overflow : bool) (s : string)
  : Z * float64 * string :=
  match s with
  | EmptyString => (x, scale, s)
  | String c s' =>
      if is_digit c then
        if overflow then leadingFraction x scale true s'
        else if (x >? (2 ^ 63 - 1) / 10)%Z then leadingFraction x scale true s'
        else
          let y := (x * 10 + digit_val c)%Z in
          if (y >? 2 ^ 63)%Z then leadingFraction x scale true s'
          else leadingFraction y (SFmul 53 1024 scale (f64_of_Z 10)) false s'
      else (x, scale, s)
  end.

(** The unit: the bytes up to the next [.] or digit. *)
Fixpoint span_unit (s : string) : string * string :=
  match s with
  | EmptyString => ("", "")
  | String c s' =>
      if Ascii.eqb c "." || is_digit c then ("", s)
      else let '(u, r) := span_unit s' in (String c u, r)
  end.

Definition unitMap (u : string) : option Z :=
  if String.eqb u "ns" then Some 1%Z
  else if String.eqb u "us" then Some 1000%Z
  else if String.eqb u "µs" then Some 1000%Z
  else if String.eqb u "μs" then Some 1000%Z
  else if String.eqb u "ms" then Some 1000000%Z
  else if String.eqb u "s" then Some 1000000000%Z
  else if String.eqb u "m" then Some 60000000000%Z
  else if String.eqb u "h" then Some 3600000000000%Z
  else None.

(** [for s != "" { ... }]: each turn reads a number and a unit, at least
    one byte; [n] is the length of the string. *)
Fixpoint parse_loop (n : nat) (d : Z) (s : string) : option Z :=
  match s with
  | EmptyString => Some d
  | String c _ =>
      match n with
      | O => None
      | S n' =>
          if negb (Ascii.eqb c "." || is_digit c) then None
          else
            match leadingInt 0 s with
            | None => None
            | Some (v, s1) =>
                let pre := negb (String.length s =? String.length s1)%nat in
                let '(f, scale, post, s2) :=
                  match s1 with
                  | String "." r =>
                      let '(f, scale, s2) := leadingFraction 0 (f64_of_Z 1) false r in
                      (f, scale, negb (String.length r =? String.length s2)%nat, s2)
                  | _ => (0%Z, f64_of_Z 1, false, s1)
                  end in
                if negb pre && negb post then None
                else
                  let '(u, s3) := span_unit s2 in
                  if String.eqb u "" then None
                  else
                    match unitMap u with
                    | None => None
                    | Some unit =>
                        if (v >? 2 ^ 63 / unit)%Z then None
                        else
                          let v := (v * unit)%Z in
                          let v :=
                            if (f >? 0)%Z then
                              (v + f64_to_uint64
                                     (SFmul 53 1024 (f64_of_Z f)
                                        (SFdiv 53 1024 (f64_of_Z unit) scale)))%Z
                            else v in
                          if (f >? 0)%Z && (v >? 2 ^ 63)%Z then None
                          else
                            let d := ((d + v) mod 2 ^ 64)%Z in
                            if (d >? 2 ^ 63)%Z then None else parse_loop n' d s3
                    end
            end
      end
  end.

Definition ParseDuration (s : string) : option Duration :=
  let '(neg, s) :=
    match s with
    | String c r =>
        if Ascii.eqb c "-" then (true, r)
        else if Ascii.eqb c "+" then (false, r) else (false, s)
    | EmptyString => (false, s)
    end in
  if String.eqb s "0" then Some 0%Z
  else if String.eqb s "" then None
  else
    match parse_loop (String.length s) 0 s with
    | None => None
    | Some d =>
        if neg then Some (- d)%Z
        else if (d >? 2 ^ 63 - 1)%Z then None else Some d
    end.
End time.

(** ** Collaborators outside the repository

    Two library behaviours are kept abstract: Unicode lower-casing of a
    string that holds a non-ASCII byte ([strings.Map(unicode.ToLower, s)],
    which depends on the Unicode tables), and the line editing of the text
    input widget. *)
Class External := {
  unicode_ToLower : string → string;
  textinput_Update : string → string → string
}.

(** ** Package [strings] *)
Module strings.
(** [strings.Contains(s, substr)] *)
Fixpoint Contains (s substr : string) : bool :=
  String.prefix substr s ||
  match s with
  | EmptyString => false
  | String _ s' => Contains s' substr
  end.

Definition lower_byte (c : ascii) : ascii :=
  if is_upper c then ascii_of_nat (nat_byte c + 32) else c.

Fixpoint is_ASCII (s : string) : bool :=
  match s with
  | EmptyString => true
  | String c s' => (nat_byte c <? 128)%nat && is_ASCII s'
  end.

Fixpoint map_bytes (f : ascii → ascii) (s : string) : string :=
  match s with
  | EmptyString => EmptyString
  | String c s' => String (f c) (map_bytes f s')
  end.

(** [strings.ToLower(s)]: the ASCII path of the library, else the
    Unicode mapping. *)
Definition ToLower `{External} (s : string) : string :=
  if is_ASCII s then map_bytes lower_byte s else unicode_ToLower s.

(** [strings.Join(elems, sep)] *)
Definition Join (elems : list string) (sep : string) : string :=
  String.concat sep elems.

(** [strings.ReplaceAll(s, old, new)] for a non-empty [old]. *)
Fixpoint ReplaceAll_from (n : nat) (s old new : string) : string :=
  match n with
  | O => s
  | S n' =>
      match s with
      | EmptyString => EmptyString
      | String c s' =>
          if String.prefix old s
          then new ++ ReplaceAll_from n' (String.substring (String.length old)
                                           (String.length s - String.length old) s) old new
          else String c (ReplaceAll_from n' s' old new)
      end
  end.

Definition ReplaceAll (s old new : string) : string :=
  ReplaceAll_from (String.length s) s old new.
End strings.

Local Open Scope Z_scope.

(** ** Messages of the runtime

    A key message is identified by [msg.String()] ("up", "shift+left", "s",
    "enter", ...); a resize message carries the terminal size. *)
Inductive Msg :=
| KeyMsg (key : string)
| WindowSizeMsg (Width Height : Z).

Inductive Cmd := cmd_nil | tea_Quit | textinput_Blink | textinput_Cmd.

(** ** The embedded table widget ([bubbles/table])

    Only the state the model relies on: columns, rows, the cursor, the
    focus flag and the viewport size.  The cursor is moved by [SetCursor],
    [MoveUp] and [MoveDown], each clamping into [[0, len(rows) - 1]].

    The lines the widget renders into its viewport are not part of the
    state.  The widget renders them again on each of these calls, which
    takes rows that are no longer than the columns and a viewport height
    that is not negative; what follows describes the state a call leaves
    when it returns. *)
Module table.
Abbreviation Row := (list string).

Record Column := { Title : string; Width : Z }.

Record Model := {
  cols : list Column;
  rows : list Row;
  cursor : Z;
  focus : bool;
  viewportWidth : Z;
  viewportHeight : Z
}.

Definition clamp (v low high : Z) : Z := Z.min (Z.max v low) high.

(** [table.New(WithColumns, WithRows, WithFocused, WithHeight)]; the
    header takes one line of the height. *)
Definition New (columns : list Column) (rs : list Row) (focused : bool) (h : Z) : Model :=
  {| cols := columns; rows := rs; cursor := 0; focus := focused;
     viewportWidth := 0; viewportHeight := h - 1 |}.

Definition Cursor (m : Model) : Z := cursor m.
Definition Rows (m : Model) : list Row := rows m.
Definition Focused (m : Model) : bool := focus m.

Definition set_cursor (c : Z) (m : Model) : Model :=
  {| cols := cols m; rows := rows m; cursor := c; focus := focus m;
     viewportWidth := viewportWidth m; viewportHeight := viewportHeight m |}.

Definition SetWidth (w : Z) (m : Model) : Model :=
  {| cols := cols m; rows := rows m; cursor := cursor m; focus := focus m;
     viewportWidth := w; viewportHeight := viewportHeight m |}.

Definition SetHeight (h : Z) (m : Model) : Model :=
  {| cols := cols m; rows := rows m; cursor := cursor m; focus := focus m;
     viewportWidth := viewportWidth m; viewportHeight := h - 1 |}.

Definition SetCursor (n : Z) (m : Model) : Model :=
  set_cursor (clamp n 0 (len (rows m) - 1)) m.

Definition MoveUp (n : Z) (m : Model) : Model :=
  set_cursor (clamp (cursor m - n) 0 (len (rows m) - 1)) m.

Definition MoveDown (n : Z) (m : Model) : Model :=
  set_cursor (clamp (cursor m + n) 0 (len (rows m) - 1)) m.

Definition GotoTop (m : Model) : Model := MoveUp (cursor m) m.
Definition GotoBottom (m : Model) : Model := MoveDown (len (rows m)) m.

(** [SelectedRow]: [nil] when the cursor is out of range. *)
Definition SelectedRow (m : Model) : Row :=
  if (cursor m <? 0)%Z || (len (rows m) <=? cursor m)%Z then []
  else default [] (rows m !! Z.to_nat (cursor m)).

Definition key_in (k : string) (keys : list string) : bool :=
  existsb (String.eqb k) keys.

(** [Update]: the default key map; nothing happens without the focus. *)
Definition Update (m : Model) (msg : Msg) : Model :=
  if negb (focus m) then m
  else
    match msg with
    | KeyMsg k =>
        if key_in k ["up"; "k"] then MoveUp 1 m
        else if key_in k ["down"; "j"] then MoveDown 1 m
        else if key_in k ["b"; "pgup"] then MoveUp (viewportHeight m) m
        else if key_in k ["f"; "pgdown"; " "] then MoveDown (viewportHeight m) m
        else if key_in k ["u"; "ctrl+u"] then MoveUp (Z.quot (viewportHeight m) 2) m
        else if key_in k ["d"; "ctrl+d"] then MoveDown (Z.quot (viewportHeight m) 2) m
        else if key_in k ["home"; "g"] then GotoTop m
        else if key_in k ["end"; "G"] then GotoBottom m
        else m
    | _ => m
    end.
End table.

(** ** The file system seen by the export *)
Record Disk := {
  mkdir_error : option string;
  create_error : option string;
  files : gmap string string
}.

(** ** [TableModel] *)
Record TableModel := {
  Table : table.Model;
  Title : string;
  RowCount : Z;
  QueryDuration : time.Duration;
  ShowHelp : bool;
  SortColumn : Z;
  SortAsc : bool;
  OriginalRows : list table.Row;
  FilteredRows : list table.Row;
  AllRows : list table.Row;
  FilterText : string;
  Filtering : bool;
  StatusMsg : string;
  TableColumns : list table.Column;
  ScrollOffset : Z;
  MaxColumns : Z;
  Width : Z;
  Height : Z;
  TextInput : string
}.

Definition set_Table (v : table.Model) (m : TableModel) : TableModel :=
  let '(Build_TableModel _ a b c d e f g h i j k l n o p q r s) := m in
  Build_TableModel v a b c d e f g h i j k l n o p q r s.
Definition set_Title (v : string) (m : TableModel) : TableModel :=
  let '(Build_TableModel t _ b c d e f g h i j k l n o p q r s) := m in
  Build_TableModel t v b c d e f g h i j k l n o p q r s.
Definition set_RowCount (v : Z) (m : TableModel) : TableModel :=
  let '(Build_TableModel t a _ c d e f g h i j k l n o p q r s) := m in
  Build_TableModel t a v c d e f g h i j k l n o p q r s.
Definition set_QueryDuration (v : time.Duration) (m : TableModel) : TableModel :=
  let '(Build_TableModel t a b _ d e f g h i j k l n o p q r s) := m in
  Build_TableModel t a b v d e f g h i j k l n o p q r s.
Definition set_ShowHelp (v : bool) (m : TableModel) : TableModel :=
  let '(Build_TableModel t a b c _ e f g h i j k l n o p q r s) := m in
  Build_TableModel t a b c v e f g h i j k l n o p q r s.
Definition set_SortColumn (v : Z) (m : TableModel) : TableModel :=
  let '(Build_TableModel t a b c d _ f g h i j k l n o p q r s) := m in
  Build_TableModel t a b c d v f g h i j k l n o p q r s.
Definition set_SortAsc (v : bool) (m : TableModel) : TableModel :=
  let '(Build_TableModel t a b c d e _ g h i j k l n o p q r s) := m in
  Build_TableModel t a b c d e v g h i j k l n o p q r s.
Definition set_OriginalRows (v : list table.Row) (m : TableModel) : TableModel :=
  let '(Build_TableModel t a b c d e f _ h i j k l n o p q r s) := m in
  Build_TableModel t a b c d e f v h i j k l n o p q r s.
Definition set_FilteredRows (v : list table.Row) (m : TableModel) : TableModel :=
  let '(Build_TableModel t a b c d e f g _ i j k l n o p q r s) := m in
  Build_TableModel t a b c d e f g v i j k l n o p q r s.
Definition set_AllRows (v : list table.Row) (m : TableModel) : TableModel :=
  let '(Build_TableModel t a b c d e f g h _ j k l n o p q r s) := m in
  Build_TableModel t a b c d e f g h v j k l n o p q r s.
Definition set_FilterText (v : string) (m : TableModel) : TableModel :=
  let '(Build_TableModel t a b c d e f g h i _ k l n o p q r s) := m in
  Build_TableModel t a b c d e f g h i v k l n o p q r s.
Definition set_Filtering (v : bool) (m : TableModel) : TableModel :=
  let '(Build_TableModel t a b c d e f g h i j _ l n o p q r s) := m in
  Build_TableModel t a b c d e f g h i j v l n o p q r s.
Definition set_StatusMsg (v : string) (m : TableModel) : TableModel :=
  let '(Build_TableModel t a b c d e f g h i j k _ n o p q r s) := m in
  Build_TableModel t a b c d e f g h i j k v n o p q r s.
Definition set_TableColumns (v : list table.Column) (m : TableModel) : TableModel :=
  let '(Build_TableModel t a b c d e f g h i j k l _ o p q r s) := m in
  Build_TableModel t a b c d e f g h i j k l v o p q r s.
Definition set_ScrollOffset (v : Z) (m : TableModel) : TableModel :=
  let '(Build_TableModel t a b c d e f g h i j k l n _ p q r s) := m in
  Build_TableModel t a b c d e f g h i j k l n v p q r s.
Definition set_MaxColumns (v : Z) (m : TableModel) : TableModel :=
  let '(Build_TableModel t a b c d e f g h i j k l n o _ q r s) := m in
  Build_TableModel t a b c d e f g h i j k l n o v q r s.
Definition set_Width (v : Z) (m : TableModel) : TableModel :=
  let '(Build_TableModel t a b c d e f g h i j k l n o p _ r s) := m in
  Build_TableModel t a b c d e f g h i j k l n o p v r s.
Definition set_Height (v : Z) (m : TableModel) : TableModel :=
  let '(Build_TableModel t a b c d e f g h i j k l n o p q _ s) := m in
  Build_TableModel t a b c d e f g h i j k l n o p q v s.
Definition set_TextInput (v : string) (m : TableModel) : TableModel :=
  let '(Build_TableModel t a b c d e f g h i j k l n o p q r _) := m in
  Build_TableModel t a b c d e f g h i j k l n o p q r v.

(** [NewTableModel]; the table is the widget's zero value. *)
Definition NewTableModel : TableModel := {|
  Table := {| table.cols := []; table.rows := []; table.cursor := 0;
              table.focus := false; table.viewportWidth := 0;
              table.viewportHeight := 0 |};
  Title := ""; RowCount := 0; QueryDuration := 0;
  ShowHelp := false;
  SortColumn := -1;
  SortAsc := true;
  OriginalRows := []; FilteredRows := []; AllRows := [];
  FilterText := ""; Filtering := false; StatusMsg := "";
  TableColumns := [];
  ScrollOffset := 0; MaxColumns := 0; Width := 0; Height := 0;
  TextInput := ""
|}.

Definition dquote : string := String "034"%char EmptyString.
Definition newline : string := String "010"%char EmptyString.
Definition itoa (z : Z) : string := NilZero.string_of_int (Z.to_int z).

(** ** [ExportToCSV] *)

(** The quoting applied to a cell. *)
Definition csv_cell (cell : string) : string :=
  let cellStr := cell in
  if strings.Contains cellStr "," || strings.Contains cellStr dquote
     || strings.Contains cellStr newline
  then String.append dquote
         (String.append (strings.ReplaceAll cellStr dquote (String.append dquote dquote)) dquote)
  else cellStr.

(** [fmt.Fprintln(f, line)] on the bytes written so far. *)
Definition Fprintln (f line : string) : string :=
  String.append f (String.append line newline).

Definition csv_bytes (m : TableModel) : string :=
  let headers := map table.Title (TableColumns m) in
  let f := Fprintln "" (strings.Join headers ",") in
  foldl (fun f row => Fprintln f (strings.Join (map csv_cell row) ",")) f (OriginalRows m).

Definition outputFile : string := "output/查询结果.csv".

Definition ExportToCSV (d : Disk) (m : TableModel) : Disk * option string :=
  match mkdir_error d with
  | Some err => (d, Some (String.append "创建输出目录失败: " err))
  | None =>
      match create_error d with
      | Some err => (d, Some (String.append "创建输出文件失败: " err))
      | None =>
          ({| mkdir_error := mkdir_error d; create_error := create_error d;
              files := <[outputFile := csv_bytes m]> (files d) |}, None)
      end
  end.

(** ** [CalculateMaxColumns] *)

(** The [range] loop: [i] is the index of the head of [cols].  The running
    total is kept in [Z]; [count_columns_int] below is the same loop on
    64-bit integers. *)
Fixpoint count_columns (cols : list table.Column) (i scrollOffset width totalWidth count : Z)
  : Z :=
  match cols with
  | [] => count
  | col :: rest =>
      if i <? scrollOffset then
        count_columns rest (i + 1) scrollOffset width totalWidth count
      else
        let totalWidth := totalWidth + (table.Width col + 2) in
        if totalWidth >? width then count
        else count_columns rest (i + 1) scrollOffset width totalWidth (count + 1)
  end.

Definition CalculateMaxColumns (m : TableModel) : TableModel :=
  if len (TableColumns m) =? 0 then set_MaxColumns 0 m
  else
    let count := count_columns (TableColumns m) 0 (ScrollOffset m) (Width m) 0 0 in
    let count :=
      if (count =? 0) && (len (TableColumns m) >? ScrollOffset m) then 1 else count in
    set_MaxColumns count m.

(** Go's [int] on the 64-bit targets: a sum wraps around. *)
Definition int_wrap (z : Z) : Z := (z + 2 ^ 63) mod 2 ^ 64 - 2 ^ 63.

(** The loop of [CalculateMaxColumns] with the running total as an [int]. *)
Fixpoint count_columns_int (cols : list table.Column)
    (i scrollOffset width totalWidth count : Z) : Z :=
  match cols with
  | [] => count
  | col :: rest =>
      if i <? scrollOffset then
        count_columns_int rest (i + 1) scrollOffset width totalWidth count
      else
        let totalWidth := int_wrap (totalWidth + int_wrap (table.Width col + 2)) in
        if totalWidth >? width then count
        else count_columns_int rest (i + 1) scrollOffset width totalWidth (count + 1)
  end.

(** ** [UpdateVisibleColumns] *)

(** [for j := range visibleColumns]: the cells of one visible row. *)
Fixpoint visible_cells (row : table.Row) (scrollOffset j : Z) (n : nat)
  : result table.Row :=
  match n with
  | O => Ok []
  | S n' =>
      let colIdx := scrollOffset + j in
      cell ← (if colIdx <? len row then index row colIdx else Ok "");
      rest ← visible_cells row scrollOffset (j + 1) n';
      Ok (cell :: rest)
  end.

(** [for i, row := range m.OriginalRows]: a row without a cell at the
    offset keeps the zero value of its slot, the empty row. *)
Fixpoint visible_rows (rs : list table.Row) (i total scrollOffset : Z) (ncols : nat)
  : result (list table.Row) :=
  match rs with
  | [] => Ok []
  | row :: rest =>
      visibleRow ← (if (i <? total) && (scrollOffset <? len row)
                    then visible_cells row scrollOffset 0 ncols
                    else Ok []);
      others ← visible_rows rest (i + 1) total scrollOffset ncols;
      Ok (visibleRow :: others)
  end.

(** The closing block of the rebuild: one step away from the nearest end
    of the table and back. *)
Definition refresh_cursor (t : table.Model) : table.Model :=
  if len (table.Rows t) >? 0 then
    let currentCursor := table.Cursor t in
    if currentCursor =? 0 then
      table.Update (table.Update t (KeyMsg "down")) (KeyMsg "up")
    else if currentCursor =? len (table.Rows t) - 1 then
      table.Update (table.Update t (KeyMsg "up")) (KeyMsg "down")
    else
      table.Update (table.Update t (KeyMsg "up")) (KeyMsg "down")
  else t.

(** The function in its four blocks: the offset is brought into range,
    the count recomputed, the offset pulled left when the window would end
    past the last column, and the widget rebuilt. *)
Definition clamp_ScrollOffset (m : TableModel) : TableModel :=
  let m := if ScrollOffset m <? 0 then set_ScrollOffset 0 m else m in
  if ScrollOffset m >=? len (TableColumns m)
  then set_ScrollOffset (len (TableColumns m) - 1) m else m.

Definition pull_ScrollOffset_left (m : TableModel) : TableModel :=
  if (ScrollOffset m >? 0) && (ScrollOffset m + MaxColumns m >? len (TableColumns m))
  then
    let newOffset := len (TableColumns m) - MaxColumns m in
    let newOffset := if newOffset <? 0 then 0 else newOffset in
    set_ScrollOffset newOffset m
  else m.

Definition rebuild_Table (m : TableModel) : result TableModel :=
  let endIdx := ScrollOffset m + MaxColumns m in
  let endIdx := if endIdx >? len (TableColumns m) then len (TableColumns m) else endIdx in
  let currentCursor := table.Cursor (Table m) in
  let isFocused := table.Focused (Table m) in
  let tableWidth := Width m in
  let tableHeight := Height m in
  visibleColumns ← slice (TableColumns m) (ScrollOffset m) endIdx;
  visibleRows ← visible_rows (OriginalRows m) 0 (len (OriginalRows m))
                  (ScrollOffset m) (length visibleColumns);
  let newTable := table.New visibleColumns visibleRows isFocused tableHeight in
  let newTable := table.SetWidth tableWidth newTable in
  let newTable := table.SetHeight tableHeight newTable in
  let newTable :=
    if len visibleRows >? 0 then
      let validCursor :=
        if currentCursor <? 0 then 0
        else if currentCursor >=? len visibleRows then len visibleRows - 1
        else currentCursor in
      table.SetCursor validCursor newTable
    else newTable in
  let m := set_Table newTable m in
  Ok (set_Table (refresh_cursor (Table m)) m).

Definition UpdateVisibleColumns (m : TableModel) : result TableModel :=
  if len (TableColumns m) =? 0 then Ok m
  else rebuild_Table (pull_ScrollOffset_left (CalculateMaxColumns (clamp_ScrollOffset m))).

(** ** [EnsureCursorVisible] *)
Definition EnsureCursorVisible (m : TableModel) : TableModel :=
  let cursor := table.Cursor (Table m) in
  let rowCount := len (table.Rows (Table m)) in
  if rowCount =? 0 then m
  else if cursor <? 0 then set_Table (table.SetCursor 0 (Table m)) m
  else if cursor >=? rowCount then set_Table (table.SetCursor (rowCount - 1) (Table m)) m
  else
    let selectedRow := table.SelectedRow (Table m) in
    if len selectedRow =? 0 then
      let m := set_Table (table.SetCursor cursor (Table m)) m in
      let selectedRow := table.SelectedRow (Table m) in
      if (len selectedRow =? 0) && (rowCount >? 0)
      then set_Table (table.SetCursor 0 (Table m)) m
      else m
    else m.

(** ** [SortRows] *)

(** The closure handed to [sort.Slice], on the two rows it indexes. *)
Definition SortRows_less (sortColumn : Z) (sortAsc : bool) (ri rj : table.Row)
  : result bool :=
  a ← index ri sortColumn;
  b ← index rj sortColumn;
  match strconv.ParseFloat a, strconv.ParseFloat b with
  | Some aNum, Some bNum =>
      Ok (if sortAsc then f64_lt aNum bNum else f64_gt aNum bNum)
  | _, _ =>
      Ok (if sortAsc then string_lt a b else string_gt a b)
  end.

Definition SortRows (m : TableModel) : result TableModel :=
  if SortColumn m <? 0 then Ok m
  else
    rows ← sort.Slice (SortRows_less (SortColumn m) (SortAsc m)) (OriginalRows m);
    UpdateVisibleColumns (set_OriginalRows rows m).

Section controller.
Context `{External}.

(** ** [ApplyFilter] *)

(** [for _, row := range m.AllRows]: the rows whose cell matches. *)
Fixpoint filter_rows (rs : list table.Row) (sortColumn : Z) (lowerFilterText : string)
  : result (list table.Row) :=
  match rs with
  | [] => Ok []
  | row :: rest =>
      cell ← index row sortColumn;
      let cellValue := strings.ToLower cell in
      others ← filter_rows rest sortColumn lowerFilterText;
      Ok (if strings.Contains cellValue lowerFilterText then row :: others else others)
  end.

Definition ApplyFilter (m : TableModel) : result TableModel :=
  if String.eqb (FilterText m) "" then
    let m := if len (AllRows m) >? 0 then set_OriginalRows (AllRows m) m else m in
    m ← UpdateVisibleColumns m;
    Ok (set_StatusMsg "已恢复全部数据" m)
  else
    let lowerFilterText := strings.ToLower (FilterText m) in
    filteredRows ← filter_rows (AllRows m) (SortColumn m) lowerFilterText;
    let m := set_FilteredRows filteredRows m in
    let m := set_OriginalRows filteredRows m in
    m ← UpdateVisibleColumns m;
    col ← index (TableColumns m) (SortColumn m);
    let columnName := table.Title col in
    Ok (set_StatusMsg
          (String.append "筛选结果: 在列 ["
             (String.append columnName
                (String.append "] 中找到 "
                   (String.append (itoa (len filteredRows)) " 行匹配数据")))) m).

(** ** [Update] *)

(** The body shared by the four scroll keys: the cursor is saved, the
    window rebuilt at the new offset, the cursor restored and checked. *)
Definition scroll_to (offset : Z) (m : TableModel) : result TableModel :=
  let currentCursor := table.Cursor (Table m) in
  let m := set_ScrollOffset offset m in
  m ← UpdateVisibleColumns m;
  let m := set_Table (table.SetCursor currentCursor (Table m)) m in
  Ok (EnsureCursorVisible m).

(** [for i := 0; i < pageSize; i++ { m.Table, _ = m.Table.Update(key) }] *)
Definition page (key : string) (m : TableModel) : TableModel :=
  let pageSize := Z.quot (Height m) 2 in
  set_Table (Nat.iter (Z.to_nat pageSize) (fun t => table.Update t (KeyMsg key)) (Table m)) m.

(** The frame of [baseStyle], which has neither border, margin nor padding. *)
Definition baseStyle_GetFrameSize : Z * Z := (0, 0).

Definition Update (d : Disk) (m : TableModel) (msg : Msg)
  : result (TableModel * Cmd * Disk) :=
  let finish (m : TableModel) (d : Disk) : result (TableModel * Cmd * Disk) :=
    let m := set_Table (table.Update (Table m) msg) m in
    Ok (EnsureCursorVisible m, cmd_nil, d) in
  match msg with
  | KeyMsg k =>
      if Filtering m then
        if String.eqb k "enter" then
          let m := set_Filtering false m in
          let m := set_FilterText (TextInput m) m in
          m ← ApplyFilter m;
          Ok (set_TextInput "" m, cmd_nil, d)
        else if String.eqb k "esc" then
          let m := set_Filtering false m in
          let m := set_FilterText "" m in
          let m := set_TextInput "" m in
          let m := if len (AllRows m) >? 0 then set_OriginalRows (AllRows m) m else m in
          m ← UpdateVisibleColumns m;
          Ok (m, cmd_nil, d)
        else
          Ok (set_TextInput (textinput_Update (TextInput m) k) m, textinput_Cmd, d)
      else if String.eqb k "esc" then Ok (m, tea_Quit, d)
      else if String.eqb k "h" then finish (set_ShowHelp (negb (ShowHelp m)) m) d
      else if String.eqb k "s" then
        let targetColumn := ScrollOffset m in
        let m := set_SortColumn targetColumn m in
        let m := set_SortAsc (negb (SortAsc m)) m in
        m ← SortRows m;
        finish (EnsureCursorVisible m) d
      else if String.eqb k "f" then
        let targetColumn := ScrollOffset m in
        let m := set_Filtering true m in
        let m := set_FilterText "" m in
        let m := set_TextInput "" m in
        let m := if (len (AllRows m) =? 0) && (len (OriginalRows m) >? 0)
                 then set_AllRows (OriginalRows m) m else m in
        Ok (set_SortColumn targetColumn m, textinput_Blink, d)
      else if String.eqb k "r" then
        if len (AllRows m) >? 0 then
          let m := set_OriginalRows (AllRows m) m in
          let m := set_FilterText "" m in
          let m := set_StatusMsg "已重置筛选器，恢复全部数据" m in
          m ← UpdateVisibleColumns m;
          finish m d
        else finish m d
      else if String.eqb k "e" then
        let '(d, err) := ExportToCSV d m in
        match err with
        | Some e => finish (set_StatusMsg (String.append "导出失败: " e) m) d
        | None => finish (set_StatusMsg "导出成功: ./output/查询结果.csv" m) d
        end
      else if String.eqb k "left" then
        if ScrollOffset m >? 0 then
          m ← scroll_to (ScrollOffset m - 1) m; finish m d
        else finish m d
      else if String.eqb k "right" then
        if ScrollOffset m <? len (TableColumns m) - 1 then
          m ← scroll_to (ScrollOffset m + 1) m; finish m d
        else finish m d
      else if String.eqb k "shift+right" then
        let maxScroll := len (TableColumns m) - 1 in
        let maxScroll := if maxScroll <? 0 then 0 else maxScroll in
        if negb (ScrollOffset m =? maxScroll) then
          m ← scroll_to maxScroll m; finish m d
        else finish m d
      else if String.eqb k "shift+left" then
        if ScrollOffset m >? 0 then
          m ← scroll_to 0 m; finish m d
        else finish m d
      else if String.eqb k "shift+up" then finish (page "up" m) d
      else if String.eqb k "shift+down" then finish (page "down" m) d
      else finish m d
  | WindowSizeMsg width height =>
      let '(h, v) := baseStyle_GetFrameSize in
      let m := set_Width (width - h) m in
      let reservedHeight := 4 in
      let reservedHeight := if Filtering m then reservedHeight + 1 else reservedHeight in
      let reservedHeight :=
        if negb (String.eqb (FilterText m) "") then reservedHeight + 1 else reservedHeight in
      let reservedHeight :=
        if negb (String.eqb (StatusMsg m) "") then reservedHeight + 1 else reservedHeight in
      let m := set_Height (height - v - reservedHeight) m in
      let m := set_Table (table.SetWidth (Width m) (Table m)) m in
      let m := set_Table (table.SetHeight (Height m) (Table m)) m in
      let m := CalculateMaxColumns m in
      m ← UpdateVisibleColumns m;
      finish m d
  end.
End controller.

(** ** [ShowTable] *)
Record TableData := {
  data_Title : string;
  Headers : list string;
  Rows : list (list string);
  Metadata : gmap string string
}.

Definition slen (s : string) : Z := Z.of_nat (String.length s).

(** [for i, cell := range row]: one row widens the columns it exceeds. *)
Fixpoint widen_row (colMaxWidth : list Z) (i : nat) (row : list string) : list Z :=
  match row with
  | [] => colMaxWidth
  | cell :: rest =>
      let colMaxWidth :=
        match colMaxWidth !! i with
        | Some w => if slen cell >? w then <[i := slen cell + 2]> colMaxWidth else colMaxWidth
        | None => colMaxWidth
        end in
      widen_row colMaxWidth (S i) rest
  end.

Definition column_of (header : string) (width : Z) : table.Column :=
  let width := if width <? 10 then 10 else if width >? 40 then 40 else width in
  {| table.Title := header; table.Width := width |}.

(** [ShowTable] up to the start of the event loop: the model handed to the
    runtime, or the error returned before.  [termSize] is the answer of
    [term.GetSize], [None] when it fails. *)
Definition ShowTable (termSize : option (Z * Z)) (data : TableData) : result TableModel :=
  let colMaxWidth := map (fun header => slen header + 2) (Headers data) in
  let colMaxWidth := foldl (fun w row => widen_row w 0 row) colMaxWidth (Rows data) in
  let tableColumns := zip_with column_of (Headers data) colMaxWidth in
  let tableRows : list table.Row := Rows data in
  let tableRows :=
    if len tableRows =? 0 then
      let emptyRow := replicate (length (Headers data)) "无数据" in
      app tableRows [emptyRow]
    else tableRows in
  let m := NewTableModel in
  let m := set_Title (data_Title data) m in
  let m := set_RowCount (len (Rows data)) m in
  let m := set_OriginalRows tableRows m in
  let m := set_AllRows tableRows m in
  let m := set_TableColumns tableColumns m in
  let m :=
    match termSize with
    | Some (width, height) =>
        let m := set_Width (width - 4) m in
        let m := set_Height (height - 12) m in
        if Height m <? 10 then set_Height 10 m else m
    | None => set_Height 20 (set_Width 80 m)
    end in
  let t := table.New tableColumns tableRows true (Height m) in
  let durationStr := default "" (Metadata data !! "QueryDuration") in
  match time.ParseDuration durationStr with
  | None => Err "time: invalid duration"
  | Some duration =>
      let m := set_QueryDuration duration m in
      let m := set_Table t m in
      let m := CalculateMaxColumns m in
      UpdateVisibleColumns m
  end.

(** ** The specification's reading of the viewport arithmetic

    [computeVisibleColumnCount] follows the words of the specification:
    from the scroll offset on, each column adds its display width and the
    padding to a running total; the columns met before the total would
    exceed the available width are counted, and a count of zero is forced
    to one when a column exists at the offset. *)
Fixpoint accommodated (cols : list table.Column) (availableWidth total : Z) : Z :=
  match cols with
  | [] => 0
  | col :: rest =>
      let total := total + (table.Width col + 2) in
      if total <=? availableWidth then 1 + accommodated rest availableWidth total else 0
  end.

Definition computeVisibleColumnCount (columns : list table.Column)
    (scrollOffset availableWidth : Z) : Z :=
  let fromOffset := drop (Z.to_nat scrollOffset) columns in
  let count := accommodated fromOffset availableWidth 0 in
  match fromOffset with
  | _ :: _ => if count =? 0 then 1 else count
  | [] => count
  end.

(** The visible window and its summed width. *)
Definition window (columns : list table.Column) (scrollOffset count : Z)
  : list table.Column :=
  take (Z.to_nat count) (drop (Z.to_nat scrollOffset) columns).

Definition summed_width (cols : list table.Column) : Z :=
  foldr (fun col acc => table.Width col + 2 + acc) 0 cols.

(** What the rebuild shows of one active row: its cells from the offset
    on, padded with empty strings, or nothing when the row ends before the
    offset. *)
Definition visible_row (scrollOffset : Z) (ncols : nat) (row : table.Row) : table.Row :=
  if scrollOffset <? len row then
    map (fun k => default "" (row !! (Z.to_nat scrollOffset + k)%nat)) (seq 0 ncols)
  else [].

(** A data set without columns, shown on a terminal three cells wide. *)
Definition no_columns : TableData := {|
  data_Title := "empty"; Headers := []; Rows := [];
  Metadata := {[ "QueryDuration" := "0" ]}
|}.

(** The scroll offset the rebuild settles on, and the window it shows. *)
Definition settled_offset (m : TableModel) : Z :=
  table.clamp (ScrollOffset m) 0 (len (TableColumns m) - 1).

Definition settled_count (m : TableModel) : Z :=
  computeVisibleColumnCount (TableColumns m) (settled_offset m) (Width m).

Definition rebuilt_table (m : TableModel) : table.Model :=
  let vcols := window (TableColumns m) (settled_offset m) (settled_count m) in
  let vrows := map (visible_row (settled_offset m) (length vcols)) (OriginalRows m) in
  {| table.cols := vcols;
     table.rows := vrows;
     table.cursor :=
       if len vrows >? 0 then table.clamp (table.Cursor (Table m)) 0 (len vrows - 1) else 0;
     table.focus := table.Focused (Table m);
     table.viewportWidth := Width m;
     table.viewportHeight := Height m - 1 |}.

(** ** Data sets and states of the examples

    An instance of the collaborators for texts whose only cased letters
    are ASCII ones, typed at the end of the input line: lower-casing maps
    the ASCII capitals and keeps every other byte. *)
Definition plain_text : External := {|
  unicode_ToLower := strings.map_bytes strings.lower_byte;
  textinput_Update := fun value key =>
    if (String.length key =? 1)%nat then String.append value key else value
|}.

Definition empty_disk : Disk :=
  {| mkdir_error := None; create_error := None; files := ∅ |}.

(** The state [ShowTable] hands to the runtime on a terminal whose size is
    unknown (80 by 20), or the zero model when the load fails. *)
Definition loaded (data : TableData) : TableModel :=
  match ShowTable None data with
  | Ok m => m
  | _ => NewTableModel
  end.

(** The scenario of the specification. *)
Definition baseline : TableData := {|
  data_Title := "people";
  Headers := ["ID"; "Name"; "Age"];
  Rows := [["1"; "Alice"; "30"]; ["2"; "bob"; "25"]; ["3"; "Cara"; "25"]];
  Metadata := {[ "QueryDuration" := "20ms" ]}
|}.

(** A data set whose second row stops after its first cell. *)
Definition ragged : TableData := {|
  data_Title := "ragged";
  Headers := ["ID"; "Name"];
  Rows := [["1"; "Alice"]; ["2"]];
  Metadata := {[ "QueryDuration" := "20ms" ]}
|}.

(** A data set whose only row stops before the second column. *)
Definition short_row : TableData := {|
  data_Title := "short";
  Headers := ["ID"; "Name"];
  Rows := [["1"]];
  Metadata := {[ "QueryDuration" := "20ms" ]}
|}.

(** The state after the key events [keys], from a loaded data set. *)
Definition after_keys (data : TableData) (keys : list string)
  : result (TableModel * Cmd * Disk) :=
  foldl (fun r key =>
           '(m, _, d) ← r;
           @Update plain_text d m (KeyMsg key))
        (Ok (loaded data, cmd_nil, empty_disk)) keys.

(** The scenario of the specification, loaded without any metadata. *)
Definition baseline_without_metadata : TableData := {|
  data_Title := "people";
  Headers := ["ID"; "Name"; "Age"];
  Rows := [["1"; "Alice"; "30"]; ["2"; "bob"; "25"]; ["3"; "Cara"; "25"]];
  Metadata := ∅
|}.

(** ** The specification's reading of the comparator

    Two cells are compared numerically when both parse as numbers, and as
    byte strings otherwise; [None] is the verdict on a NaN. *)
Definition compare_cells (a b : string) : option comparison :=
  match strconv.ParseFloat a, strconv.ParseFloat b with
  | Some x, Some y => SFcompare x y
  | _, _ => Some (String.compare a b)
  end.

Definition verdict_is (v : option comparison) (c : comparison) : bool :=
  match v with
  | Some c' => match c, c' with Lt, Lt | Gt, Gt | Eq, Eq => true | _, _ => false end
  | None => false
  end.

(** The scenario ready for a sort on its third column, [Age]. *)
Definition baseline_by_age (ascending : bool) : TableModel :=
  set_SortAsc ascending (set_SortColumn 2 (loaded baseline)).

(** Rows whose cell at [col] is [key]: they tie under the comparator. *)
Definition key_is (col : nat) (key : string) (row : table.Row) : bool :=
  match row !! col with
  | Some cell => String.eqb cell key
  | None => false
  end.

(** Thirteen rows: twelve with key 1, then one with key 2. *)
Definition thirteen : TableData := {|
  data_Title := "thirteen";
  Headers := ["ID"; "Key"];
  Rows := [["a"; "1"]; ["b"; "1"]; ["c"; "1"]; ["d"; "1"]; ["e"; "1"]; ["f"; "1"];
           ["g"; "1"]; ["h"; "1"]; ["i"; "1"]; ["j"; "1"]; ["k"; "1"]; ["l"; "1"];
           ["m"; "2"]];
  Metadata := {[ "QueryDuration" := "20ms" ]}
|}.

(** ... ready for the descending sort on [Key] that the first press of the
    sort key runs. *)
Definition thirteen_by_key : TableModel :=
  set_SortAsc false (set_SortColumn 1 (set_ScrollOffset 1 (loaded thirteen))).

(** ** The specification's reading of the filter

    A row matches when its cell at the column contains the query, both
    taken in lower case. *)
Definition cell_matches `{External} (col : Z) (query : string) (row : table.Row) : bool :=
  match row !! Z.to_nat col with
  | Some cell => strings.Contains (strings.ToLower cell) (strings.ToLower query)
  | None => false
  end.

(** The scenario with a filter on its second column, [Name]. *)
Definition baseline_filter (query : string) : TableModel :=
  set_FilterText query (set_SortColumn 1 (loaded baseline)).

(** A data set with headers and no row. *)
Definition no_rows : TableData := {|
  data_Title := "nothing";
  Headers := ["ID"; "Name"];
  Rows := [];
  Metadata := {[ "QueryDuration" := "0" ]}
|}.

(** ** Reading a delimited file back

    A reader for the quoting rules the specification names (RFC 4180):
    fields are separated by commas and records by line feeds; a field that
    opens with a quote runs to its closing quote, a doubled quote inside
    standing for one quote. *)
Inductive csv_mode := FieldStart | Unquoted | Quoted | QuoteSeen.

Definition push (field : string) (c : ascii) : string :=
  String.append field (String c EmptyString).

Fixpoint csv_read (s : string) (mode : csv_mode) (field : string) (record : list string)
  : list (list string) :=
  match s with
  | EmptyString =>
      match mode, record, field with
      | FieldStart, [], EmptyString => []
      | _, _, _ => [app record [field]]
      end
  | String c s' =>
      match mode with
      | Quoted =>
          if Ascii.eqb c "034" then csv_read s' QuoteSeen field record
          else csv_read s' Quoted (push field c) record
      | _ =>
          if Ascii.eqb c "," then csv_read s' FieldStart "" (app record [field])
          else if Ascii.eqb c "010" then app record [field] :: csv_read s' FieldStart "" []
          else if Ascii.eqb c "034" then
            match mode with
            | FieldStart => csv_read s' Quoted field record
            | QuoteSeen => csv_read s' Quoted (push field c) record
            | _ => csv_read s' Unquoted (push field c) record
            end
          else csv_read s' Unquoted (push field c) record
      end
  end.

Definition csv_parse (s : string) : list (list string) := csv_read s FieldStart "" [].

(** A header that holds a comma. *)
Definition comma_header : TableData := {|
  data_Title := "header";
  Headers := ["a,b"];
  Rows := [["1"]];
  Metadata := {[ "QueryDuration" := "0" ]}
|}.

(** Cells that hold a comma, quotes and a line feed. *)
Definition special_cells : TableData := {|
  data_Title := "cells";
  Headers := ["text"; "n"];
  Rows := [["x,y"; "1"];
           [String.append "say " (String.append dquote (String.append "hi" dquote)); "2"];
           [String.append "two" (String.append newline "lines"); "3"]];
  Metadata := {[ "QueryDuration" := "0" ]}
|}.

(** ** The cursor guard and the view, as properties

    The cursor [EnsureCursorVisible] leaves on the widget [t]. *)
Definition guarded_cursor (t : table.Model) : Z :=
  let n := len (table.rows t) in
  if n =? 0 then table.cursor t
  else if table.cursor t <? 0 then 0
  else if table.cursor t >=? n then n - 1
  else if len (table.SelectedRow t) =? 0 then 0
  else table.cursor t.

(** The view is in step with the data when the offset is inside the
    schema, the count is the one computed for the width and the widget
    holds the window of the active rows at that offset. *)
Definition windowed (m : TableModel) : Prop :=
  0 <= ScrollOffset m < len (TableColumns m)
  /\ MaxColumns m = computeVisibleColumnCount (TableColumns m) (ScrollOffset m) (Width m)
  /\ table.cols (Table m) = window (TableColumns m) (ScrollOffset m) (MaxColumns m)
  /\ table.rows (Table m)
     = map (visible_row (ScrollOffset m) (Z.to_nat (MaxColumns m))) (OriginalRows m).

(** ... and the cursor is on one of the rows, when there is one. *)
Definition in_step (m : TableModel) : Prop :=
  windowed m
  /\ (OriginalRows m <> [] -> 0 <= table.cursor (Table m) < len (OriginalRows m)).

(** The end of most paths of [Update]: the widget handles the message
    and the cursor is checked. *)
Definition widget_step (msg : Msg) (m : TableModel) : TableModel :=
  EnsureCursorVisible (set_Table (table.Update (Table m) msg) m).

(** The model of an outcome, for the examples. *)
Definition model_of (r : result (TableModel * Cmd * Disk)) : TableModel :=
  match r with
  | Ok (m, _, _) => m
  | _ => NewTableModel
  end.

(** The neighbours at [k] and [k + 1] are in order under [less]: the
    second is not strictly before the first. *)
Definition in_order {A : Type} (less : A -> A -> result bool) (data : list A) (k : nat)
  : Prop :=
  forall x y, data !! k = Some x -> data !! S k = Some y -> less y x = Ok false.

(** A slice of [n] elements on which the closure of a sort does not fail. *)
Definition sound {A : Type} (well_formed : A -> Prop) (n : nat) (data : list A) : Prop :=
  length data = n /\ Forall well_formed data.

(** * Properties *)

Local Open Scope list_scope.

(** ** Outcomes and bounds checks *)

(** Case analysis on the integer tests of the goal. *)
Ltac ztest :=
  rewrite ?Z.gtb_ltb, ?Z.geb_leb;
  repeat match goal with
    | |- context [(?a <? ?b)%Z] => destruct (Z.ltb_spec a b)
    | |- context [(?a <=? ?b)%Z] => destruct (Z.leb_spec a b)
    | |- context [(?a =? ?b)%Z] => destruct (Z.eqb_spec a b)
    end;
  cbn [andb orb negb].

Ltac ztest_in H :=
  rewrite ?Z.gtb_ltb, ?Z.geb_leb in H;
  repeat match type of H with
    | context [(?a <? ?b)%Z] => destruct (Z.ltb_spec a b)
    | context [(?a <=? ?b)%Z] => destruct (Z.leb_spec a b)
    | context [(?a =? ?b)%Z] => destruct (Z.eqb_spec a b)
    end;
  cbn [andb orb negb] in H.

Lemma lookup_map {A B} (f : A -> B) (l : list A) (i : nat) :
  map f l !! i = f <$> (l !! i).
Proof. revert i. induction l as [|x l IH]; intros [|i]; simpl; auto. Qed.

Lemma len_nonneg {A} (s : list A) : 0 <= len s.
Proof. unfold len. lia. Qed.

Lemma len_nil_iff {A} (s : list A) : len s = 0 <-> s = [].
Proof. unfold len. destruct s; simpl; split; intros; try done; lia. Qed.

Lemma index_Ok {A} (s : list A) (i : Z) :
  0 <= i < len s -> exists x, index s i = Ok x /\ s !! Z.to_nat i = Some x.
Proof.
  intros Hi. unfold index. ztest; try lia.
  destruct (s !! Z.to_nat i) as [x|] eqn:E.
  - eauto.
  - apply lookup_ge_None in E. unfold len in Hi. lia.
Qed.

Lemma index_Panic {A} (s : list A) (i : Z) :
  len s <= i -> index s i = Panic "index out of range".
Proof. intros Hi. unfold index. ztest; try lia; done. Qed.

(** ** The visible column count *)

Lemma count_columns_skip cols : forall i off W total count,
  count_columns cols i off W total count =
  count_columns (drop (Z.to_nat (off - i)) cols)
                (Z.max i off) off W total count.
Proof.
  induction cols as [|col rest IH]; intros i off W total count.
  - now rewrite drop_nil.
  - destruct (Z.ltb_spec i off) as [Hlt|Hge].
    + simpl. replace (i <? off) with true by (symmetry; apply Z.ltb_lt; lia).
      rewrite IH.
      replace (Z.to_nat (off - i)) with (S (Z.to_nat (off - (i + 1)))) by lia.
      simpl. f_equal; lia.
    + replace (Z.to_nat (off - i)) with O by lia.
      rewrite drop_0. f_equal. lia.
Qed.

Lemma count_columns_accommodated cols : forall i off W total count,
  off <= i ->
  count_columns cols i off W total count = count + accommodated cols W total.
Proof.
  induction cols as [|col rest IH]; intros i off W total count Hi; simpl.
  - lia.
  - ztest; try lia. rewrite IH by lia. lia.
Qed.

Lemma accommodated_bounds cols : forall W total,
  0 <= accommodated cols W total <= len cols.
Proof.
  induction cols as [|col rest IH]; intros W total; simpl.
  - unfold len. simpl. lia.
  - unfold len in *. simpl length.
    destruct (_ <=? _); [specialize (IH W (total + (table.Width col + 2)))|]; lia.
Qed.

Lemma accommodated_fits cols : forall W total,
  0 < accommodated cols W total ->
  total + summed_width (take (Z.to_nat (accommodated cols W total)) cols) <= W.
Proof.
  induction cols as [|col rest IH]; intros W total Hpos; simpl in *.
  - lia.
  - destruct (Z.leb_spec (total + (table.Width col + 2)) W) as [Hle|Hgt]; [|lia].
    pose proof (accommodated_bounds rest W (total + (table.Width col + 2))) as Hb.
    replace (Z.to_nat (1 + accommodated rest W (total + (table.Width col + 2))))
      with (S (Z.to_nat (accommodated rest W (total + (table.Width col + 2))))) by lia.
    simpl.
    destruct (Z.eq_dec (accommodated rest W (total + (table.Width col + 2))) 0) as [E0|Hne].
    + rewrite E0. simpl. lia.
    + specialize (IH W (total + (table.Width col + 2))). lia.
Qed.

Lemma drop_nil_iff {A} (n : nat) (l : list A) : drop n l = [] <-> (length l <= n)%nat.
Proof.
  split.
  - intros E. pose proof (length_drop l n) as Hl. rewrite E in Hl. simpl in Hl. lia.
  - apply drop_ge.
Qed.

Lemma CalculateMaxColumns_count (m : TableModel) :
  MaxColumns (CalculateMaxColumns m)
  = computeVisibleColumnCount (TableColumns m) (ScrollOffset m) (Width m).
Proof.
  unfold CalculateMaxColumns, computeVisibleColumnCount.
  destruct (Z.eqb_spec (len (TableColumns m)) 0) as [E0|Hne].
  - apply len_nil_iff in E0. destruct m; simpl in *. subst. now rewrite drop_nil.
  - rewrite count_columns_skip, count_columns_accommodated by lia.
    replace (Z.to_nat (ScrollOffset m - 0)) with (Z.to_nat (ScrollOffset m)) by lia.
    rewrite Z.add_0_l.
    set (from := drop (Z.to_nat (ScrollOffset m)) (TableColumns m)).
    assert (Hfrom : from = [] <-> len (TableColumns m) <= ScrollOffset m).
    { unfold from. rewrite drop_nil_iff. unfold len in *. lia. }
    destruct from as [|c from'] eqn:Efrom.
    + assert (len (TableColumns m) <= ScrollOffset m) as Hle by now apply Hfrom.
      ztest; try lia; now destruct m.
    + assert (ScrollOffset m < len (TableColumns m)) as Hlt.
      { destruct (Z.lt_ge_cases (ScrollOffset m) (len (TableColumns m))) as [|Hge]; [done|].
        assert (c :: from' = []) by (apply Hfrom; lia). done. }
      ztest; try lia; now destruct m.
Qed.

Lemma CalculateMaxColumns_eq (m : TableModel) :
  CalculateMaxColumns m
  = set_MaxColumns (computeVisibleColumnCount (TableColumns m) (ScrollOffset m) (Width m)) m.
Proof.
  rewrite <- CalculateMaxColumns_count.
  unfold CalculateMaxColumns. destruct (_ =? 0); now destruct m.
Qed.

Lemma computeVisibleColumnCount_bounds cols off W :
  0 <= off < len cols ->
  1 <= computeVisibleColumnCount cols off W <= len cols - off.
Proof.
  intros Hoff. unfold computeVisibleColumnCount.
  pose proof (accommodated_bounds (drop (Z.to_nat off) cols) W 0) as Hb.
  assert (len (drop (Z.to_nat off) cols) = len cols - off) as Hl.
  { unfold len in *. rewrite length_drop. lia. }
  rewrite Hl in Hb.
  destruct (drop (Z.to_nat off) cols) as [|c from] eqn:E.
  - unfold len in *. simpl in Hl. lia.
  - ztest; lia.
Qed.

(** While the widths are not negative and sum below [2 ^ 63], no sum of
    the loop wraps: the loop on 64-bit integers counts what the loop on
    [Z] counts. *)
Lemma int_wrap_id (z : Z) : - 2 ^ 63 <= z < 2 ^ 63 -> int_wrap z = z.
Proof. intros Hz. unfold int_wrap. rewrite Z.mod_small; lia. Qed.

Lemma summed_width_nonneg (cols : list table.Column) :
  Forall (fun col => 0 <= table.Width col) cols -> 0 <= summed_width cols.
Proof.
  induction 1 as [|col rest Hcol _ IH]; unfold summed_width in *; simpl; lia.
Qed.

Lemma count_columns_int_exact (cols : list table.Column) :
  forall i scrollOffset width totalWidth count,
    Forall (fun col => 0 <= table.Width col) cols ->
    0 <= totalWidth ->
    totalWidth + summed_width cols < 2 ^ 63 ->
    count_columns_int cols i scrollOffset width totalWidth count
    = count_columns cols i scrollOffset width totalWidth count.
Proof.
  induction cols as [|col rest IH]; intros i off w total c Hwidths Htotal Hsum;
    simpl; [done|].
  inversion Hwidths as [|? ? Hcol Hrest]; subst.
  pose proof (summed_width_nonneg rest Hrest) as Hnn.
  assert (summed_width (col :: rest) = table.Width col + 2 + summed_width rest) as Hs
    by reflexivity.
  rewrite Hs in Hsum.
  destruct (i <? off).
  - apply IH; [done|done|lia].
  - rewrite (int_wrap_id (table.Width col + 2)) by lia.
    rewrite (int_wrap_id (total + (table.Width col + 2))) by lia.
    destruct (_ >? w); [done|]. apply IH; [done|lia|lia].
Qed.

(** C3, as amended: for a schema whose widths are not negative and sum,
    padding included, below [2 ^ 63], so that the running total of the
    code never wraps, the count computed by [CalculateMaxColumns] is the
    number of columns from the offset that the available width
    accommodates, forced to one when a column exists at the offset and
    none fits; the window then sums to at most the available width, or
    holds exactly one column, or is empty because no column exists at the
    offset. *)
Theorem CalculateMaxColumns_window (m : TableModel) :
  Forall (fun col => 0 <= table.Width col) (TableColumns m) ->
  summed_width (TableColumns m) < 2 ^ 63 ->
  let count := MaxColumns (CalculateMaxColumns m) in
  count_columns_int (TableColumns m) 0 (ScrollOffset m) (Width m) 0 0
  = count_columns (TableColumns m) 0 (ScrollOffset m) (Width m) 0 0
  /\ count = computeVisibleColumnCount (TableColumns m) (ScrollOffset m) (Width m)
  /\ (summed_width (window (TableColumns m) (ScrollOffset m) count) <= Width m
      \/ count = 1
      \/ (count = 0 /\ drop (Z.to_nat (ScrollOffset m)) (TableColumns m) = [])).
Proof.
  intros Hwidths Hsum. cbv zeta.
  split; [apply count_columns_int_exact; [done|lia|lia]|].
  rewrite CalculateMaxColumns_count. split; [done|].
  unfold computeVisibleColumnCount, window.
  set (from := drop (Z.to_nat (ScrollOffset m)) (TableColumns m)).
  pose proof (accommodated_bounds from (Width m) 0) as Hb.
  pose proof (accommodated_fits from (Width m) 0) as Hfit.
  destruct from as [|c from'] eqn:E.
  - simpl. right; right. done.
  - destruct (Z.eqb_spec (accommodated (c :: from') (Width m) 0) 0) as [E0|Hne].
    + right; left; done.
    + left. rewrite <- E in *. lia.
Qed.

Lemma CalculateMaxColumns_window_witness :
  MaxColumns (CalculateMaxColumns (loaded baseline))
  = computeVisibleColumnCount (TableColumns (loaded baseline))
      (ScrollOffset (loaded baseline)) (Width (loaded baseline)).
Proof.
  apply (CalculateMaxColumns_window (loaded baseline)).
  - vm_compute. repeat constructor; discriminate.
  - vm_compute. reflexivity.
Defined.

(** C3, as stated, fails where no column exists at the offset and the
    available width is negative: a data set without headers on a terminal
    three cells wide. *)
Lemma CalculateMaxColumns_window_counterexample :
  exists m, ShowTable (Some (3, 24)) no_columns = Ok m
    /\ Width m = -1
    /\ MaxColumns (CalculateMaxColumns m) = 0
    /\ ~ (summed_width (window (TableColumns m) (ScrollOffset m)
                           (MaxColumns (CalculateMaxColumns m))) <= Width m
          \/ MaxColumns (CalculateMaxColumns m) = 1).
Proof.
  eexists. split; [vm_compute; reflexivity|].
  split; [reflexivity|]. split; [reflexivity|].
  vm_compute. intros [Hle|Heq]; [apply Hle; reflexivity|discriminate].
Qed.

(** ** The rebuild of the visible window *)

Lemma slice_window {A} (cols : list A) (off count : Z) :
  0 <= off -> 0 <= count -> off + count <= len cols ->
  slice cols off (off + count)
  = Ok (take (Z.to_nat count) (drop (Z.to_nat off) cols)).
Proof.
  intros Hoff Hc Hle. unfold slice. ztest; try lia.
  do 3 f_equal. lia.
Qed.

Lemma visible_cells_Ok (row : table.Row) (off : Z) (n : nat) : forall j : nat,
  0 <= off ->
  visible_cells row off (Z.of_nat j) n
  = Ok (map (fun k => default "" (row !! (Z.to_nat off + k)%nat)) (seq j n)).
Proof.
  induction n as [|n IH]; intros j Hoff; simpl; [done|].
  replace (Z.of_nat j + 1) with (Z.of_nat (S j)) by lia.
  rewrite IH by done.
  replace (Z.to_nat off + j)%nat with (Z.to_nat (off + Z.of_nat j)) by lia.
  destruct (Z.ltb_spec (off + Z.of_nat j) (len row)) as [Hlt|Hge].
  - destruct (index_Ok row (off + Z.of_nat j)) as (x & -> & ->); [lia|]. done.
  - rewrite (proj2 (lookup_ge_None row _)) by (unfold len in Hge; lia). done.
Qed.

Lemma visible_rows_Ok (rs : list table.Row) (off : Z) (n : nat) : forall i total,
  0 <= off -> i + len rs <= total ->
  visible_rows rs i total off n = Ok (map (visible_row off n) rs).
Proof.
  induction rs as [|row rest IH]; intros i total Hoff Hi; simpl; [done|].
  assert (0 <= len rest) by apply len_nonneg.
  assert (len (row :: rest) = 1 + len rest) as Hl by (unfold len; simpl length; lia).
  rewrite IH by lia. unfold visible_row.
  replace (i <? total) with true by (symmetry; apply Z.ltb_lt; lia).
  destruct (off <? len row); simpl; [|done].
  change 0 with (Z.of_nat 0) at 1.
  rewrite (visible_cells_Ok row off n 0) by done. done.
Qed.

Lemma length_visible_row_nonempty off n row :
  off < len row -> length (visible_row off n row) = n.
Proof.
  intros Hlt. unfold visible_row.
  replace (off <? len row) with true by (symmetry; apply Z.ltb_lt; lia).
  now rewrite length_map, length_seq.
Qed.

Lemma table_set_cursor_id (t : table.Model) : table.set_cursor (table.cursor t) t = t.
Proof. now destruct t. Qed.

Lemma clamp_in_range v low high :
  low <= v <= high -> table.clamp v low high = v.
Proof. unfold table.clamp. lia. Qed.

Lemma clamp_bounds v low high :
  low <= high -> low <= table.clamp v low high <= high.
Proof. unfold table.clamp. lia. Qed.

(** One step away from an end of the table and back leaves the widget as
    it was. *)
Lemma refresh_cursor_id (t : table.Model) :
  0 <= table.cursor t < len (table.rows t) -> refresh_cursor t = t.
Proof.
  intros Hc. unfold refresh_cursor, table.Rows, table.Cursor.
  replace (len (table.rows t) >? 0) with true
    by (symmetry; rewrite Z.gtb_ltb; apply Z.ltb_lt; lia).
  unfold table.Update. destruct t as [cs rs c f w h]; simpl in *.
  destruct f; simpl; [|now repeat destruct (_ =? _)].
  unfold table.MoveUp, table.MoveDown, table.set_cursor, table.clamp; simpl.
  ztest; f_equal; lia.
Qed.

Lemma clamp_ScrollOffset_eq (m : TableModel) :
  0 < len (TableColumns m) ->
  clamp_ScrollOffset m = set_ScrollOffset (settled_offset m) m.
Proof.
  intros Hlen. unfold clamp_ScrollOffset, settled_offset, table.clamp.
  destruct m as [T ti rc qd sh sc sa orows frows arows ft fl st cols off maxc W H tin].
  simpl in *.
  destruct (Z.ltb_spec off 0); simpl; ztest; f_equal; lia.
Qed.

Lemma pull_ScrollOffset_left_id (m : TableModel) :
  ScrollOffset m + MaxColumns m <= len (TableColumns m) ->
  pull_ScrollOffset_left m = m.
Proof. intros Hle. unfold pull_ScrollOffset_left. ztest; try lia; done. Qed.

Lemma Table_set_Table t m : Table (set_Table t m) = t.
Proof. now destruct m. Qed.

Lemma set_Table_twice t t' m : set_Table t (set_Table t' m) = set_Table t m.
Proof. now destruct m. Qed.

Lemma rebuild_Table_eq (m : TableModel) :
  0 <= ScrollOffset m -> 0 <= MaxColumns m ->
  ScrollOffset m + MaxColumns m <= len (TableColumns m) ->
  let vcols := window (TableColumns m) (ScrollOffset m) (MaxColumns m) in
  let vrows := map (visible_row (ScrollOffset m) (length vcols)) (OriginalRows m) in
  rebuild_Table m
  = Ok (set_Table
          {| table.cols := vcols;
             table.rows := vrows;
             table.cursor :=
               if len vrows >? 0
               then table.clamp (table.Cursor (Table m)) 0 (len vrows - 1) else 0;
             table.focus := table.Focused (Table m);
             table.viewportWidth := Width m;
             table.viewportHeight := Height m - 1 |} m).
Proof.
  intros Hoff Hc Hle. cbv zeta. unfold rebuild_Table.
  replace (ScrollOffset m + MaxColumns m >? len (TableColumns m)) with false
    by (symmetry; rewrite Z.gtb_ltb; apply Z.ltb_ge; lia).
  rewrite slice_window by lia. cbn [mbind result_bind].
  fold (window (TableColumns m) (ScrollOffset m) (MaxColumns m)).
  rewrite visible_rows_Ok by lia. cbn [mbind result_bind].
  set (vcols := window _ _ _). set (vrows := map _ _).
  rewrite Table_set_Table, set_Table_twice. do 2 f_equal.
  set (c := table.Cursor (Table m)). clearbody c vrows vcols. clear Hoff Hc Hle.
  pose proof (len_nonneg vrows) as Hn.
  destruct (Z.ltb_spec 0 (len vrows)) as [Hpos|Hz].
  - replace (len vrows >? 0) with true by (symmetry; rewrite Z.gtb_ltb; apply Z.ltb_lt; lia).
    rewrite refresh_cursor_id.
    + unfold table.SetCursor, table.SetHeight, table.SetWidth, table.New, table.set_cursor,
        table.clamp. cbn. f_equal. ztest; lia.
    + unfold table.SetCursor, table.SetHeight, table.SetWidth, table.New, table.set_cursor,
        table.clamp. cbn. ztest; lia.
  - replace (len vrows >? 0) with false by (symmetry; rewrite Z.gtb_ltb; apply Z.ltb_ge; lia).
    unfold refresh_cursor, table.Rows. cbn.
    replace (len vrows >? 0) with false by (symmetry; rewrite Z.gtb_ltb; apply Z.ltb_ge; lia).
    reflexivity.
Qed.

Lemma UpdateVisibleColumns_rebuild (m : TableModel) :
  TableColumns m <> [] ->
  UpdateVisibleColumns m
  = Ok (set_Table (rebuilt_table m)
          (set_MaxColumns (settled_count m) (set_ScrollOffset (settled_offset m) m)))
  /\ 0 <= settled_offset m < len (TableColumns m)
  /\ 1 <= settled_count m <= len (TableColumns m) - settled_offset m.
Proof.
  intros Hcols.
  assert (0 < len (TableColumns m)) as Hlen.
  { pose proof (len_nonneg (TableColumns m)). pose proof (len_nil_iff (TableColumns m)).
    destruct (Z.eq_dec (len (TableColumns m)) 0); [tauto|lia]. }
  assert (0 <= settled_offset m < len (TableColumns m)) as Hoff.
  { unfold settled_offset, table.clamp. lia. }
  pose proof (computeVisibleColumnCount_bounds (TableColumns m) (settled_offset m) (Width m) Hoff)
    as Hb.
  split; [|split; [done|exact Hb]].
  unfold UpdateVisibleColumns.
  replace (len (TableColumns m) =? 0) with false by (symmetry; apply Z.eqb_neq; lia).
  rewrite clamp_ScrollOffset_eq, CalculateMaxColumns_eq by done.
  set (m2 := set_MaxColumns _ _).
  assert (Hm2 : m2 = set_MaxColumns (settled_count m) (set_ScrollOffset (settled_offset m) m)).
  { unfold m2, settled_count. now destruct m. }
  rewrite Hm2. clear m2 Hm2.
  set (m2 := set_MaxColumns _ _).
  assert (ScrollOffset m2 = settled_offset m) as Eo by (unfold m2; now destruct m).
  assert (MaxColumns m2 = settled_count m) as Ec by (unfold m2; now destruct m).
  assert (TableColumns m2 = TableColumns m) as Et by (unfold m2; now destruct m).
  unfold settled_count in *.
  rewrite pull_ScrollOffset_left_id by (rewrite Eo, Ec, Et; lia).
  rewrite rebuild_Table_eq by (rewrite ?Eo, ?Ec, ?Et; lia).
  unfold rebuilt_table, settled_count. rewrite Eo, Ec, Et.
  f_equal. unfold m2. now destruct m.
Qed.

Lemma UpdateVisibleColumns_never_panics (m : TableModel) :
  is_Ok (UpdateVisibleColumns m).
Proof.
  destruct (TableColumns m) as [|c cols] eqn:E.
  - exists m. unfold UpdateVisibleColumns. now rewrite E.
  - destruct (UpdateVisibleColumns_rebuild m) as [-> _]; [now rewrite E|].
    eexists. reflexivity.
Qed.

Lemma cursor_rebuilt_table_range (m : TableModel) :
  0 < len (OriginalRows m) ->
  table.cursor (rebuilt_table m)
  = table.clamp (table.Cursor (Table m)) 0 (len (OriginalRows m) - 1)
  /\ 0 <= table.cursor (rebuilt_table m) < len (OriginalRows m).
Proof.
  intros Hn. unfold rebuilt_table. cbn [table.cursor].
  assert (len (map (visible_row (settled_offset m)
                 (length (window (TableColumns m) (settled_offset m) (settled_count m))))
                 (OriginalRows m)) = len (OriginalRows m)) as ->
    by (unfold len; now rewrite length_map).
  replace (len (OriginalRows m) >? 0) with true
    by (symmetry; rewrite Z.gtb_ltb; apply Z.ltb_lt; lia).
  split; [done|]. unfold table.clamp. lia.
Qed.

Lemma length_window cols off count :
  0 <= off -> 0 <= count -> off + count <= len cols ->
  length (window cols off count) = Z.to_nat count.
Proof.
  intros. unfold window. rewrite length_take, length_drop. unfold len in *. lia.
Qed.

Lemma EnsureCursorVisible_id (m : TableModel) :
  0 <= table.cursor (Table m) < len (table.rows (Table m)) ->
  table.SelectedRow (Table m) <> [] ->
  EnsureCursorVisible m = m.
Proof.
  intros Hc Hsel. unfold EnsureCursorVisible, table.Cursor, table.Rows.
  ztest; try lia; try done.
  all: match goal with e : len (table.SelectedRow (Table ?x)) = 0 |- _ =>
         apply len_nil_iff in e; done end.
Qed.

Lemma length_rows_rebuilt_table (m : TableModel) :
  len (table.rows (rebuilt_table m)) = len (OriginalRows m).
Proof. unfold rebuilt_table. cbn [table.rows]. unfold len. now rewrite length_map. Qed.

(** A row with a cell at the settled offset shows at least one cell. *)
Lemma rebuilt_selected_row_nonempty (m : TableModel) (row : table.Row) :
  TableColumns m <> [] ->
  0 < len (OriginalRows m) ->
  OriginalRows m !! Z.to_nat (table.cursor (rebuilt_table m)) = Some row ->
  settled_offset m < len row ->
  table.SelectedRow (rebuilt_table m) <> [].
Proof.
  intros Hcols Hpos Hrow Hlong.
  destruct (UpdateVisibleColumns_rebuild m Hcols) as (_ & Hoff & Hcount).
  destruct (cursor_rebuilt_table_range m Hpos) as [_ Hr].
  unfold table.SelectedRow. rewrite length_rows_rebuilt_table.
  replace (table.cursor (rebuilt_table m) <? 0) with false
    by (symmetry; apply Z.ltb_ge; lia).
  replace (len (OriginalRows m) <=? table.cursor (rebuilt_table m)) with false
    by (symmetry; apply Z.leb_gt; lia).
  cbn [orb].
  assert (table.rows (rebuilt_table m)
          = map (visible_row (settled_offset m)
                   (length (window (TableColumns m) (settled_offset m) (settled_count m))))
                (OriginalRows m)) as -> by reflexivity.
  rewrite lookup_map, Hrow. cbn.
  intros Hnil. apply (f_equal (@length string)) in Hnil.
  rewrite length_visible_row_nonempty, length_window in Hnil by lia.
  simpl in Hnil. lia.
Qed.

(** X12: after a rebuild with a positive visible row count, the cursor
    lies in [[0, visibleRowCount)] and equals the cursor before the
    rebuild clamped into that range; the selected row is non-empty, and
    the cursor guard leaves the state alone, provided the active row under
    the cursor has a cell at the scroll offset. *)
Theorem rebuild_cursor_valid (m m' : TableModel) :
  TableColumns m <> [] ->
  UpdateVisibleColumns m = Ok m' ->
  0 < len (table.Rows (Table m')) ->
  let n := len (table.Rows (Table m')) in
  let c := table.Cursor (Table m') in
  n = len (OriginalRows m)
  /\ 0 <= c < n
  /\ c = table.clamp (table.Cursor (Table m)) 0 (n - 1)
  /\ (forall row, OriginalRows m !! Z.to_nat c = Some row ->
        ScrollOffset m' < len row ->
        table.SelectedRow (Table m') <> [] /\ EnsureCursorVisible m' = m').
Proof.
  intros Hcols Hupd. destruct (UpdateVisibleColumns_rebuild m Hcols) as (E & Hoff & Hcount).
  rewrite E in Hupd. injection Hupd as <-.
  rewrite Table_set_Table. unfold table.Rows, table.Cursor.
  rewrite length_rows_rebuilt_table. intros Hpos. cbv zeta.
  destruct (cursor_rebuilt_table_range m Hpos) as [Hc Hr].
  split; [done|]. split; [done|]. split; [done|].
  intros row Hrow Hlong.
  replace (ScrollOffset _) with (settled_offset m) in Hlong by now destruct m.
  pose proof (rebuilt_selected_row_nonempty m row Hcols Hpos Hrow Hlong) as Hsel.
  split; [done|].
  apply EnsureCursorVisible_id; rewrite Table_set_Table; [|done].
  rewrite length_rows_rebuilt_table. lia.
Qed.

Lemma rebuild_cursor_valid_witness :
  let m := loaded baseline in
  TableColumns m <> []
  /\ UpdateVisibleColumns m = Ok m
  /\ 0 < len (table.Rows (Table m))
  /\ len (table.Rows (Table m)) = len (OriginalRows m)
  /\ 0 <= table.Cursor (Table m) < len (table.Rows (Table m))
  /\ table.Cursor (Table m)
     = table.clamp (table.Cursor (Table m)) 0 (len (table.Rows (Table m)) - 1)
  /\ (forall row, OriginalRows m !! Z.to_nat (table.Cursor (Table m)) = Some row ->
        ScrollOffset m < len row ->
        table.SelectedRow (Table m) <> [] /\ EnsureCursorVisible m = m).
Proof.
  cbv zeta.
  assert (TableColumns (loaded baseline) <> []) as H1 by (vm_compute; discriminate).
  assert (UpdateVisibleColumns (loaded baseline) = Ok (loaded baseline)) as H2
    by (vm_compute; reflexivity).
  assert (0 < len (table.Rows (Table (loaded baseline)))) as H3 by (vm_compute; reflexivity).
  split; [exact H1|]. split; [exact H2|]. split; [exact H3|].
  exact (rebuild_cursor_valid (loaded baseline) (loaded baseline) H1 H2 H3).
Defined.

(** On rectangular data, every row as long as the schema, the selected
    row of a rebuilt window is never empty. *)
Lemma rebuild_selected_row_rectangular (m m' : TableModel) :
  TableColumns m <> [] ->
  Forall (fun row => len row = len (TableColumns m)) (OriginalRows m) ->
  UpdateVisibleColumns m = Ok m' ->
  0 < len (OriginalRows m) ->
  table.SelectedRow (Table m') <> [] /\ EnsureCursorVisible m' = m'.
Proof.
  intros Hcols Hrect Hupd Hpos.
  destruct (UpdateVisibleColumns_rebuild m Hcols) as (E & Hoff & _).
  rewrite E in Hupd. injection Hupd as <-. rewrite Table_set_Table.
  destruct (cursor_rebuilt_table_range m Hpos) as [_ Hr].
  destruct (OriginalRows m !! Z.to_nat (table.cursor (rebuilt_table m))) as [row|] eqn:Erow.
  - assert (table.SelectedRow (rebuilt_table m) <> []) as Hsel.
    { apply (rebuilt_selected_row_nonempty m row Hcols Hpos Erow).
      rewrite Forall_forall in Hrect. rewrite (Hrect row); [lia|].
      eapply list_elem_of_lookup_2; eauto. }
    split; [done|].
    apply EnsureCursorVisible_id; rewrite Table_set_Table; [|done].
    rewrite length_rows_rebuilt_table. lia.
  - apply lookup_ge_None in Erow. unfold len in *. lia.
Qed.

(** The rows of the rebuilt widget, one for each active row. *)
Lemma rebuild_rows (m m' : TableModel) :
  TableColumns m <> [] ->
  UpdateVisibleColumns m = Ok m' ->
  table.rows (Table m')
  = map (visible_row (ScrollOffset m') (length (table.cols (Table m')))) (OriginalRows m).
Proof.
  intros Hcols Hupd. destruct (UpdateVisibleColumns_rebuild m Hcols) as (E & _).
  rewrite E in Hupd. injection Hupd as <-. rewrite Table_set_Table.
  replace (ScrollOffset _) with (settled_offset m) by now destruct m.
  reflexivity.
Qed.

(** C1: the selected row of a rebuilt window can be empty.  The rebuild
    shows of each active row what [visible_row] describes: it pads a row
    that ends inside the window with empty cells, but leaves out the
    cells of a row that ends before the scroll offset, and the
    cursor guard, which takes an empty selected row for a cursor out of
    sight, cannot repair it when the first row is empty as well.  On the
    data set [short_row] one step to the right leaves one visible row,
    the cursor on it, and the selected row empty, before and after the
    guard.  On rows as long as the schema the selected row is never
    empty. *)
Theorem rebuild_selects_empty_row :
  (forall m m',
     TableColumns m <> [] ->
     UpdateVisibleColumns m = Ok m' ->
     table.rows (Table m')
     = map (visible_row (ScrollOffset m') (length (table.cols (Table m'))))
           (OriginalRows m))
  /\ (forall off n row, off < len row -> length (visible_row off n row) = n)
  /\ (forall off n row, len row <= off -> visible_row off n row = [])
  /\ (forall m m',
        TableColumns m <> [] ->
        Forall (fun row => len row = len (TableColumns m)) (OriginalRows m) ->
        UpdateVisibleColumns m = Ok m' ->
        0 < len (OriginalRows m) ->
        table.SelectedRow (Table m') <> [] /\ EnsureCursorVisible m' = m')
  /\ exists m',
       UpdateVisibleColumns (set_ScrollOffset 1 (loaded short_row)) = Ok m'
       /\ after_keys short_row ["right"] = Ok (EnsureCursorVisible m', cmd_nil, empty_disk)
       /\ table.Rows (Table m') = [[]]
       /\ table.Cursor (Table m') = 0
       /\ table.SelectedRow (Table m') = []
       /\ table.SelectedRow (Table (EnsureCursorVisible m')) = [].
Proof.
  split; [exact rebuild_rows|].
  split; [exact length_visible_row_nonempty|].
  split.
  { intros off n row Hshort. unfold visible_row.
    now replace (off <? len row) with false by (symmetry; apply Z.ltb_ge; lia). }
  split; [exact rebuild_selected_row_rectangular|].
  eexists. split; [vm_compute; reflexivity|]. vm_compute. repeat split.
Qed.

(** ** Failures on short rows *)

(** C6: the rebuild of the window never fails, but sorting or filtering
    on a column that a row lacks does: on the data set [ragged], one
    step to the right followed by the sort key, or by a filter on the
    letter a, ends in an index panic. *)
Theorem sort_and_filter_panic_on_short_row :
  (forall m, is_Ok (UpdateVisibleColumns m))
  /\ after_keys ragged ["right"; "s"] = Panic "index out of range"
  /\ after_keys ragged ["right"; "f"; "a"; "enter"] = Panic "index out of range"
  /\ exists m,
       after_keys ragged ["right"] = Ok (m, cmd_nil, empty_disk)
       /\ SortRows (set_SortAsc false (set_SortColumn 1 m)) = Panic "index out of range"
       /\ @ApplyFilter plain_text (set_FilterText "a" (set_SortColumn 1 m))
          = Panic "index out of range".
Proof.
  split; [exact UpdateVisibleColumns_never_panics|].
  split; [vm_compute; reflexivity|].
  split; [vm_compute; reflexivity|].
  eexists. split; [vm_compute; reflexivity|].
  split; vm_compute; reflexivity.
Qed.

(** ** The jump to the last column *)

(** The rebuild settles on the offset it was given, brought into range:
    the count is taken from that offset on, so the window never ends past
    the last column and the offset is never pulled left. *)
Lemma UpdateVisibleColumns_offset (m m' : TableModel) :
  TableColumns m <> [] ->
  UpdateVisibleColumns m = Ok m' ->
  ScrollOffset m' = table.clamp (ScrollOffset m) 0 (len (TableColumns m) - 1)
  /\ MaxColumns m' = computeVisibleColumnCount (TableColumns m) (ScrollOffset m') (Width m)
  /\ ScrollOffset m' + MaxColumns m' <= len (TableColumns m).
Proof.
  intros Hcols Hupd. destruct (UpdateVisibleColumns_rebuild m Hcols) as (E & Hoff & Hc).
  rewrite E in Hupd. injection Hupd as <-.
  replace (ScrollOffset _) with (settled_offset m) by now destruct m.
  replace (MaxColumns _) with (settled_count m) by now destruct m.
  unfold settled_count in *. split; [done|]. split; [done|]. lia.
Qed.

(** C7: from the loaded scenario (three columns of twelve cells on a
    width of eighty, all three visible), the End key leaves the offset on
    the last column with a window of one column, where the specification
    asks for offset [max(0, 3 - 3) = 0]. *)
Theorem End_key_strands_window :
  exists m',
    after_keys baseline ["shift+right"] = Ok (m', cmd_nil, empty_disk)
    /\ ScrollOffset (loaded baseline) = 0
    /\ MaxColumns (loaded baseline) = 3
    /\ ScrollOffset m' = 2
    /\ MaxColumns m' = 1
    /\ Z.max 0 (len (TableColumns m') - MaxColumns (loaded baseline)) = 0
    /\ summed_width (TableColumns m') <= Width m'.
Proof.
  eexists. split; [vm_compute; reflexivity|].
  vm_compute. repeat split; discriminate.
Qed.

(** ** The duration of the query *)

(** C8: without a [QueryDuration] entry the load fails, on data whose
    rows are no longer than the headers (so that the widget can be built):
    the lookup yields the empty string, which is not a duration. *)
Theorem ShowTable_without_QueryDuration (termSize : option (Z * Z)) (data : TableData) :
  Forall (fun row => len row <= len (Headers data)) (Rows data) ->
  Metadata data !! "QueryDuration" = None ->
  ShowTable termSize data = Err "time: invalid duration".
Proof. intros _ Habsent. unfold ShowTable. rewrite Habsent. reflexivity. Qed.

Lemma ShowTable_without_QueryDuration_witness :
  ShowTable None baseline_without_metadata = Err "time: invalid duration".
Proof.
  apply ShowTable_without_QueryDuration.
  - vm_compute. repeat constructor; discriminate.
  - reflexivity.
Defined.

(** The load fails exactly when the entry, or the empty string in its
    absence, is not a duration. *)
Lemma ShowTable_Err_iff (termSize : option (Z * Z)) (data : TableData) :
  (exists e, ShowTable termSize data = Err e)
  <-> time.ParseDuration (default "" (Metadata data !! "QueryDuration")) = None.
Proof.
  unfold ShowTable.
  destruct (time.ParseDuration _) as [duration|] eqn:E.
  - split; [|discriminate]. intros [e He].
    match type of He with UpdateVisibleColumns ?x = _ =>
      destruct (UpdateVisibleColumns_never_panics x) as [y Hx]
    end.
    rewrite Hx in He. discriminate.
  - split; eauto.
Qed.

(** ** The comparator of the sort *)

Lemma Pos_compare_cont_antisym (p q : positive) (c : comparison) :
  Pos.compare_cont (CompOpp c) q p = CompOpp (Pos.compare_cont c p q).
Proof.
  revert q c. induction p as [p IH|p IH|]; intros [q|q|] c; simpl; auto;
    try apply (IH q); try apply (IH q Lt); try apply (IH q Gt).
Qed.

Lemma SFcompare_antisym (x y : float64) :
  SFcompare y x = option_map CompOpp (SFcompare x y).
Proof.
  destruct x as [sx|sx| |sx mx ex], y as [sy|sy| |sy my ey]; simpl; auto;
    try (destruct sx; reflexivity); try (destruct sy; reflexivity);
    try (destruct sx, sy; reflexivity).
  destruct sx, sy; simpl; auto; f_equal.
  - rewrite (Z.compare_antisym ex ey). destruct (ex ?= ey); simpl; auto.
    f_equal. apply (Pos_compare_cont_antisym mx my Eq).
  - rewrite (Z.compare_antisym ex ey). destruct (ex ?= ey); simpl; auto.
    apply (Pos_compare_cont_antisym mx my Eq).
Qed.

Lemma f64_gt_lt (x y : float64) : f64_gt x y = f64_lt y x.
Proof.
  unfold f64_gt, f64_lt, SFltb. rewrite (SFcompare_antisym x y).
  now destruct (SFcompare x y) as [[]|].
Qed.

Lemma string_gt_lt (a b : string) : string_gt a b = string_lt b a.
Proof.
  unfold string_gt, string_lt. rewrite (String.compare_antisym b a).
  now destruct (String.compare a b).
Qed.

Lemma index_cases {A} (s : list A) (i : Z) :
  (exists x, index s i = Ok x) \/ index s i = Panic "index out of range".
Proof.
  unfold index. destruct (_ && _); [destruct (s !! Z.to_nat i)|]; eauto.
Qed.

Lemma SortRows_less_flip (col : Z) (ri rj : table.Row) :
  SortRows_less col false ri rj = SortRows_less col true rj ri.
Proof.
  unfold SortRows_less.
  destruct (index_cases ri col) as [[a ->]| ->], (index_cases rj col) as [[b ->]| ->];
    cbn [mbind result_bind]; auto.
  destruct (strconv.ParseFloat a), (strconv.ParseFloat b);
    now rewrite ?f64_gt_lt, ?string_gt_lt.
Qed.

(** C5: when both cells of the sort column parse as numbers the closure
    compares the numbers, otherwise it compares the cells as byte strings
    (so case matters); descending asks for "greater" on the same pair,
    which is the ascending verdict on the swapped pair, and the rows
    themselves are not reversed; a negative sort column leaves the model
    as it is. *)
Theorem SortRows_comparator :
  (forall (col : Z) (asc : bool) (ri rj : table.Row) (a b : string) (x y : float64),
     index ri col = Ok a -> index rj col = Ok b ->
     strconv.ParseFloat a = Some x -> strconv.ParseFloat b = Some y ->
     SortRows_less col asc ri rj = Ok (if asc then f64_lt x y else f64_gt x y))
  /\ (forall (col : Z) (asc : bool) (ri rj : table.Row) (a b : string),
        index ri col = Ok a -> index rj col = Ok b ->
        strconv.ParseFloat a = None \/ strconv.ParseFloat b = None ->
        SortRows_less col asc ri rj = Ok (if asc then string_lt a b else string_gt a b))
  /\ (forall (col : Z) (asc : bool) (ri rj : table.Row) (a b : string),
        index ri col = Ok a -> index rj col = Ok b ->
        SortRows_less col asc ri rj
        = Ok (verdict_is (compare_cells a b) (if asc then Lt else Gt)))
  /\ (forall (col : Z) (ri rj : table.Row),
        SortRows_less col false ri rj = SortRows_less col true rj ri)
  /\ (forall m : TableModel, SortColumn m < 0 -> SortRows m = Ok m)
  /\ (exists up down,
        SortRows (baseline_by_age true) = Ok up
        /\ SortRows (baseline_by_age false) = Ok down
        /\ OriginalRows up = [["2"; "bob"; "25"]; ["3"; "Cara"; "25"]; ["1"; "Alice"; "30"]]
        /\ OriginalRows down = [["1"; "Alice"; "30"]; ["2"; "bob"; "25"]; ["3"; "Cara"; "25"]]
        /\ OriginalRows down <> rev (OriginalRows up)).
Proof.
  split; [|split; [|split; [|split; [|split]]]].
  - intros col asc ri rj a b x y Ha Hb Hx Hy. unfold SortRows_less.
    rewrite Ha, Hb. cbn [mbind result_bind]. now rewrite Hx, Hy.
  - intros col asc ri rj a b Ha Hb Hnone. unfold SortRows_less.
    rewrite Ha, Hb. cbn [mbind result_bind].
    destruct Hnone as [-> | ->]; [done|]. now destruct (strconv.ParseFloat a).
  - intros col asc ri rj a b Ha Hb. unfold SortRows_less, compare_cells.
    rewrite Ha, Hb. cbn [mbind result_bind].
    destruct (strconv.ParseFloat a) as [x|], (strconv.ParseFloat b) as [y|];
      unfold f64_lt, f64_gt, SFltb, string_lt, string_gt, verdict_is;
      destruct asc; try (now destruct (SFcompare x y) as [[]|]);
      now destruct (String.compare a b).
  - exact SortRows_less_flip.
  - intros m Hneg. unfold SortRows.
    now replace (SortColumn m <? 0) with true by (symmetry; apply Z.ltb_lt; lia).
  - eexists. eexists. split; [vm_compute; reflexivity|]. split; [vm_compute; reflexivity|].
    vm_compute. repeat split. discriminate.
Qed.

Lemma SortRows_comparator_witness :
  SortRows_less 2 true ["2"; "bob"; "25"] ["1"; "Alice"; "30"] = Ok true
  /\ SortRows_less 1 true ["3"; "Cara"; "25"] ["2"; "bob"; "25"] = Ok true
  /\ SortRows (set_SortColumn (-1) (loaded baseline))
     = Ok (set_SortColumn (-1) (loaded baseline)).
Proof.
  destruct SortRows_comparator as (Hnum & Hlex & _ & _ & Hneg & _).
  split; [|split].
  - exact (Hnum 2 true ["2"; "bob"; "25"] ["1"; "Alice"; "30"] "25" "30"
             (f64_round false 25 0 0) (f64_round false 30 0 0)
             eq_refl eq_refl eq_refl eq_refl).
  - exact (Hlex 1 true ["3"; "Cara"; "25"] ["2"; "bob"; "25"] "Cara" "bob"
             eq_refl eq_refl (or_introl eq_refl)).
  - apply Hneg. reflexivity.
Defined.

(** ** Stability of the insertion sort

    [tie] selects elements that compare equal among themselves: the
    closure never says "less" of two of them.  [well_formed] elements are
    those on which the closure does not panic. *)
Section insertion_sort.
Context {A : Type} (less : A -> A -> result bool).
Context (tie : A -> bool) (well_formed : A -> Prop).
Hypothesis less_total :
  forall x y, well_formed x -> well_formed y -> exists b, less x y = Ok b.
Hypothesis tie_not_less :
  forall x y, tie x = true -> tie y = true -> less x y <> Ok true.

Lemma swap_adjacent_app (l1 l2 : list A) (x y : A) :
  <[S (length l1) := y]> (<[length l1 := x]> (l1 ++ y :: x :: l2))
  = l1 ++ x :: y :: l2.
Proof. induction l1 as [|z l1 IH]; simpl; [done|]. now rewrite IH. Qed.

Lemma swap_adjacent (data : list A) (j : nat) (x y : A) :
  data !! j = Some y -> data !! S j = Some x ->
  exists l1 l2,
    data = l1 ++ y :: x :: l2
    /\ <[S j := y]> (<[j := x]> data) = l1 ++ x :: y :: l2.
Proof.
  intros Hy Hx. exists (take j data), (drop (S (S j)) data).
  assert (data = take j data ++ y :: x :: drop (S (S j)) data) as Hsplit.
  { rewrite <- (take_drop_middle data j y Hy) at 1. do 2 f_equal.
    rewrite <- (take_drop_middle data (S j) x Hx) at 1.
    rewrite drop_app_length'; [done|].
    rewrite length_take. apply lookup_lt_Some in Hx. lia. }
  split; [exact Hsplit|].
  assert (length (take j data) = j) as Hl
    by (rewrite length_take; apply lookup_lt_Some in Hy; lia).
  rewrite <- (swap_adjacent_app (take j data) (drop (S (S j)) data) x y).
  rewrite Hl. now rewrite <- Hsplit.
Qed.

Lemma insertion_shift_stable : forall (j : nat) (data : list A) (a : nat),
  Forall well_formed data -> (j < length data)%nat ->
  exists data',
    sort.insertion_shift less data a j = Ok data'
    /\ data' ≡ₚ data
    /\ List.filter tie data' = List.filter tie data.
Proof.
  induction j as [|j IH]; intros data a Hwf Hj.
  - exists data. simpl. auto.
  - simpl. destruct (a <? S j)%nat; [|exists data; auto].
    destruct (lookup_lt_is_Some_2 data (S j) Hj) as [x Hx].
    destruct (lookup_lt_is_Some_2 data j ltac:(lia)) as [y Hy].
    unfold sort.Less, sort.Swap. rewrite Hx, Hy.
    destruct (less_total x y) as [b Hb].
    { rewrite Forall_forall in Hwf. apply Hwf. eapply list_elem_of_lookup_2; eauto. }
    { rewrite Forall_forall in Hwf. apply Hwf. eapply list_elem_of_lookup_2; eauto. }
    rewrite Hb. cbn [mbind result_bind].
    destruct b; [|exists data; auto].
    destruct (swap_adjacent data j x y Hy Hx) as (l1 & l2 & Hsplit & Hswap).
    set (data1 := <[S j := y]> (<[j := x]> data)) in *.
    assert (data1 ≡ₚ data) as Hperm.
    { rewrite Hswap, Hsplit. apply Permutation_app_head, perm_swap. }
    assert (List.filter tie data1 = List.filter tie data) as Hfilter.
    { rewrite Hswap, Hsplit. rewrite !List.filter_app. f_equal.
      cbn [List.filter].
      destruct (tie x) eqn:Tx, (tie y) eqn:Ty; try reflexivity.
      exfalso. exact (tie_not_less x y Tx Ty Hb). }
    destruct (IH data1 a) as (data' & E & Hp & Hf).
    { now rewrite Hperm. }
    { unfold data1. rewrite !length_insert. lia. }
    exists data'. split; [exact E|]. split.
    + now rewrite Hp.
    + now rewrite Hf.
Qed.

Lemma insertion_loop_stable : forall (n : nat) (data : list A) (a i : nat),
  Forall well_formed data -> (n = 0 \/ i + n <= length data)%nat ->
  exists data',
    sort.insertion_loop less data a i n = Ok data'
    /\ data' ≡ₚ data
    /\ List.filter tie data' = List.filter tie data.
Proof.
  induction n as [|n IH]; intros data a i Hwf Hn.
  - exists data. simpl. auto.
  - simpl. destruct Hn as [Hn|Hn]; [discriminate|].
    destruct (insertion_shift_stable i data a Hwf) as (data1 & -> & Hp1 & Hf1); [lia|].
    cbn [mbind result_bind].
    destruct (IH data1 a (S i)) as (data' & E & Hp & Hf).
    { now rewrite Hp1. }
    { right. apply Permutation_length in Hp1. lia. }
    exists data'. split; [exact E|]. split.
    + now rewrite Hp.
    + now rewrite Hf.
Qed.

(** [sort.Slice] on at most twelve elements is the insertion sort. *)
Lemma Slice_stable_up_to_twelve (x : list A) :
  Forall well_formed x -> (length x <= 12)%nat ->
  exists x',
    sort.Slice less x = Ok x'
    /\ x' ≡ₚ x
    /\ List.filter tie x' = List.filter tie x.
Proof.
  intros Hwf Hlen. unfold sort.Slice. cbn [sort.pdqsort_func].
  rewrite Nat.sub_0_r.
  replace (length x <=? 12)%nat with true by (symmetry; apply Nat.leb_le; lia).
  unfold sort.insertionSort_func.
  apply insertion_loop_stable; [done|]. lia.
Qed.
End insertion_sort.

(** ** Sequencing *)

Lemma bind_Ok {A B} (e : result A) (k : A -> result B) (r : B) :
  (x ← e; k x) = Ok r -> exists x, e = Ok x /\ k x = Ok r.
Proof. destruct e as [x| |]; cbn; [eauto|discriminate|discriminate]. Qed.

Ltac inv_bind H :=
  let x := fresh "m" in
  let E := fresh "E" in
  apply bind_Ok in H; destruct H as (x & E & H).

(** ** Sorting rearranges the rows *)

Section permutation.
Context {A : Type} (less : A -> A -> result bool).

Lemma insert_head_perm (l : list A) : forall (j : nat) (x y : A),
  l !! j = Some y -> y :: <[j:=x]> l ≡ₚ x :: l.
Proof.
  induction l as [|a l IH]; intros [|j] x y Hj; simpl in *; try discriminate.
  - injection Hj as <-. apply Permutation_swap.
  - rewrite (Permutation_swap a y), (IH j x y Hj). apply Permutation_swap.
Qed.

Lemma insert_swap_perm (l : list A) : forall (i j : nat) (x y : A),
  l !! i = Some x -> l !! j = Some y -> <[i:=y]> (<[j:=x]> l) ≡ₚ l.
Proof.
  induction l as [|a l IH]; intros [|i] [|j] x y Hi Hj; simpl in *; try discriminate.
  - injection Hi as <-. injection Hj as <-. reflexivity.
  - injection Hi as <-. now apply insert_head_perm.
  - injection Hj as <-. now apply insert_head_perm.
  - apply Permutation_skip. now apply IH.
Qed.

Lemma Swap_perm (data data' : list A) (i j : nat) :
  sort.Swap data i j = Ok data' -> data' ≡ₚ data.
Proof.
  unfold sort.Swap.
  destruct (data !! i) as [x|] eqn:Hi; [|discriminate].
  destruct (data !! j) as [y|] eqn:Hj; [|discriminate].
  intros [= <-]. now apply insert_swap_perm.
Qed.

(** Split an outcome into the outcomes of its steps. *)
Ltac inv_result H :=
  repeat match type of H with
         | mbind _ _ = Ok _ =>
             let x := fresh "x" in
             let E := fresh "E" in
             apply bind_Ok in H; destruct H as (x & E & H); inv_result E
         | (if ?b then _ else _) = Ok _ => destruct b
         | (let '(_, _) := ?p in _) = Ok _ => destruct p
         | match ?h with
           | sort.unknownHint => _ | sort.increasingHint => _ | sort.decreasingHint => _
           end = Ok _ => destruct h
         | Ok _ = Ok _ => injection H; clear H; intros; subst
         end.

(** Close a goal [d' ≡ₚ d] from the steps that lead from [d] to [d']. *)
Ltac perm_chain :=
  repeat match goal with
         | E : sort.Swap _ _ _ = Ok _ |- _ => apply Swap_perm in E
         end;
  repeat match goal with
         | P : ?y ≡ₚ _ |- ?y ≡ₚ _ => rewrite P; clear P
         end;
  reflexivity.

Lemma insertion_shift_perm : forall (j : nat) (data data' : list A) (a : nat),
  sort.insertion_shift less data a j = Ok data' -> data' ≡ₚ data.
Proof.
  induction j as [|j IH]; intros data data' a Hs; cbn [sort.insertion_shift] in Hs.
  - inv_result Hs. reflexivity.
  - inv_result Hs; try reflexivity. apply IH in Hs. perm_chain.
Qed.

Lemma insertion_loop_perm : forall (n : nat) (data data' : list A) (a i : nat),
  sort.insertion_loop less data a i n = Ok data' -> data' ≡ₚ data.
Proof.
  induction n as [|n IH]; intros data data' a i Hs; cbn [sort.insertion_loop] in Hs.
  - inv_result Hs. reflexivity.
  - inv_result Hs. apply IH in Hs. apply insertion_shift_perm in E. perm_chain.
Qed.

Lemma siftDown_loop_perm : forall (n : nat) (data data' : list A) (root hi first : nat),
  sort.siftDown_loop less n data root hi first = Ok data' -> data' ≡ₚ data.
Proof.
  induction n as [|n IH]; intros data data' root hi first Hs;
    cbn [sort.siftDown_loop] in Hs.
  - inv_result Hs. reflexivity.
  - inv_result Hs; try reflexivity; apply IH in Hs; perm_chain.
Qed.

Lemma for_down_perm (body : list A -> nat -> result (list A)) :
  (forall d i d', body d i = Ok d' -> d' ≡ₚ d) ->
  forall (n : nat) (data data' : list A),
    sort.for_down n data body = Ok data' -> data' ≡ₚ data.
Proof.
  intros Hbody. induction n as [|n IH]; intros data data' Hs; cbn [sort.for_down] in Hs.
  - inv_result Hs. reflexivity.
  - inv_result Hs. apply IH in Hs. apply Hbody in E. perm_chain.
Qed.

Lemma heapSort_perm (data data' : list A) (a b : nat) :
  sort.heapSort_func less data a b = Ok data' -> data' ≡ₚ data.
Proof.
  unfold sort.heapSort_func, sort.siftDown_func. intros Hs. inv_result Hs.
  apply for_down_perm in Hs, E.
  - perm_chain.
  - intros d i d'. apply siftDown_loop_perm.
  - intros d i d' Hb. inv_result Hb. apply siftDown_loop_perm in Hb. perm_chain.
Qed.

Lemma partition_loop_perm : forall (n : nat) (data data' : list A) (a i j j' : nat),
  sort.partition_loop less n data a i j = Ok (data', j') -> data' ≡ₚ data.
Proof.
  induction n as [|n IH]; intros data data' a i j j' Hs;
    cbn [sort.partition_loop] in Hs.
  - inv_result Hs. reflexivity.
  - inv_result Hs; try reflexivity. apply IH in Hs. perm_chain.
Qed.

Lemma partition_perm (data data' : list A) (a b pivot mid : nat) (already : bool) :
  sort.partition_func less data a b pivot = Ok (data', mid, already) -> data' ≡ₚ data.
Proof.
  unfold sort.partition_func. intros Hs. inv_result Hs.
  - perm_chain.
  - apply partition_loop_perm in E3. perm_chain.
Qed.

Lemma partitionEqual_loop_perm :
  forall (n : nat) (data data' : list A) (a i j i' : nat),
    sort.partitionEqual_loop less n data a i j = Ok (data', i') -> data' ≡ₚ data.
Proof.
  induction n as [|n IH]; intros data data' a i j i' Hs;
    cbn [sort.partitionEqual_loop] in Hs.
  - inv_result Hs. reflexivity.
  - inv_result Hs; try reflexivity. apply IH in Hs. perm_chain.
Qed.

Lemma partitionEqual_perm (data data' : list A) (a b pivot mid : nat) :
  sort.partitionEqual_func less data a b pivot = Ok (data', mid) -> data' ≡ₚ data.
Proof.
  unfold sort.partitionEqual_func. intros Hs. inv_result Hs.
  apply partitionEqual_loop_perm in Hs. perm_chain.
Qed.

Lemma shift_left_perm : forall (j : nat) (data data' : list A),
  sort.shift_left less data j = Ok data' -> data' ≡ₚ data.
Proof.
  induction j as [|j IH]; intros data data' Hs; cbn [sort.shift_left] in Hs.
  - inv_result Hs. reflexivity.
  - inv_result Hs; try reflexivity. apply IH in Hs. perm_chain.
Qed.

Lemma shift_right_perm : forall (n : nat) (data data' : list A) (j b : nat),
  sort.shift_right less n data j b = Ok data' -> data' ≡ₚ data.
Proof.
  induction n as [|n IH]; intros data data' j b Hs; cbn [sort.shift_right] in Hs.
  - inv_result Hs. reflexivity.
  - inv_result Hs; try reflexivity. apply IH in Hs. perm_chain.
Qed.

Lemma partialInsertion_loop_perm :
  forall (steps : nat) (data data' : list A) (a b i : nat) (sorted : bool),
    sort.partialInsertion_loop less steps data a b i = Ok (data', sorted) ->
    data' ≡ₚ data.
Proof.
  induction steps as [|steps IH]; intros data data' a b i sorted Hs;
    cbn [sort.partialInsertion_loop] in Hs.
  - inv_result Hs. reflexivity.
  - inv_result Hs; try reflexivity; apply IH in Hs;
      repeat match goal with
             | E : sort.shift_left _ _ _ = Ok _ |- _ => apply shift_left_perm in E
             | E : sort.shift_right _ _ _ _ _ = Ok _ |- _ => apply shift_right_perm in E
             end;
      perm_chain.
Qed.

Lemma breakPatterns_loop_perm :
  forall (n : nat) (data data' : list A) (a length idx i : nat) (random modulus : Z),
    sort.breakPatterns_loop n data a length idx i random modulus = Ok data' ->
    data' ≡ₚ data.
Proof.
  induction n as [|n IH]; intros data data' a length idx i random modulus Hs;
    cbn [sort.breakPatterns_loop] in Hs.
  - inv_result Hs. reflexivity.
  - cbv zeta in Hs. inv_result Hs; apply IH in Hs; perm_chain.
Qed.

Lemma breakPatterns_perm (data data' : list A) (a b : nat) :
  sort.breakPatterns_func data a b = Ok data' -> data' ≡ₚ data.
Proof.
  unfold sort.breakPatterns_func. intros Hs. cbv zeta in Hs. inv_result Hs.
  - now apply breakPatterns_loop_perm in Hs.
  - reflexivity.
Qed.

Lemma reverseRange_loop_perm : forall (n : nat) (data data' : list A) (i j : nat),
  sort.reverseRange_loop n data i j = Ok data' -> data' ≡ₚ data.
Proof.
  induction n as [|n IH]; intros data data' i j Hs; cbn [sort.reverseRange_loop] in Hs.
  - inv_result Hs. reflexivity.
  - inv_result Hs; try reflexivity. apply IH in Hs. perm_chain.
Qed.

Lemma pdqsort_perm :
  forall (budget : nat) (data data' : list A) (a b limit : nat)
         (wasBalanced wasPartitioned : bool),
    sort.pdqsort_func less budget data a b limit wasBalanced wasPartitioned = Ok data' ->
    data' ≡ₚ data.
Proof.
  induction budget as [|budget IH];
    intros data data' a b limit wasBalanced wasPartitioned Hs;
    cbn [sort.pdqsort_func] in Hs; [discriminate|].
  cbv zeta in Hs.
  unfold sort.insertionSort_func, sort.reverseRange_func,
    sort.partialInsertionSort_func in Hs.
  inv_result Hs;
    repeat match goal with
           | E : sort.pdqsort_func _ _ _ _ _ _ _ _ = Ok _ |- _ => apply IH in E
           | E : sort.insertion_loop _ _ _ _ _ = Ok _ |- _ =>
               apply insertion_loop_perm in E
           | E : sort.heapSort_func _ _ _ _ = Ok _ |- _ => apply heapSort_perm in E
           | E : sort.breakPatterns_func _ _ _ = Ok _ |- _ =>
               apply breakPatterns_perm in E
           | E : sort.reverseRange_loop _ _ _ _ = Ok _ |- _ =>
               apply reverseRange_loop_perm in E
           | E : sort.partialInsertion_loop _ _ _ _ _ _ = Ok _ |- _ =>
               apply partialInsertion_loop_perm in E
           | E : sort.partitionEqual_func _ _ _ _ _ = Ok _ |- _ =>
               apply partitionEqual_perm in E
           | E : sort.partition_func _ _ _ _ _ = Ok _ |- _ => apply partition_perm in E
           end;
    perm_chain.
Qed.

End permutation.

(** ** The sort returns *)

Section totality.
Context {A : Type} (less : A -> A -> result bool) (well_formed : A -> Prop).
Hypothesis less_total :
  forall x y, well_formed x -> well_formed y -> exists b, less x y = Ok b.

Lemma sound_perm (n : nat) (data data' : list A) :
  data' ≡ₚ data -> sound well_formed n data -> sound well_formed n data'.
Proof.
  intros Hperm [Hlen Hwf]. split.
  - now rewrite Hperm.
  - now rewrite Hperm.
Qed.

Lemma Less_sound (n : nat) (data : list A) (i j : nat) :
  sound well_formed n data -> (i < n)%nat -> (j < n)%nat -> exists b, sort.Less less data i j = Ok b.
Proof.
  intros [Hlen Hwf] Hi Hj. unfold sort.Less.
  destruct (lookup_lt_is_Some_2 data i ltac:(lia)) as [x Hx].
  destruct (lookup_lt_is_Some_2 data j ltac:(lia)) as [y Hy].
  rewrite Hx, Hy. rewrite Forall_forall in Hwf.
  apply less_total; apply Hwf; eapply list_elem_of_lookup_2; eauto.
Qed.

Lemma Swap_sound (n : nat) (data : list A) (i j : nat) :
  sound well_formed n data -> (i < n)%nat -> (j < n)%nat ->
  exists data', sort.Swap data i j = Ok data' /\ sound well_formed n data'.
Proof.
  intros Hs Hi Hj. pose proof Hs as [Hlen _]. unfold sort.Swap.
  destruct (lookup_lt_is_Some_2 data i ltac:(lia)) as [x Hx].
  destruct (lookup_lt_is_Some_2 data j ltac:(lia)) as [y Hy].
  rewrite Hx, Hy. eexists. split; [reflexivity|].
  apply (sound_perm n data); [|exact Hs]. now apply insert_swap_perm.
Qed.

(** Run the next step of the goal: a comparison or a swap in range. *)
Ltac next_Less n :=
  match goal with
  | Hs : sound well_formed n ?d |- context [sort.Less less ?d ?i ?j] =>
      let b := fresh "lt" in
      let E := fresh "E" in
      destruct (Less_sound n d i j Hs ltac:(lia) ltac:(lia)) as [b E];
      rewrite E; clear E; cbn [mbind result_bind]
  end.

Ltac next_Swap n :=
  match goal with
  | Hs : sound well_formed n ?d |- context [sort.Swap ?d ?i ?j] =>
      let d' := fresh "data" in
      let E := fresh "E" in
      let Hs' := fresh "Hs" in
      destruct (Swap_sound n d i j Hs ltac:(lia) ltac:(lia)) as (d' & E & Hs');
      rewrite E; clear E; cbn [mbind result_bind]
  end.

Lemma insertion_shift_sound (n : nat) : forall (j : nat) (data : list A) (a : nat),
  sound well_formed n data -> (j < n)%nat ->
  exists data', sort.insertion_shift less data a j = Ok data' /\ sound well_formed n data'.
Proof.
  induction j as [|j IH]; intros data a Hs Hj; cbn [sort.insertion_shift]; [eauto|].
  destruct (a <? S j)%nat; [|eauto].
  next_Less n. destruct lt; [|eauto].
  next_Swap n. apply IH; [done|lia].
Qed.

Lemma insertion_loop_sound (n : nat) : forall (k : nat) (data : list A) (a i : nat),
  sound well_formed n data -> (k = 0 \/ i + k <= n)%nat ->
  exists data', sort.insertion_loop less data a i k = Ok data' /\ sound well_formed n data'.
Proof.
  induction k as [|k IH]; intros data a i Hs Hk; cbn [sort.insertion_loop]; [eauto|].
  destruct (insertion_shift_sound n i data a Hs ltac:(lia)) as (data1 & E & Hs1).
  rewrite E. cbn [mbind result_bind]. apply IH; [done|lia].
Qed.

Lemma insertionSort_sound (n : nat) (data : list A) (a b : nat) :
  sound well_formed n data -> (b <= n)%nat ->
  exists data', sort.insertionSort_func less data a b = Ok data' /\ sound well_formed n data'.
Proof.
  intros Hs Hb. unfold sort.insertionSort_func. apply insertion_loop_sound; [done|lia].
Qed.

Lemma siftDown_loop_sound (n : nat) :
  forall (k : nat) (data : list A) (root hi first : nat),
    sound well_formed n data -> (first + hi <= n)%nat ->
    exists data', sort.siftDown_loop less k data root hi first = Ok data' /\ sound well_formed n data'.
Proof.
  induction k as [|k IH]; intros data root hi first Hs Hhi;
    cbn [sort.siftDown_loop]; [eauto|].
  cbv zeta. destruct (Nat.leb_spec hi (2 * root + 1)) as [Hle|Hlt]; [eauto|].
  destruct (Nat.ltb_spec (2 * root + 1 + 1) hi) as [Hc|Hc].
  - next_Less n. destruct lt; next_Less n; destruct lt; eauto;
      next_Swap n; apply IH; [done|lia|done|lia].
  - cbn [mbind result_bind]. next_Less n. destruct lt; eauto.
    next_Swap n. apply IH; [done|lia].
Qed.

Lemma for_down_sound (n : nat) (body : list A -> nat -> result (list A)) (bound : nat) :
  (forall d i, sound well_formed n d -> (i < bound)%nat ->
     exists d', body d i = Ok d' /\ sound well_formed n d') ->
  forall (k : nat) (data : list A),
    sound well_formed n data -> (k <= bound)%nat ->
    exists data', sort.for_down k data body = Ok data' /\ sound well_formed n data'.
Proof.
  intros Hbody. induction k as [|k IH]; intros data Hs Hk; cbn [sort.for_down]; [eauto|].
  destruct (Hbody data k Hs ltac:(lia)) as (data1 & E & Hs1).
  rewrite E. cbn [mbind result_bind]. apply IH; [done|lia].
Qed.

Lemma heapSort_sound (n : nat) (data : list A) (a b : nat) :
  sound well_formed n data -> (a <= b <= n)%nat ->
  exists data', sort.heapSort_func less data a b = Ok data' /\ sound well_formed n data'.
Proof.
  intros Hs Hab. unfold sort.heapSort_func, sort.siftDown_func. cbv zeta.
  destruct (for_down_sound n
              (fun d i => sort.siftDown_loop less (S (b - a)) d i (b - a) a)
              (S ((b - a - 1) / 2))) with (k := S ((b - a - 1) / 2)) (data := data)
    as (data1 & E & Hs1); [|done|lia|].
  { intros d i Hd _. apply siftDown_loop_sound; [done|lia]. }
  rewrite E. cbn [mbind result_bind].
  apply (for_down_sound n _ (b - a)); [|done|lia].
  intros d i Hd Hi. next_Swap n. apply siftDown_loop_sound; [done|lia].
Qed.

Lemma scan_up_sound (n : nat) : forall (k : nat) (data : list A) (a i j : nat),
  sound well_formed n data -> (a < n)%nat -> (j < n)%nat ->
  exists i', sort.scan_up less k data a i j = Ok i' /\ (i <= i')%nat.
Proof.
  induction k as [|k IH]; intros data a i j Hs Ha Hj; cbn [sort.scan_up]; [eauto|].
  destruct (Nat.leb_spec i j); [|eauto].
  next_Less n. destruct lt; [|eauto].
  destruct (IH data a (S i) j Hs Ha Hj) as (i' & E & Hi'). exists i'. split; [done|lia].
Qed.

Lemma scan_down_sound (n : nat) : forall (k : nat) (data : list A) (a i j : nat),
  sound well_formed n data -> (a < n)%nat -> (j < n)%nat ->
  exists j', sort.scan_down less k data a i j = Ok j'
             /\ (j' <= j)%nat /\ (j' = j \/ i <= S j')%nat.
Proof.
  induction k as [|k IH]; intros data a i j Hs Ha Hj; cbn [sort.scan_down];
    [eauto 6|].
  destruct (Nat.leb_spec i j); [|eauto 6].
  next_Less n. destruct lt; [eauto 6|].
  destruct (IH data a i (j - 1)%nat Hs Ha ltac:(lia)) as (j' & E & Hle & Hlow).
  exists j'. split; [done|]. split; [lia|]. right. lia.
Qed.

Lemma partition_loop_sound (n : nat) : forall (k : nat) (data : list A) (a i j : nat),
  sound well_formed n data -> (a < i)%nat -> (a <= j < n)%nat ->
  exists data' j',
    sort.partition_loop less k data a i j = Ok (data', j')
    /\ sound well_formed n data' /\ (a <= j' <= j)%nat.
Proof.
  induction k as [|k IH]; intros data a i j Hs Hi Hj; cbn [sort.partition_loop].
  { exists data, j. split; [reflexivity|]. split; [done|lia]. }
  destruct (scan_up_sound n (S j - i) data a i j Hs ltac:(lia) ltac:(lia))
    as (i1 & E1 & Hi1).
  rewrite E1. cbn [mbind result_bind].
  destruct (scan_down_sound n (S j - i1) data a i1 j Hs ltac:(lia) ltac:(lia))
    as (j1 & E2 & Hj1 & Hlow).
  rewrite E2. cbn [mbind result_bind].
  destruct (Nat.ltb_spec j1 i1) as [Hlt|Hge].
  { exists data, j1. split; [reflexivity|]. split; [done|lia]. }
  next_Swap n.
  destruct (IH data0 a (S i1) (j1 - 1)%nat Hs0 ltac:(lia) ltac:(lia))
    as (data' & j' & E & Hs' & Hj').
  exists data', j'. split; [done|]. split; [done|lia].
Qed.

Lemma partition_sound (n : nat) (data : list A) (a b pivot : nat) :
  sound well_formed n data -> (a < b <= n)%nat -> (a <= pivot < b)%nat ->
  exists data' mid already,
    sort.partition_func less data a b pivot = Ok (data', mid, already)
    /\ sound well_formed n data' /\ (a <= mid < b)%nat.
Proof.
  intros Hs Hab Hp. unfold sort.partition_func. cbv zeta.
  next_Swap n.
  destruct (scan_up_sound n (S (b - 1) - S a) data0 a (S a) (b - 1)%nat Hs0
              ltac:(lia) ltac:(lia)) as (i1 & E1 & Hi1).
  rewrite E1. cbn [mbind result_bind].
  destruct (scan_down_sound n (S (b - 1) - i1) data0 a i1 (b - 1)%nat Hs0
              ltac:(lia) ltac:(lia)) as (j1 & E2 & Hj1 & Hlow).
  rewrite E2. cbn [mbind result_bind].
  destruct (Nat.ltb_spec j1 i1) as [Hlt|Hge].
  { next_Swap n. do 3 eexists. split; [reflexivity|]. split; [done|lia]. }
  next_Swap n.
  destruct (partition_loop_sound n (b - a) data1 a (S i1) (j1 - 1)%nat Hs1
              ltac:(lia) ltac:(lia)) as (data2 & j2 & E & Hs2 & Hj2).
  rewrite E. cbn [mbind result_bind].
  next_Swap n. do 3 eexists. split; [reflexivity|]. split; [done|lia].
Qed.

Lemma scan_up_eq_sound (n : nat) : forall (k : nat) (data : list A) (a i j : nat),
  sound well_formed n data -> (a < n)%nat -> (j < n)%nat ->
  exists i', sort.scan_up_eq less k data a i j = Ok i' /\ (i <= i')%nat.
Proof.
  induction k as [|k IH]; intros data a i j Hs Ha Hj; cbn [sort.scan_up_eq]; [eauto|].
  destruct (Nat.leb_spec i j); [|eauto].
  next_Less n. destruct lt; [eauto|].
  destruct (IH data a (S i) j Hs Ha Hj) as (i' & E & Hi'). exists i'. split; [done|lia].
Qed.

Lemma scan_down_eq_sound (n : nat) : forall (k : nat) (data : list A) (a i j : nat),
  sound well_formed n data -> (a < n)%nat -> (j < n)%nat ->
  exists j', sort.scan_down_eq less k data a i j = Ok j' /\ (j' <= j)%nat.
Proof.
  induction k as [|k IH]; intros data a i j Hs Ha Hj; cbn [sort.scan_down_eq]; [eauto|].
  destruct (Nat.leb_spec i j); [|eauto].
  next_Less n. destruct lt; [|eauto].
  destruct (IH data a i (j - 1)%nat Hs Ha ltac:(lia)) as (j' & E & Hle).
  exists j'. split; [done|lia].
Qed.

Lemma partitionEqual_loop_sound (n : nat) :
  forall (k : nat) (data : list A) (a i j : nat),
    sound well_formed n data -> (a < n)%nat -> (j < n)%nat ->
    exists data' i',
      sort.partitionEqual_loop less k data a i j = Ok (data', i')
      /\ sound well_formed n data' /\ (i <= i')%nat.
Proof.
  induction k as [|k IH]; intros data a i j Hs Ha Hj; cbn [sort.partitionEqual_loop].
  { exists data, i. split; [reflexivity|]. split; [done|lia]. }
  destruct (scan_up_eq_sound n (S j - i) data a i j Hs Ha Hj) as (i1 & E1 & Hi1).
  rewrite E1. cbn [mbind result_bind].
  destruct (scan_down_eq_sound n (S j - i1) data a i1 j Hs Ha Hj) as (j1 & E2 & Hj1).
  rewrite E2. cbn [mbind result_bind].
  destruct (Nat.ltb_spec j1 i1) as [Hlt|Hge].
  { exists data, i1. split; [reflexivity|]. split; [done|lia]. }
  next_Swap n.
  destruct (IH data0 a (S i1) (j1 - 1)%nat Hs0 Ha ltac:(lia))
    as (data' & i' & E & Hs' & Hi').
  exists data', i'. split; [done|]. split; [done|lia].
Qed.

Lemma partitionEqual_sound (n : nat) (data : list A) (a b pivot : nat) :
  sound well_formed n data -> (a < b <= n)%nat -> (a <= pivot < b)%nat ->
  exists data' mid,
    sort.partitionEqual_func less data a b pivot = Ok (data', mid)
    /\ sound well_formed n data' /\ (a < mid)%nat.
Proof.
  intros Hs Hab Hp. unfold sort.partitionEqual_func.
  next_Swap n.
  destruct (partitionEqual_loop_sound n (S (b - a)) data0 a (S a) (b - 1)%nat Hs0
              ltac:(lia) ltac:(lia)) as (data' & mid & E & Hs' & Hmid).
  exists data', mid. split; [done|]. split; [done|lia].
Qed.

Lemma order2_sound (n : nat) (data : list A) (a b swaps : nat) :
  sound well_formed n data -> (a < n)%nat -> (b < n)%nat ->
  exists a' b' swaps',
    sort.order2_func less data a b swaps = Ok (a', b', swaps')
    /\ ((a' = a /\ b' = b) \/ (a' = b /\ b' = a)).
Proof.
  intros Hs Ha Hb. unfold sort.order2_func. next_Less n.
  destruct lt; do 3 eexists; (split; [reflexivity|]); tauto.
Qed.

Lemma median_sound (n : nat) (data : list A) (a b c swaps : nat) :
  sound well_formed n data -> (a < n)%nat -> (b < n)%nat -> (c < n)%nat ->
  exists m swaps',
    sort.median_func less data a b c swaps = Ok (m, swaps')
    /\ (m = a \/ m = b \/ m = c).
Proof.
  intros Hs Ha Hb Hc. unfold sort.median_func.
  destruct (order2_sound n data a b swaps Hs Ha Hb) as (a1 & b1 & s1 & E1 & H1).
  rewrite E1. cbn [mbind result_bind].
  destruct (order2_sound n data b1 c s1 Hs ltac:(lia) Hc) as (b2 & c2 & s2 & E2 & H2).
  rewrite E2. cbn [mbind result_bind].
  destruct (order2_sound n data a1 b2 s2 Hs ltac:(lia) ltac:(lia))
    as (a3 & b3 & s3 & E3 & H3).
  rewrite E3. cbn [mbind result_bind].
  do 2 eexists. split; [reflexivity|]. lia.
Qed.

Lemma medianAdjacent_sound (n : nat) (data : list A) (a swaps : nat) :
  sound well_formed n data -> (0 < a)%nat -> (a + 1 < n)%nat ->
  exists m swaps',
    sort.medianAdjacent_func less data a swaps = Ok (m, swaps')
    /\ (a - 1 <= m <= a + 1)%nat.
Proof.
  intros Hs Ha Hn. unfold sort.medianAdjacent_func.
  destruct (median_sound n data (a - 1) a (a + 1) swaps Hs ltac:(lia) ltac:(lia) Hn)
    as (m & s' & E & Hm).
  exists m, s'. split; [done|lia].
Qed.

Lemma choosePivot_sound (n : nat) (data : list A) (a b : nat) :
  sound well_formed n data -> (b <= n)%nat -> (12 < b - a)%nat ->
  exists pivot hint,
    sort.choosePivot_func less data a b = Ok (pivot, hint) /\ (a <= pivot < b)%nat.
Proof.
  intros Hs Hb Hl. unfold sort.choosePivot_func. cbv zeta.
  pose proof (Nat.div_mod_eq (b - a) 4) as Hdiv.
  pose proof (Nat.mod_upper_bound (b - a) 4 ltac:(lia)) as Hmod.
  set (q := ((b - a) / 4)%nat) in *.
  replace (8 <=? b - a)%nat with true by (symmetry; apply Nat.leb_le; lia).
  destruct (50 <=? b - a)%nat eqn:E50.
  - apply Nat.leb_le in E50.
    destruct (medianAdjacent_sound n data (a + q * 1) 0 Hs ltac:(lia) ltac:(lia))
      as (i & s1 & E1 & Hi).
    rewrite E1. cbn [mbind result_bind].
    destruct (medianAdjacent_sound n data (a + q * 2) s1 Hs ltac:(lia) ltac:(lia))
      as (j & s2 & E2 & Hj).
    rewrite E2. cbn [mbind result_bind].
    destruct (medianAdjacent_sound n data (a + q * 3) s2 Hs ltac:(lia) ltac:(lia))
      as (k & s3 & E3 & Hk).
    rewrite E3. cbn [mbind result_bind].
    destruct (median_sound n data i j k s3 Hs ltac:(lia) ltac:(lia) ltac:(lia))
      as (m & s4 & E4 & Hm).
    rewrite E4. cbn [mbind result_bind].
    do 2 eexists. split; [reflexivity|]. lia.
  - cbn [mbind result_bind].
    destruct (median_sound n data (a + q * 1) (a + q * 2) (a + q * 3) 0 Hs
                ltac:(lia) ltac:(lia) ltac:(lia)) as (m & s4 & E4 & Hm).
    rewrite E4. cbn [mbind result_bind].
    do 2 eexists. split; [reflexivity|]. lia.
Qed.

Lemma reverseRange_loop_sound (n : nat) : forall (k : nat) (data : list A) (i j : nat),
  sound well_formed n data -> (j < n)%nat ->
  exists data', sort.reverseRange_loop k data i j = Ok data' /\ sound well_formed n data'.
Proof.
  induction k as [|k IH]; intros data i j Hs Hj; cbn [sort.reverseRange_loop]; [eauto|].
  destruct (Nat.ltb_spec i j); [|eauto].
  next_Swap n. apply IH; [done|lia].
Qed.

Lemma skip_ordered_sound (n : nat) : forall (k : nat) (data : list A) (i b : nat),
  sound well_formed n data -> (b <= n)%nat -> (i <= b)%nat ->
  exists i', sort.skip_ordered less k data i b = Ok i' /\ (i <= i' <= b)%nat.
Proof.
  induction k as [|k IH]; intros data i b Hs Hb Hi; cbn [sort.skip_ordered].
  { exists i. split; [done|lia]. }
  destruct (Nat.ltb_spec i b); [|exists i; split; [done|lia]].
  next_Less n. destruct lt; [exists i; split; [done|lia]|].
  destruct (IH data (S i) b Hs Hb ltac:(lia)) as (i' & E & Hi').
  exists i'. split; [done|lia].
Qed.

Lemma shift_left_sound (n : nat) : forall (j : nat) (data : list A),
  sound well_formed n data -> (j < n)%nat ->
  exists data', sort.shift_left less data j = Ok data' /\ sound well_formed n data'.
Proof.
  induction j as [|j IH]; intros data Hs Hj; cbn [sort.shift_left]; [eauto|].
  next_Less n. destruct lt; [|eauto].
  next_Swap n. apply IH; [done|lia].
Qed.

Lemma shift_right_sound (n : nat) : forall (k : nat) (data : list A) (j b : nat),
  sound well_formed n data -> (b <= n)%nat ->
  exists data', sort.shift_right less k data j b = Ok data' /\ sound well_formed n data'.
Proof.
  induction k as [|k IH]; intros data j b Hs Hb; cbn [sort.shift_right]; [eauto|].
  destruct (Nat.ltb_spec j b); [|eauto].
  next_Less n. destruct lt; [|eauto].
  next_Swap n. apply IH; [done|lia].
Qed.

Lemma partialInsertion_loop_sound (n : nat) :
  forall (steps : nat) (data : list A) (a b i : nat),
    sound well_formed n data -> (b <= n)%nat -> (i <= b)%nat ->
    exists data' sorted,
      sort.partialInsertion_loop less steps data a b i = Ok (data', sorted)
      /\ sound well_formed n data'.
Proof.
  induction steps as [|steps IH]; intros data a b i Hs Hb Hi;
    cbn [sort.partialInsertion_loop]; [eauto|].
  destruct (skip_ordered_sound n (b - i) data i b Hs Hb Hi) as (i1 & E1 & Hi1).
  rewrite E1. cbn [mbind result_bind].
  destruct (Nat.eqb_spec i1 b); [eauto|].
  destruct (b - a <? 50)%nat; [eauto|].
  next_Swap n.
  assert (exists data1,
            (if (2 <=? i1 - a)%nat then sort.shift_left less data0 (i1 - 1)
             else Ok data0) = Ok data1 /\ sound well_formed n data1) as (data1 & E2 & Hs1).
  { destruct (2 <=? i1 - a)%nat; [|eauto]. apply shift_left_sound; [done|lia]. }
  rewrite E2. cbn [mbind result_bind].
  assert (exists data2,
            (if (2 <=? b - i1)%nat then sort.shift_right less (b - i1) data1 (S i1) b
             else Ok data1) = Ok data2 /\ sound well_formed n data2) as (data2 & E3 & Hs2).
  { destruct (2 <=? b - i1)%nat; [|eauto]. now apply shift_right_sound. }
  rewrite E3. cbn [mbind result_bind].
  apply IH; [done|done|lia].
Qed.

Lemma nextPowerOfTwo_bounds (length : nat) :
  (0 < length)%nat ->
  exists k, 0 <= k /\ sort.nextPowerOfTwo length = 2 ^ k
            /\ sort.nextPowerOfTwo length <= 2 * Z.of_nat length.
Proof.
  intros Hpos. unfold sort.nextPowerOfTwo, sort.bits_Len.
  destruct length as [|l]; [lia|]. set (m := S l) in *.
  exists (Z.of_nat (S (Nat.log2 m))). split; [lia|].
  rewrite Z.shiftl_1_l. split; [done|].
  destruct (Nat.log2_spec m Hpos) as [Hlow _].
  rewrite Nat2Z.inj_succ, Z.pow_succ_r by lia.
  apply (Nat2Z.inj_le) in Hlow. rewrite Nat2Z.inj_pow in Hlow. simpl Z.of_nat in Hlow.
  lia.
Qed.

Lemma breakPatterns_loop_sound (n : nat) (a length idx : nat) (modulus : Z) :
  (0 < length)%nat -> (a + length <= n)%nat ->
  (exists k, 0 <= k /\ modulus = 2 ^ k) -> modulus <= 2 * Z.of_nat length ->
  forall (steps : nat) (data : list A) (i : nat) (random : Z),
    sound well_formed n data -> (idx - 1 + i + steps <= n)%nat ->
    exists data',
      sort.breakPatterns_loop steps data a length idx i random modulus = Ok data'
      /\ sound well_formed n data'.
Proof.
  intros Hlen Hn (k & Hk & Hmod) Hmax.
  induction steps as [|steps IH]; intros data i random Hs Hi;
    cbn [sort.breakPatterns_loop]; [eauto|].
  cbv zeta.
  set (other := Z.to_nat (Z.land (sort.xorshift_Next random) (modulus - 1))).
  assert (other < 2 * length)%nat as Hother.
  { unfold other. replace (modulus - 1) with (Z.ones k)
      by (rewrite Z.ones_equiv, Hmod; lia).
    rewrite Z.land_ones by done.
    pose proof (Z.mod_pos_bound (sort.xorshift_Next random) (2 ^ k)
                  ltac:(apply Z.pow_pos_nonneg; lia)).
    lia. }
  destruct (Nat.leb_spec length other); next_Swap n; apply IH; (done || lia).
Qed.

Lemma breakPatterns_sound (n : nat) (data : list A) (a b : nat) :
  sound well_formed n data -> (b <= n)%nat ->
  exists data', sort.breakPatterns_func data a b = Ok data' /\ sound well_formed n data'.
Proof.
  intros Hs Hb. unfold sort.breakPatterns_func. cbv zeta.
  destruct (Nat.leb_spec 8 (b - a)) as [Hl|Hl]; [|eauto].
  pose proof (Nat.div_mod_eq (b - a) 4) as Hdiv.
  pose proof (Nat.mod_upper_bound (b - a) 4 ltac:(lia)) as Hmod.
  destruct (nextPowerOfTwo_bounds (b - a) ltac:(lia)) as (k & Hk & Hpow & Hmax).
  apply (breakPatterns_loop_sound n); [lia|lia|eauto|done|done|].
  set (q := ((b - a) / 4)%nat) in *. lia.
Qed.

Lemma pdqsort_sound (n : nat) :
  forall (budget : nat) (data : list A) (a b limit : nat)
         (wasBalanced wasPartitioned : bool),
    sound well_formed n data -> (b <= n)%nat -> (b - a < budget)%nat ->
    exists data',
      sort.pdqsort_func less budget data a b limit wasBalanced wasPartitioned = Ok data'
      /\ sound well_formed n data'.
Proof.
  induction budget as [|budget IH];
    intros data a b limit wasBalanced wasPartitioned Hs Hb Hbudget; [lia|].
  cbn [sort.pdqsort_func]. cbv zeta.
  destruct (Nat.leb_spec (b - a) 12) as [Hsmall|Hbig].
  { now apply insertionSort_sound. }
  destruct (limit =? 0)%nat.
  { apply heapSort_sound; [done|lia]. }
  assert (exists data1 limit1,
            (if wasBalanced then Ok (data, limit)
             else data' ← sort.breakPatterns_func data a b; Ok (data', (limit - 1)%nat))
            = Ok (data1, limit1) /\ sound well_formed n data1) as (data1 & limit1 & E1 & Hs1).
  { destruct wasBalanced; [eauto|].
    destruct (breakPatterns_sound n data a b Hs Hb) as (data1 & E & Hs1).
    rewrite E. cbn [mbind result_bind]. eauto. }
  rewrite E1. cbn [mbind result_bind]. clear E1.
  destruct (choosePivot_sound n data1 a b Hs1 Hb Hbig) as (pivot & hint & E2 & Hp).
  rewrite E2. cbn [mbind result_bind]. clear E2.
  assert (exists data2 pivot2 hint2,
            match hint with
            | sort.decreasingHint =>
                data' ← sort.reverseRange_func data1 a b;
                Ok (data', (b - 1 - (pivot - a))%nat, sort.increasingHint)
            | _ => Ok (data1, pivot, hint)
            end = Ok (data2, pivot2, hint2)
            /\ sound well_formed n data2 /\ (a <= pivot2 < b)%nat)
    as (data2 & pivot2 & hint2 & E3 & Hs2 & Hp2).
  { destruct hint; [eauto 7|eauto 7|].
    unfold sort.reverseRange_func.
    destruct (reverseRange_loop_sound n (b - a) data1 a (b - 1)%nat Hs1 ltac:(lia))
      as (data2 & E & Hs2).
    rewrite E. cbn [mbind result_bind]. do 3 eexists. split; [reflexivity|].
    split; [done|lia]. }
  rewrite E3. cbn [mbind result_bind]. clear E3.
  assert (exists data3 sorted,
            match hint2 with
            | sort.increasingHint =>
                if wasBalanced && wasPartitioned
                then sort.partialInsertionSort_func less data2 a b
                else Ok (data2, false)
            | _ => Ok (data2, false)
            end = Ok (data3, sorted) /\ sound well_formed n data3) as (data3 & sorted & E4 & Hs3).
  { destruct hint2; [eauto| |eauto].
    destruct (wasBalanced && wasPartitioned); [|eauto].
    unfold sort.partialInsertionSort_func.
    apply partialInsertion_loop_sound; [done|done|lia]. }
  rewrite E4. cbn [mbind result_bind]. clear E4.
  destruct sorted; [eauto|].
  assert (exists dup,
            (if (0 <? a)%nat
             then lt ← sort.Less less data3 (a - 1) pivot2; Ok (negb lt)
             else Ok false) = Ok dup) as (dup & E5).
  { destruct (Nat.ltb_spec 0 a); [|eauto]. next_Less n. eauto. }
  rewrite E5. cbn [mbind result_bind]. clear E5.
  destruct dup.
  - destruct (partitionEqual_sound n data3 a b pivot2 Hs3 ltac:(lia) Hp2)
      as (data4 & mid & E6 & Hs4 & Hmid).
    rewrite E6. cbn [mbind result_bind]. apply IH; [done|done|lia].
  - destruct (partition_sound n data3 a b pivot2 Hs3 ltac:(lia) Hp2)
      as (data4 & mid & already & E6 & Hs4 & Hmid).
    rewrite E6. cbn [mbind result_bind].
    destruct (mid - a <? b - mid)%nat.
    + destruct (IH data4 a mid limit1 true true Hs4 ltac:(lia) ltac:(lia))
        as (data5 & E7 & Hs5).
      rewrite E7. cbn [mbind result_bind]. apply IH; [done|done|lia].
    + destruct (IH data4 (S mid) b limit1 true true Hs4 ltac:(lia) ltac:(lia))
        as (data5 & E7 & Hs5).
      rewrite E7. cbn [mbind result_bind]. apply IH; [done|lia|lia].
Qed.

(** [sort.Slice] returns on every slice on which the closure does not
    fail: the budget of the model is never used up. *)
Lemma Slice_sound (x : list A) :
  Forall well_formed x -> exists y, sort.Slice less x = Ok y /\ y ≡ₚ x.
Proof.
  intros Hwf. unfold sort.Slice.
  destruct (pdqsort_sound (length x) (S (length x)) x 0 (length x)
              (sort.bits_Len (length x)) true true) as (y & E & _);
    [split; [reflexivity|done]|lia|lia|].
  exists y. split; [exact E|]. exact (pdqsort_perm less _ _ _ _ _ _ _ _ E).
Qed.
End totality.

(** ** The sort engine *)

(** The rebuild only writes the widget, the offset and the count. *)
Lemma UpdateVisibleColumns_frame (m m' : TableModel) :
  UpdateVisibleColumns m = Ok m' ->
  m' = set_Table (Table m') (set_MaxColumns (MaxColumns m')
         (set_ScrollOffset (ScrollOffset m') m)).
Proof.
  intros Hupd. destruct (TableColumns m) as [|c cols] eqn:E.
  - unfold UpdateVisibleColumns in Hupd. rewrite E in Hupd. injection Hupd as <-.
    now destruct m.
  - destruct (UpdateVisibleColumns_rebuild m) as [E' _]; [now rewrite E|].
    rewrite E' in Hupd. injection Hupd as <-. now destruct m.
Qed.

Lemma UpdateVisibleColumns_rows (m m' : TableModel) :
  UpdateVisibleColumns m = Ok m' ->
  OriginalRows m' = OriginalRows m /\ AllRows m' = AllRows m
  /\ FilteredRows m' = FilteredRows m /\ TableColumns m' = TableColumns m
  /\ SortColumn m' = SortColumn m /\ FilterText m' = FilterText m.
Proof.
  intros Hupd. rewrite (UpdateVisibleColumns_frame m m' Hupd). now destruct m.
Qed.

Lemma SortRows_less_total (col : Z) (asc : bool) (ri rj : table.Row) :
  0 <= col < len ri -> 0 <= col < len rj ->
  exists b, SortRows_less col asc ri rj = Ok b.
Proof.
  intros Hi Hj. unfold SortRows_less.
  destruct (index_Ok ri col Hi) as (a & -> & _).
  destruct (index_Ok rj col Hj) as (b & -> & _).
  cbn [mbind result_bind].
  destruct (strconv.ParseFloat a), (strconv.ParseFloat b); eauto.
Qed.


(** C2, as amended: on active rows that each have a cell in the sort
    column, whatever their number, [sort.Slice] returns a permutation of
    the rows, and these are the rows of the model that [SortRows] hands
    to the rebuild and of the model it returns; on at most twelve of
    them, rows that tie under the comparator keep their relative order;
    in particular the scenario sorted by ascending age puts bob before
    Cara, then Alice. *)
Theorem SortRows_stable_up_to_twelve_rows (m : TableModel) (tie : table.Row -> bool) :
  0 <= SortColumn m ->
  Forall (fun row => SortColumn m < len row) (OriginalRows m) ->
  (exists sorted,
     sort.Slice (SortRows_less (SortColumn m) (SortAsc m)) (OriginalRows m) = Ok sorted
     /\ SortRows m = UpdateVisibleColumns (set_OriginalRows sorted m)
     /\ (forall m', SortRows m = Ok m' -> OriginalRows m' = sorted)
     /\ sorted ≡ₚ OriginalRows m
     /\ (len (OriginalRows m) <= 12 ->
         (forall ri rj, tie ri = true -> tie rj = true ->
            SortRows_less (SortColumn m) (SortAsc m) ri rj <> Ok true) ->
         List.filter tie sorted = List.filter tie (OriginalRows m)))
  /\ (exists up,
        SortRows (baseline_by_age true) = Ok up
        /\ OriginalRows up
           = [["2"; "bob"; "25"]; ["3"; "Cara"; "25"]; ["1"; "Alice"; "30"]]).
Proof.
  intros Hcol Hrows. split; [|eexists; split; vm_compute; reflexivity].
  assert (Forall (fun row => 0 <= SortColumn m < len row) (OriginalRows m)) as Hwf.
  { eapply Forall_impl; [exact Hrows|]. cbn. intros row Hrow. lia. }
  destruct (Slice_sound (SortRows_less (SortColumn m) (SortAsc m))
              (fun row => 0 <= SortColumn m < len row)
              (fun x y Hx Hy => SortRows_less_total _ _ x y Hx Hy)
              (OriginalRows m) Hwf) as (rows & Hsort & Hperm).
  assert (SortRows m = UpdateVisibleColumns (set_OriginalRows rows m)) as HS.
  { unfold SortRows. destruct (Z.ltb_spec (SortColumn m) 0) as [Hneg|_]; [lia|].
    now rewrite Hsort. }
  exists rows. split; [exact Hsort|]. split; [exact HS|]. split.
  { intros m' Hm'. rewrite HS in Hm'.
    destruct (UpdateVisibleColumns_rows _ _ Hm') as (-> & _). now destruct m. }
  split; [exact Hperm|]. intros Hlen Hties.
  destruct (Slice_stable_up_to_twelve
              (SortRows_less (SortColumn m) (SortAsc m)) tie
              (fun row => 0 <= SortColumn m < len row)
              (fun x y Hx Hy => SortRows_less_total _ _ x y Hx Hy)
              Hties (OriginalRows m) Hwf) as (rows' & Hsort' & _ & Hfilter).
  { unfold len in Hlen. lia. }
  rewrite Hsort in Hsort'. injection Hsort' as <-. exact Hfilter.
Qed.

Lemma SFcompare_refl (x : float64) :
  SFcompare x x = Some Eq \/ SFcompare x x = None.
Proof.
  destruct x as [s|s| |s mx ex]; simpl; auto; destruct s; auto;
    rewrite Z.compare_refl, Pos.compare_cont_refl; auto.
Qed.

Lemma string_compare_refl (s : string) : String.compare s s = Eq.
Proof.
  pose proof (String.compare_antisym s s) as H.
  destruct (String.compare s s); simpl in H; congruence.
Qed.

Lemma key_is_tie (col : nat) (key : string) (asc : bool) (ri rj : table.Row) :
  key_is col key ri = true -> key_is col key rj = true ->
  SortRows_less (Z.of_nat col) asc ri rj <> Ok true.
Proof.
  unfold key_is. intros Hi Hj.
  destruct (ri !! col) as [a|] eqn:Ea; [|discriminate].
  destruct (rj !! col) as [b|] eqn:Eb; [|discriminate].
  apply String.eqb_eq in Hi, Hj. subst a b.
  unfold SortRows_less.
  destruct (index_Ok ri (Z.of_nat col)) as (a & -> & Ha).
  { apply lookup_lt_Some in Ea. unfold len. lia. }
  destruct (index_Ok rj (Z.of_nat col)) as (b & -> & Hb).
  { apply lookup_lt_Some in Eb. unfold len. lia. }
  rewrite Nat2Z.id in Ha, Hb. rewrite Ea in Ha. rewrite Eb in Hb.
  injection Ha as <-. injection Hb as <-. cbn [mbind result_bind].
  destruct (strconv.ParseFloat key) as [x|].
  - unfold f64_lt, f64_gt, SFltb.
    destruct (SFcompare_refl x) as [-> | ->]; destruct asc; discriminate.
  - unfold string_lt, string_gt.
    rewrite string_compare_refl. destruct asc; discriminate.
Qed.

Lemma SortRows_stable_up_to_twelve_rows_witness :
  exists sorted,
    sort.Slice (SortRows_less (SortColumn (baseline_by_age true))
                  (SortAsc (baseline_by_age true)))
      (OriginalRows (baseline_by_age true)) = Ok sorted
    /\ (forall m', SortRows (baseline_by_age true) = Ok m' -> OriginalRows m' = sorted)
    /\ sorted ≡ₚ OriginalRows (baseline_by_age true)
    /\ List.filter (key_is 2 "25") sorted
       = List.filter (key_is 2 "25") (OriginalRows (baseline_by_age true)).
Proof.
  destruct (SortRows_stable_up_to_twelve_rows (baseline_by_age true) (key_is 2 "25"))
    as ((sorted & Hsort & _ & Hrows & Hperm & Hstable) & _).
  - vm_compute. discriminate.
  - vm_compute. repeat constructor.
  - exists sorted. split; [exact Hsort|]. split; [exact Hrows|].
    split; [exact Hperm|]. apply Hstable.
    + vm_compute. discriminate.
    + intros ri rj. apply (key_is_tie 2 "25" true).
Defined.

(** C2, as stated, fails on thirteen rows: twelve rows with key 1 followed
    by one with key 2, sorted by descending key as the first press of the
    sort key does.  The rows with key 1 tie, yet they leave the sort in
    the order g, c, d, e, f, a, h, i, j, k, l, b. *)
Lemma SortRows_unstable_on_thirteen_rows :
  exists m',
    SortRows thirteen_by_key = Ok m'
    /\ after_keys thirteen ["right"; "s"] = Ok (m', cmd_nil, empty_disk)
    /\ (forall ri rj, key_is 1 "1" ri = true -> key_is 1 "1" rj = true ->
          SortRows_less (SortColumn thirteen_by_key) (SortAsc thirteen_by_key) ri rj
          <> Ok true)
    /\ map (fun row => default "" (row !! 0%nat)) (OriginalRows m')
       = ["m"; "g"; "c"; "d"; "e"; "f"; "a"; "h"; "i"; "j"; "k"; "l"; "b"]
    /\ List.filter (key_is 1 "1") (OriginalRows m')
       <> List.filter (key_is 1 "1") (OriginalRows thirteen_by_key).
Proof.
  eexists. split; [vm_compute; reflexivity|].
  split; [vm_compute; reflexivity|].
  split; [intros ri rj; apply (key_is_tie 1 "1" false)|].
  split; [vm_compute; reflexivity|].
  vm_compute. discriminate.
Qed.

(** ** The filter engine *)

Lemma index_Ok_inv {A} (s : list A) (i : Z) (x : A) :
  index s i = Ok x -> 0 <= i < len s /\ s !! Z.to_nat i = Some x.
Proof.
  unfold index. intros H. ztest_in H; try discriminate.
  destruct (s !! Z.to_nat i) eqn:E; [|discriminate].
  injection H as <-. split; [lia|done].
Qed.

Section filter.
Context `{External}.

Lemma filter_rows_inv (rs : list table.Row) (col : Z) (query : string) :
  forall l, filter_rows rs col (strings.ToLower query) = Ok l ->
  l = List.filter (cell_matches col query) rs.
Proof.
  induction rs as [|row rest IH]; intros l Hl; simpl in *.
  - now injection Hl as <-.
  - destruct (index row col) as [cell|e|e] eqn:Ecell; try discriminate.
    cbn [mbind result_bind] in Hl.
    destruct (filter_rows rest col (strings.ToLower query)) as [others|e|e] eqn:Erest;
      try discriminate.
    cbn [mbind result_bind] in Hl. injection Hl as <-.
    apply index_Ok_inv in Ecell as [_ Ecell].
    unfold cell_matches at 1. rewrite Ecell, (IH others eq_refl).
    now destruct (strings.Contains _ _).
Qed.

Lemma filter_rows_Ok (rs : list table.Row) (col : Z) (q : string) :
  0 <= col -> Forall (fun row => col < len row) rs ->
  exists l, filter_rows rs col q = Ok l.
Proof.
  intros Hcol. induction 1 as [|row rest Hrow _ [others IH]]; simpl; [eauto|].
  destruct (index_Ok row col) as (cell & -> & _); [lia|].
  cbn [mbind result_bind]. rewrite IH. cbn [mbind result_bind]. eauto.
Qed.

Lemma ApplyFilter_rows (m m' : TableModel) :
  ApplyFilter m = Ok m' ->
  AllRows m' = AllRows m
  /\ OriginalRows m'
     = if String.eqb (FilterText m) ""
       then (if len (AllRows m) >? 0 then AllRows m else OriginalRows m)
       else List.filter (cell_matches (SortColumn m) (FilterText m)) (AllRows m).
Proof.
  unfold ApplyFilter. intros Happ.
  destruct (String.eqb (FilterText m) "").
  - destruct (UpdateVisibleColumns _) as [m1|e|e] eqn:E1; try discriminate.
    cbn [mbind result_bind] in Happ. injection Happ as <-.
    apply UpdateVisibleColumns_rows in E1 as (Eo & Ea & _).
    replace (AllRows (set_StatusMsg _ m1)) with (AllRows m1) by now destruct m1.
    replace (OriginalRows (set_StatusMsg _ m1)) with (OriginalRows m1) by now destruct m1.
    rewrite Eo, Ea. destruct (len (AllRows m) >? 0); now destruct m.
  - destruct (filter_rows _ _ _) as [rows|e|e] eqn:Ef; try discriminate.
    cbn [mbind result_bind] in Happ.
    destruct (UpdateVisibleColumns _) as [m1|e|e] eqn:E1; try discriminate.
    cbn [mbind result_bind] in Happ.
    destruct (index _ _) as [col|e|e]; try discriminate.
    cbn [mbind result_bind] in Happ. injection Happ as <-.
    apply UpdateVisibleColumns_rows in E1 as (Eo & Ea & _).
    replace (AllRows (set_StatusMsg _ m1)) with (AllRows m1) by now destruct m1.
    replace (OriginalRows (set_StatusMsg _ m1)) with (OriginalRows m1) by now destruct m1.
    rewrite Eo, Ea. apply filter_rows_inv in Ef. rewrite <- Ef. now destruct m.
Qed.

Lemma ApplyFilter_Ok (m : TableModel) :
  0 <= SortColumn m < len (TableColumns m) ->
  Forall (fun row => SortColumn m < len row) (AllRows m) ->
  exists m', ApplyFilter m = Ok m'.
Proof.
  intros Hcol Hrows. unfold ApplyFilter.
  destruct (String.eqb (FilterText m) "").
  - destruct (UpdateVisibleColumns_never_panics
                (if len (AllRows m) >? 0 then set_OriginalRows (AllRows m) m else m))
      as [m1 ->].
    cbn [mbind result_bind]. eauto.
  - destruct (filter_rows_Ok (AllRows m) (SortColumn m)
                (strings.ToLower (FilterText m))) as [rows ->]; [lia|done|].
    cbn [mbind result_bind].
    destruct (UpdateVisibleColumns_never_panics
                (set_OriginalRows rows (set_FilteredRows rows m))) as [m1 E1].
    rewrite E1. cbn [mbind result_bind].
    apply UpdateVisibleColumns_rows in E1 as (_ & _ & _ & Et & Es & _).
    destruct (index_Ok (TableColumns m1) (SortColumn m1)) as (col & -> & _).
    { rewrite Et, Es. now destruct m. }
    cbn [mbind result_bind]. eauto.
Qed.

(** C4: with a valid column index, a filter with the empty query
    installs the baseline rows as they are; with another query it
    installs exactly the baseline rows whose cell at the column contains
    the query, case ignored, in baseline order; and the outcome is a
    function of the baseline, the column and the query alone, whatever
    the active rows or an earlier filter left behind.  The baseline is
    [AllRows]; when it is empty the active rows are empty too. *)
Theorem ApplyFilter_from_baseline (m : TableModel) :
  (AllRows m = [] -> OriginalRows m = []) ->
  0 <= SortColumn m < len (TableColumns m) ->
  Forall (fun row => SortColumn m < len row) (AllRows m) ->
  exists m',
    ApplyFilter m = Ok m'
    /\ AllRows m' = AllRows m
    /\ (FilterText m = "" -> OriginalRows m' = AllRows m)
    /\ (FilterText m <> "" ->
        OriginalRows m'
        = List.filter (cell_matches (SortColumn m) (FilterText m)) (AllRows m))
    /\ (forall m0 m0',
          AllRows m0 = AllRows m -> SortColumn m0 = SortColumn m ->
          FilterText m0 = FilterText m ->
          (AllRows m0 = [] -> OriginalRows m0 = []) ->
          ApplyFilter m0 = Ok m0' ->
          OriginalRows m0' = OriginalRows m').
Proof.
  intros Hbase Hcol Hrows.
  destruct (ApplyFilter_Ok m Hcol Hrows) as [m' Happ].
  exists m'. split; [exact Happ|].
  destruct (ApplyFilter_rows m m' Happ) as [Ea Eo].
  assert (forall m1, (AllRows m1 = [] -> OriginalRows m1 = []) ->
            (if len (AllRows m1) >? 0 then AllRows m1 else OriginalRows m1) = AllRows m1)
    as Hrestore.
  { intros m1 Hb. rewrite Z.gtb_ltb. destruct (Z.ltb_spec 0 (len (AllRows m1))); [done|].
    assert (AllRows m1 = []) as E0
      by (apply len_nil_iff; pose proof (len_nonneg (AllRows m1)); lia).
    rewrite (Hb E0). now rewrite E0. }
  split; [exact Ea|]. split; [|split].
  - intros Hq. rewrite Eo, Hq. cbn. now apply Hrestore.
  - intros Hq. rewrite Eo. destruct (String.eqb_spec (FilterText m) ""); [done|done].
  - intros m0 m0' Ha Hs Hf Hb0 Happ0.
    destruct (ApplyFilter_rows m0 m0' Happ0) as [_ Eo0].
    rewrite Eo0, Eo, Hf, Hs. destruct (String.eqb (FilterText m) "").
    + rewrite (Hrestore m0 Hb0), (Hrestore m Hbase). exact Ha.
    + now rewrite Ha.
Qed.
End filter.

Lemma ApplyFilter_from_baseline_witness :
  exists m',
    @ApplyFilter plain_text (baseline_filter "a") = Ok m'
    /\ AllRows m' = AllRows (baseline_filter "a")
    /\ OriginalRows m' = [["1"; "Alice"; "30"]; ["3"; "Cara"; "25"]].
Proof.
  destruct (@ApplyFilter_from_baseline plain_text (baseline_filter "a"))
    as (m' & Happ & Ha & _ & Hq & _).
  - vm_compute. discriminate.
  - vm_compute. split; [discriminate|reflexivity].
  - vm_compute. repeat constructor.
  - exists m'. split; [exact Happ|]. split; [exact Ha|].
    rewrite Hq by discriminate. vm_compute. reflexivity.
Defined.

(** ** The placeholder row of an empty data set *)

Lemma map_Title_zip_with (headers : list string) : forall widths : list Z,
  length widths = length headers ->
  map table.Title (zip_with column_of headers widths) = headers.
Proof.
  induction headers as [|h hs IH]; intros [|w ws] Hl; simpl in *; try done.
  rewrite IH by lia. done.
Qed.

Lemma visible_row_replicate (n count : nat) (cell : string) :
  (count <= n)%nat -> (0 < n)%nat ->
  visible_row 0 count (replicate n cell) = replicate count cell.
Proof.
  intros Hle Hpos. unfold visible_row.
  replace (0 <? len (replicate n cell)) with true
    by (symmetry; apply Z.ltb_lt; unfold len; rewrite length_replicate; lia).
  cbn [Z.to_nat Nat.add].
  assert (forall j, (j + count <= n)%nat ->
            map (fun k => default "" (replicate n cell !! k)) (seq j count)
            = replicate count cell) as Hgen.
  { clear Hle. induction count as [|c IH]; intros j Hj; simpl; [done|].
    rewrite lookup_replicate_2 by lia. cbn. now rewrite IH by lia. }
  apply (Hgen 0%nat). lia.
Qed.

Lemma csv_cells_placeholder (n : nat) :
  map csv_cell (replicate n "无数据") = replicate n "无数据".
Proof. induction n as [|n IH]; simpl; [done|]. now rewrite IH. Qed.

(** C10: a load without data rows installs one placeholder row, each of
    its cells reading "无数据", as the active and the baseline rows, while
    the row count stays 0; the widget shows that row under the cursor,
    and the export writes it after the header line. *)
Theorem ShowTable_placeholder_row
    (termSize : option (Z * Z)) (data : TableData) (m : TableModel) :
  Rows data = [] ->
  ShowTable termSize data = Ok m ->
  let placeholder := replicate (length (Headers data)) "无数据" in
  let shown := replicate (Z.to_nat (MaxColumns m)) "无数据" in
  RowCount m = 0
  /\ OriginalRows m = [placeholder]
  /\ AllRows m = [placeholder]
  /\ table.Rows (Table m) = [shown]
  /\ table.Cursor (Table m) = 0
  /\ table.SelectedRow (Table m) = shown
  /\ (Headers data <> [] -> 1 <= MaxColumns m)
  /\ csv_bytes m
     = Fprintln (Fprintln "" (strings.Join (Headers data) ","))
                (strings.Join placeholder ",")
  /\ (forall d, mkdir_error d = None -> create_error d = None ->
        exists d', ExportToCSV d m = (d', None)
                   /\ files d' !! outputFile = Some (csv_bytes m)).
Proof.
  intros Hrows Hshow. cbv zeta.
  unfold ShowTable in Hshow. rewrite Hrows in Hshow. cbn [foldl len length Z.of_nat] in Hshow.
  change (0 =? 0) with true in Hshow. cbn [app] in Hshow.
  destruct (time.ParseDuration _) as [duration|]; [|discriminate].
  set (cols := zip_with column_of (Headers data)
                 (map (fun header => slen header + 2) (Headers data))) in *.
  set (placeholder := replicate (length (Headers data)) "无数据") in *.
  match type of Hshow with UpdateVisibleColumns ?x = _ => set (m0 := x) in * end.
  assert (TableColumns m0 = cols) as Ecols.
  { unfold m0. rewrite CalculateMaxColumns_eq. now destruct termSize as [[w h]|];
      [destruct (_ <? 10)|]. }
  assert (OriginalRows m0 = [placeholder] /\ AllRows m0 = [placeholder]
          /\ RowCount m0 = 0 /\ ScrollOffset m0 = 0) as (Eo & Ea & Er & Es).
  { unfold m0. rewrite CalculateMaxColumns_eq. now destruct termSize as [[w h]|];
      [destruct (_ <? 10)|]. }
  assert (length cols = length (Headers data)) as Hlc.
  { unfold cols. rewrite length_zip_with, length_map. lia. }
  assert (map table.Title cols = Headers data) as Htitles.
  { unfold cols. apply map_Title_zip_with. now rewrite length_map. }
  pose proof (UpdateVisibleColumns_frame m0 m Hshow) as Hframe.
  assert (RowCount m = 0 /\ OriginalRows m = [placeholder] /\ AllRows m = [placeholder]
          /\ TableColumns m = cols) as (Hr & Ho & Hall & Hc).
  { destruct (UpdateVisibleColumns_rows m0 m Hshow) as (-> & -> & _ & -> & _).
    split; [|done]. rewrite <- Er, Hframe. now destruct m0. }
  assert (csv_bytes m
          = Fprintln (Fprintln "" (strings.Join (Headers data) ","))
                     (strings.Join placeholder ",")) as Hcsv.
  { unfold csv_bytes. rewrite Ho, Hc, Htitles. cbn [foldl].
    unfold placeholder. now rewrite csv_cells_placeholder. }
  split; [exact Hr|]. split; [exact Ho|]. split; [exact Hall|].
  assert (table.Rows (Table m) = [replicate (Z.to_nat (MaxColumns m)) "无数据"]
          /\ table.Cursor (Table m) = 0
          /\ (Headers data <> [] -> 1 <= MaxColumns m)) as (Hrows' & Hcur & Hmax).
  { destruct (Headers data) as [|h hs] eqn:Eh.
    - assert (cols = []) as Ec0 by (destruct cols; [done|simpl in Hlc; lia]).
      unfold UpdateVisibleColumns in Hshow. rewrite Ecols, Ec0 in Hshow.
      cbn in Hshow. injection Hshow as <-.
      unfold m0. rewrite CalculateMaxColumns_eq.
      assert (cols = []) as -> by exact Ec0.
      destruct termSize as [[w h]|]; [destruct (_ <? 10)|]; cbn; done.
    - destruct (UpdateVisibleColumns_rebuild m0) as (E & Hoff & Hcount).
      { rewrite Ecols. destruct cols; [simpl in Hlc; lia|done]. }
      rewrite E in Hshow. injection Hshow as <-.
      rewrite Table_set_Table.
      replace (MaxColumns (set_Table _ _)) with (settled_count m0) by now destruct m0.
      assert (settled_offset m0 = 0) as Eoff.
      { unfold settled_offset, table.clamp. rewrite Es. lia. }
      rewrite Eoff in *. unfold rebuilt_table, table.Rows, table.Cursor.
      cbn [table.rows table.cursor]. rewrite Eo, Eoff. cbn [map].
      rewrite length_window by lia.
      unfold placeholder. rewrite visible_row_replicate.
      + split; [done|]. split; [|lia]. unfold len. cbn.
        unfold table.clamp, table.Cursor.
        replace (table.cursor (Table m0)) with 0; [reflexivity|].
        unfold m0. rewrite CalculateMaxColumns_eq.
        now destruct termSize as [[w h']|]; [destruct (_ <? 10)|].
      + rewrite Ecols in Hcount. unfold len in Hcount. rewrite Hlc in Hcount. lia.
      + simpl. lia. }
  split; [exact Hrows'|]. split; [exact Hcur|]. split.
  { unfold table.SelectedRow. unfold table.Rows, table.Cursor in *.
    rewrite Hrows', Hcur. reflexivity. }
  split; [exact Hmax|]. split; [exact Hcsv|].
  intros d Hmk Hcr. unfold ExportToCSV. rewrite Hmk, Hcr.
  eexists. split; [reflexivity|]. cbn [files]. apply lookup_insert_eq.
Qed.

Lemma ShowTable_placeholder_row_witness :
  exists m,
    ShowTable None no_rows = Ok m
    /\ RowCount m = 0
    /\ OriginalRows m = [["无数据"; "无数据"]]
    /\ table.SelectedRow (Table m) = ["无数据"; "无数据"]
    /\ csv_bytes m = Fprintln (Fprintln "" "ID,Name") "无数据,无数据".
Proof.
  exists (loaded no_rows).
  assert (ShowTable None no_rows = Ok (loaded no_rows)) as Hshow by (vm_compute; reflexivity).
  destruct (ShowTable_placeholder_row None no_rows (loaded no_rows) eq_refl Hshow)
    as (Hr & Ho & _ & _ & _ & Hsel & _ & Hcsv & _).
  split; [exact Hshow|]. split; [exact Hr|]. split; [exact Ho|].
  split; [exact Hsel|exact Hcsv].
Defined.

(** ** The export *)

Lemma string_append_assoc (a b c : string) :
  String.append (String.append a b) c = String.append a (String.append b c).
Proof.
  induction a as [|x a IH]; [reflexivity|].
  change (String x (String.append (String.append a b) c)
          = String x (String.append a (String.append b c))).
  now rewrite IH.
Qed.

Lemma string_append_empty_r (a : string) : String.append a "" = a.
Proof.
  induction a as [|x a IH]; [reflexivity|].
  change (String x (String.append a "") = String x a). now rewrite IH.
Qed.

Lemma foldl_Fprintln_prefix {A} (line : A -> string) (rows : list A) : forall f,
  exists body,
    foldl (fun f row => Fprintln f (line row)) f rows = String.append f body.
Proof.
  induction rows as [|row rest IH]; intros f; simpl.
  - exists "". now rewrite string_append_empty_r.
  - destruct (IH (Fprintln f (line row))) as [body ->].
    unfold Fprintln. rewrite string_append_assoc. eauto.
Qed.

(** C9: the file opens with the titles joined by commas as they are,
    whatever they hold, so a title with a comma reads back as two fields;
    the cells are quoted, and read back as they were. *)
Theorem ExportToCSV_header_not_quoted :
  (forall m, exists body,
      csv_bytes m
      = String.append (strings.Join (map table.Title (TableColumns m)) ",")
          (String.append newline body))
  /\ csv_bytes (loaded comma_header) = Fprintln (Fprintln "" "a,b") "1"
  /\ csv_parse (csv_bytes (loaded comma_header)) = [["a"; "b"]; ["1"]]
  /\ csv_parse (csv_bytes (loaded comma_header))
     <> Headers comma_header :: Rows comma_header
  /\ csv_parse (csv_bytes (loaded special_cells))
     = Headers special_cells :: Rows special_cells.
Proof.
  split.
  - intros m. unfold csv_bytes.
    destruct (foldl_Fprintln_prefix
                (fun row => strings.Join (map csv_cell row) ",") (OriginalRows m)
                (Fprintln "" (strings.Join (map table.Title (TableColumns m)) ",")))
      as [body ->].
    exists body. unfold Fprintln.
    change (String.append "" ?x) with x. now rewrite string_append_assoc.
  - split; [vm_compute; reflexivity|].
    split; [vm_compute; reflexivity|].
    split; [vm_compute; discriminate|].
    vm_compute; reflexivity.
Qed.

(** * Further properties of the code *)

(** ** Field updates

    A setter rebuilds the record from the fields of its argument, so once
    the argument is written as a record every setter and projection over
    it computes. *)

Lemma set_Table_eta v m :
  set_Table v m
  = Build_TableModel v (Title m) (RowCount m) (QueryDuration m) (ShowHelp m) (SortColumn
      m) (SortAsc m) (OriginalRows m) (FilteredRows m) (AllRows m) (FilterText m) (Filtering
      m) (StatusMsg m) (TableColumns m) (ScrollOffset m) (MaxColumns m) (Width m) (Height m)
      (TextInput m).
Proof. now destruct m. Qed.

Lemma set_Title_eta v m :
  set_Title v m
  = Build_TableModel (Table m) v (RowCount m) (QueryDuration m) (ShowHelp m) (SortColumn
      m) (SortAsc m) (OriginalRows m) (FilteredRows m) (AllRows m) (FilterText m) (Filtering
      m) (StatusMsg m) (TableColumns m) (ScrollOffset m) (MaxColumns m) (Width m) (Height m)
      (TextInput m).
Proof. now destruct m. Qed.

Lemma set_RowCount_eta v m :
  set_RowCount v m
  = Build_TableModel (Table m) (Title m) v (QueryDuration m) (ShowHelp m) (SortColumn m)
      (SortAsc m) (OriginalRows m) (FilteredRows m) (AllRows m) (FilterText m) (Filtering m)
      (StatusMsg m) (TableColumns m) (ScrollOffset m) (MaxColumns m) (Width m) (Height m)
      (TextInput m).
Proof. now destruct m. Qed.

Lemma set_QueryDuration_eta v m :
  set_QueryDuration v m
  = Build_TableModel (Table m) (Title m) (RowCount m) v (ShowHelp m) (SortColumn m)
      (SortAsc m) (OriginalRows m) (FilteredRows m) (AllRows m) (FilterText m) (Filtering m)
      (StatusMsg m) (TableColumns m) (ScrollOffset m) (MaxColumns m) (Width m) (Height m)
      (TextInput m).
Proof. now destruct m. Qed.

Lemma set_ShowHelp_eta v m :
  set_ShowHelp v m
  = Build_TableModel (Table m) (Title m) (RowCount m) (QueryDuration m) v (SortColumn m)
      (SortAsc m) (OriginalRows m) (FilteredRows m) (AllRows m) (FilterText m) (Filtering m)
      (StatusMsg m) (TableColumns m) (ScrollOffset m) (MaxColumns m) (Width m) (Height m)
      (TextInput m).
Proof. now destruct m. Qed.

Lemma set_SortColumn_eta v m :
  set_SortColumn v m
  = Build_TableModel (Table m) (Title m) (RowCount m) (QueryDuration m) (ShowHelp m) v
      (SortAsc m) (OriginalRows m) (FilteredRows m) (AllRows m) (FilterText m) (Filtering m)
      (StatusMsg m) (TableColumns m) (ScrollOffset m) (MaxColumns m) (Width m) (Height m)
      (TextInput m).
Proof. now destruct m. Qed.

Lemma set_SortAsc_eta v m :
  set_SortAsc v m
  = Build_TableModel (Table m) (Title m) (RowCount m) (QueryDuration m) (ShowHelp m)
      (SortColumn m) v (OriginalRows m) (FilteredRows m) (AllRows m) (FilterText m)
      (Filtering m) (StatusMsg m) (TableColumns m) (ScrollOffset m) (MaxColumns m) (Width m)
      (Height m) (TextInput m).
Proof. now destruct m. Qed.

Lemma set_OriginalRows_eta v m :
  set_OriginalRows v m
  = Build_TableModel (Table m) (Title m) (RowCount m) (QueryDuration m) (ShowHelp m)
      (SortColumn m) (SortAsc m) v (FilteredRows m) (AllRows m) (FilterText m) (Filtering m)
      (StatusMsg m) (TableColumns m) (ScrollOffset m) (MaxColumns m) (Width m) (Height m)
      (TextInput m).
Proof. now destruct m. Qed.

Lemma set_FilteredRows_eta v m :
  set_FilteredRows v m
  = Build_TableModel (Table m) (Title m) (RowCount m) (QueryDuration m) (ShowHelp m)
      (SortColumn m) (SortAsc m) (OriginalRows m) v (AllRows m) (FilterText m) (Filtering m)
      (StatusMsg m) (TableColumns m) (ScrollOffset m) (MaxColumns m) (Width m) (Height m)
      (TextInput m).
Proof. now destruct m. Qed.

Lemma set_AllRows_eta v m :
  set_AllRows v m
  = Build_TableModel (Table m) (Title m) (RowCount m) (QueryDuration m) (ShowHelp m)
      (SortColumn m) (SortAsc m) (OriginalRows m) (FilteredRows m) v (FilterText m)
      (Filtering m) (StatusMsg m) (TableColumns m) (ScrollOffset m) (MaxColumns m) (Width m)
      (Height m) (TextInput m).
Proof. now destruct m. Qed.

Lemma set_FilterText_eta v m :
  set_FilterText v m
  = Build_TableModel (Table m) (Title m) (RowCount m) (QueryDuration m) (ShowHelp m)
      (SortColumn m) (SortAsc m) (OriginalRows m) (FilteredRows m) (AllRows m) v (Filtering
      m) (StatusMsg m) (TableColumns m) (ScrollOffset m) (MaxColumns m) (Width m) (Height m)
      (TextInput m).
Proof. now destruct m. Qed.

Lemma set_Filtering_eta v m :
  set_Filtering v m
  = Build_TableModel (Table m) (Title m) (RowCount m) (QueryDuration m) (ShowHelp m)
      (SortColumn m) (SortAsc m) (OriginalRows m) (FilteredRows m) (AllRows m) (FilterText
      m) v (StatusMsg m) (TableColumns m) (ScrollOffset m) (MaxColumns m) (Width m) (Height
      m) (TextInput m).
Proof. now destruct m. Qed.

Lemma set_StatusMsg_eta v m :
  set_StatusMsg v m
  = Build_TableModel (Table m) (Title m) (RowCount m) (QueryDuration m) (ShowHelp m)
      (SortColumn m) (SortAsc m) (OriginalRows m) (FilteredRows m) (AllRows m) (FilterText
      m) (Filtering m) v (TableColumns m) (ScrollOffset m) (MaxColumns m) (Width m) (Height
      m) (TextInput m).
Proof. now destruct m. Qed.

Lemma set_TableColumns_eta v m :
  set_TableColumns v m
  = Build_TableModel (Table m) (Title m) (RowCount m) (QueryDuration m) (ShowHelp m)
      (SortColumn m) (SortAsc m) (OriginalRows m) (FilteredRows m) (AllRows m) (FilterText
      m) (Filtering m) (StatusMsg m) v (ScrollOffset m) (MaxColumns m) (Width m) (Height m)
      (TextInput m).
Proof. now destruct m. Qed.

Lemma set_ScrollOffset_eta v m :
  set_ScrollOffset v m
  = Build_TableModel (Table m) (Title m) (RowCount m) (QueryDuration m) (ShowHelp m)
      (SortColumn m) (SortAsc m) (OriginalRows m) (FilteredRows m) (AllRows m) (FilterText
      m) (Filtering m) (StatusMsg m) (TableColumns m) v (MaxColumns m) (Width m) (Height m)
      (TextInput m).
Proof. now destruct m. Qed.

Lemma set_MaxColumns_eta v m :
  set_MaxColumns v m
  = Build_TableModel (Table m) (Title m) (RowCount m) (QueryDuration m) (ShowHelp m)
      (SortColumn m) (SortAsc m) (OriginalRows m) (FilteredRows m) (AllRows m) (FilterText
      m) (Filtering m) (StatusMsg m) (TableColumns m) (ScrollOffset m) v (Width m) (Height
      m) (TextInput m).
Proof. now destruct m. Qed.

Lemma set_Width_eta v m :
  set_Width v m
  = Build_TableModel (Table m) (Title m) (RowCount m) (QueryDuration m) (ShowHelp m)
      (SortColumn m) (SortAsc m) (OriginalRows m) (FilteredRows m) (AllRows m) (FilterText
      m) (Filtering m) (StatusMsg m) (TableColumns m) (ScrollOffset m) (MaxColumns m) v
      (Height m) (TextInput m).
Proof. now destruct m. Qed.

Lemma set_Height_eta v m :
  set_Height v m
  = Build_TableModel (Table m) (Title m) (RowCount m) (QueryDuration m) (ShowHelp m)
      (SortColumn m) (SortAsc m) (OriginalRows m) (FilteredRows m) (AllRows m) (FilterText
      m) (Filtering m) (StatusMsg m) (TableColumns m) (ScrollOffset m) (MaxColumns m) (Width
      m) v (TextInput m).
Proof. now destruct m. Qed.

Lemma set_TextInput_eta v m :
  set_TextInput v m
  = Build_TableModel (Table m) (Title m) (RowCount m) (QueryDuration m) (ShowHelp m)
      (SortColumn m) (SortAsc m) (OriginalRows m) (FilteredRows m) (AllRows m) (FilterText
      m) (Filtering m) (StatusMsg m) (TableColumns m) (ScrollOffset m) (MaxColumns m) (Width
      m) (Height m) v.
Proof. now destruct m. Qed.

Lemma TableModel_eta (m : TableModel) :
  Build_TableModel (Table m) (Title m) (RowCount m) (QueryDuration m) (ShowHelp m)
    (SortColumn m) (SortAsc m) (OriginalRows m) (FilteredRows m) (AllRows m)
    (FilterText m) (Filtering m) (StatusMsg m) (TableColumns m) (ScrollOffset m)
    (MaxColumns m) (Width m) (Height m) (TextInput m) = m.
Proof. now destruct m. Qed.

Ltac is_setter s :=
  lazymatch s with
  | set_Table => idtac
  | set_Title => idtac
  | set_RowCount => idtac
  | set_QueryDuration => idtac
  | set_ShowHelp => idtac
  | set_SortColumn => idtac
  | set_SortAsc => idtac
  | set_OriginalRows => idtac
  | set_FilteredRows => idtac
  | set_AllRows => idtac
  | set_FilterText => idtac
  | set_Filtering => idtac
  | set_StatusMsg => idtac
  | set_TableColumns => idtac
  | set_ScrollOffset => idtac
  | set_MaxColumns => idtac
  | set_Width => idtac
  | set_Height => idtac
  | set_TextInput => idtac
  end.

(** The equation of the setter [s] at [v] and [m]. *)
Ltac setter_eta s v m :=
  lazymatch s with
  | set_Table => constr:(set_Table_eta v m)
  | set_Title => constr:(set_Title_eta v m)
  | set_RowCount => constr:(set_RowCount_eta v m)
  | set_QueryDuration => constr:(set_QueryDuration_eta v m)
  | set_ShowHelp => constr:(set_ShowHelp_eta v m)
  | set_SortColumn => constr:(set_SortColumn_eta v m)
  | set_SortAsc => constr:(set_SortAsc_eta v m)
  | set_OriginalRows => constr:(set_OriginalRows_eta v m)
  | set_FilteredRows => constr:(set_FilteredRows_eta v m)
  | set_AllRows => constr:(set_AllRows_eta v m)
  | set_FilterText => constr:(set_FilterText_eta v m)
  | set_Filtering => constr:(set_Filtering_eta v m)
  | set_StatusMsg => constr:(set_StatusMsg_eta v m)
  | set_TableColumns => constr:(set_TableColumns_eta v m)
  | set_ScrollOffset => constr:(set_ScrollOffset_eta v m)
  | set_MaxColumns => constr:(set_MaxColumns_eta v m)
  | set_Width => constr:(set_Width_eta v m)
  | set_Height => constr:(set_Height_eta v m)
  | set_TextInput => constr:(set_TextInput_eta v m)
  end.

Ltac not_a_record m :=
  lazymatch m with
  | Build_TableModel _ _ _ _ _ _ _ _ _ _ _ _ _ _ _ _ _ _ _ => fail
  | ?s _ _ => tryif is_setter s then fail else idtac
  | _ => idtac
  end.

Ltac cbn_fields :=
  cbn [set_Table set_Title set_RowCount set_QueryDuration set_ShowHelp set_SortColumn
       set_SortAsc set_OriginalRows set_FilteredRows set_AllRows set_FilterText
       set_Filtering set_StatusMsg set_TableColumns set_ScrollOffset set_MaxColumns
       set_Width set_Height set_TextInput
       Table Title RowCount QueryDuration ShowHelp SortColumn SortAsc OriginalRows
       FilteredRows AllRows FilterText Filtering StatusMsg TableColumns ScrollOffset
       MaxColumns Width Height TextInput].

Ltac cbn_fields_in H :=
  cbn [set_Table set_Title set_RowCount set_QueryDuration set_ShowHelp set_SortColumn
       set_SortAsc set_OriginalRows set_FilteredRows set_AllRows set_FilterText
       set_Filtering set_StatusMsg set_TableColumns set_ScrollOffset set_MaxColumns
       set_Width set_Height set_TextInput
       Table Title RowCount QueryDuration ShowHelp SortColumn SortAsc OriginalRows
       FilteredRows AllRows FilterText Filtering StatusMsg TableColumns ScrollOffset
       MaxColumns Width Height TextInput] in H.

(** Reduce the setters and projections of the goal, or of [H]. *)
Ltac fields :=
  repeat match goal with
         | |- context [?s ?v ?m] =>
             is_setter s; not_a_record m;
             let E := setter_eta s v m in rewrite E; cbn_fields
         end;
  cbn_fields.

Ltac fields_in H :=
  repeat match type of H with
         | context [?s ?v ?m] =>
             is_setter s; not_a_record m;
             let E := setter_eta s v m in rewrite E in H; cbn_fields_in H
         end;
  cbn_fields_in H.

Lemma set_Table_id (m : TableModel) : set_Table (Table m) m = m.
Proof. now destruct m. Qed.

(** Closed facts about the examples, by evaluation. *)
Ltac evaluated :=
  vm_compute; repeat split; intros; try discriminate; try reflexivity;
  try (split; [discriminate|reflexivity]).

(** ** The viewport after a rebuild *)

Lemma Forall_visible_row (off : Z) (n : nat) (rs : list table.Row) :
  Forall (fun r => r = [] \/ length r = n) (map (visible_row off n) rs).
Proof.
  induction rs as [|row rest IH]; simpl; constructor; [|exact IH].
  unfold visible_row. destruct (off <? len row); [right|left; done].
  now rewrite length_map, length_seq.
Qed.

(** X1: a rebuild over a non-empty schema leaves the offset inside the
    schema (unchanged when it already was), at least one visible column,
    and a window that ends at or before the last column; the widget then
    holds exactly the columns of that window and one row per active row,
    each either empty or as long as the window. *)
Theorem rebuild_settles_viewport (m m' : TableModel) :
  TableColumns m <> [] ->
  UpdateVisibleColumns m = Ok m' ->
  0 <= ScrollOffset m' < len (TableColumns m)
  /\ 1 <= MaxColumns m'
  /\ ScrollOffset m' + MaxColumns m' <= len (TableColumns m)
  /\ (0 <= ScrollOffset m < len (TableColumns m) -> ScrollOffset m' = ScrollOffset m)
  /\ table.cols (Table m') = window (TableColumns m) (ScrollOffset m') (MaxColumns m')
  /\ len (table.cols (Table m')) = MaxColumns m'
  /\ table.rows (Table m')
     = map (visible_row (ScrollOffset m') (Z.to_nat (MaxColumns m'))) (OriginalRows m)
  /\ Forall (fun r => r = [] \/ len r = MaxColumns m') (table.rows (Table m')).
Proof.
  intros Hcols Hupd.
  destruct (UpdateVisibleColumns_rebuild m Hcols) as (E & Hoff & Hcount).
  rewrite E in Hupd. injection Hupd as <-. fields.
  assert (length (window (TableColumns m) (settled_offset m) (settled_count m))
          = Z.to_nat (settled_count m)) as Hlw by (apply length_window; lia).
  split; [done|]. split; [lia|]. split; [lia|]. split.
  { intros Hin. unfold settled_offset, table.clamp. lia. }
  unfold rebuilt_table. cbn [table.cols table.rows]. rewrite Hlw.
  split; [done|]. split; [unfold len; rewrite Hlw; lia|]. split; [done|].
  eapply Forall_impl; [apply Forall_visible_row|].
  cbn. intros r [-> | Hr]; [now left|right]. unfold len. rewrite Hr. lia.
Qed.

Lemma rebuild_settles_viewport_witness :
  exists m',
    UpdateVisibleColumns (set_ScrollOffset 7 (loaded baseline)) = Ok m'
    /\ ScrollOffset m' = 2
    /\ MaxColumns m' = 1
    /\ table.rows (Table m') = [["30"]; ["25"]; ["25"]].
Proof.
  assert (TableColumns (set_ScrollOffset 7 (loaded baseline)) <> []) as H1
    by (vm_compute; discriminate).
  destruct (UpdateVisibleColumns_never_panics (set_ScrollOffset 7 (loaded baseline)))
    as [m' H2].
  destruct (rebuild_settles_viewport _ m' H1 H2) as (_ & _ & _ & _ & _ & _ & Hrows & _).
  exists m'. split; [exact H2|].
  assert (m' = match UpdateVisibleColumns (set_ScrollOffset 7 (loaded baseline)) with
               | Ok x => x | _ => NewTableModel end) as -> by now rewrite H2.
  vm_compute. repeat split.
Defined.

(** X2: rebuilding twice is rebuilding once. *)
Theorem rebuild_idempotent (m m' : TableModel) :
  UpdateVisibleColumns m = Ok m' -> UpdateVisibleColumns m' = Ok m'.
Proof.
  intros Hupd. destruct (TableColumns m) as [|c0 cs] eqn:Ecols.
  - unfold UpdateVisibleColumns in Hupd. rewrite Ecols in Hupd. cbn in Hupd.
    injection Hupd as <-. unfold UpdateVisibleColumns. now rewrite Ecols.
  - assert (TableColumns m <> []) as Hcols by now rewrite Ecols.
    destruct (UpdateVisibleColumns_rebuild m Hcols) as (E & Hoff & Hcount).
    rewrite E in Hupd. injection Hupd as Hm'.
    assert (TableColumns m' = TableColumns m /\ ScrollOffset m' = settled_offset m
            /\ MaxColumns m' = settled_count m /\ OriginalRows m' = OriginalRows m
            /\ Width m' = Width m /\ Height m' = Height m
            /\ Table m' = rebuilt_table m) as (Et & Eo & Ec & Er & Ew & Eh & ETab).
    { rewrite <- Hm'. fields. repeat split. }
    assert (settled_offset m' = settled_offset m) as Eso.
    { unfold settled_offset at 1. rewrite Et, Eo. apply clamp_in_range. lia. }
    assert (settled_count m' = settled_count m) as Esc.
    { unfold settled_count at 1. rewrite Eso, Et, Ew. reflexivity. }
    assert (rebuilt_table m' = rebuilt_table m) as Ert.
    { unfold rebuilt_table at 1. rewrite Eso, Esc, Et, Er, Ew, Eh, ETab.
      unfold rebuilt_table at 3. unfold table.Cursor, table.Focused.
      cbn [table.cursor table.focus]. f_equal.
      set (n := len _).
      destruct (Z.ltb_spec 0 n) as [Hpos|Hz]; rewrite Z.gtb_ltb.
      - replace (0 <? n) with true by (symmetry; apply Z.ltb_lt; lia).
        assert (table.cursor (rebuilt_table m)
                = table.clamp (table.cursor (Table m)) 0 (n - 1)) as ->.
        { unfold rebuilt_table, table.Cursor. cbn [table.cursor]. fold n.
          rewrite Z.gtb_ltb.
          now replace (0 <? n) with true by (symmetry; apply Z.ltb_lt; lia). }
        unfold table.clamp. lia.
      - replace (0 <? n) with false by (symmetry; apply Z.ltb_ge; lia). done. }
    destruct (UpdateVisibleColumns_rebuild m') as (E' & _); [now rewrite Et|].
    rewrite E', Ert, Eso, Esc. f_equal.
    rewrite <- ETab, <- Ec, <- Eo. now destruct m'.
Qed.

Lemma rebuild_idempotent_witness :
  exists m',
    UpdateVisibleColumns (set_ScrollOffset 7 (loaded baseline)) = Ok m'
    /\ UpdateVisibleColumns m' = Ok m'.
Proof.
  destruct (UpdateVisibleColumns_never_panics (set_ScrollOffset 7 (loaded baseline)))
    as [m' E].
  exists m'. split; [exact E|exact (rebuild_idempotent _ _ E)].
Defined.

(** ** The cursor guard *)

Lemma EnsureCursorVisible_eq (m : TableModel) :
  EnsureCursorVisible m
  = set_Table (table.set_cursor (guarded_cursor (Table m)) (Table m)) m.
Proof.
  unfold EnsureCursorVisible, guarded_cursor, table.Cursor, table.Rows.
  pose proof (len_nonneg (table.rows (Table m))) as Hn.
  destruct (Z.eqb_spec (len (table.rows (Table m))) 0) as [E0|Hne].
  { now rewrite table_set_cursor_id, set_Table_id. }
  destruct (Z.ltb_spec (table.cursor (Table m)) 0) as [Hneg|Hnn].
  { unfold table.SetCursor. now rewrite clamp_in_range by lia. }
  rewrite Z.geb_leb.
  destruct (Z.leb_spec (len (table.rows (Table m))) (table.cursor (Table m))) as [Hge|Hlt].
  { unfold table.SetCursor. now rewrite clamp_in_range by lia. }
  assert (table.SetCursor (table.cursor (Table m)) (Table m) = Table m) as Esame.
  { unfold table.SetCursor. rewrite clamp_in_range by lia. apply table_set_cursor_id. }
  rewrite Esame, set_Table_id.
  destruct (Z.eqb_spec (len (table.SelectedRow (Table m))) 0) as [Esel|Hsel].
  - replace (len (table.rows (Table m)) >? 0) with true
      by (symmetry; rewrite Z.gtb_ltb; apply Z.ltb_lt; lia).
    cbn [andb]. unfold table.SetCursor. now rewrite clamp_in_range by lia.
  - now rewrite table_set_cursor_id, set_Table_id.
Qed.

(** X3: the guard only moves the cursor of the widget.  On a widget with
    rows it ends with the cursor on a row; a cursor that selects a
    non-empty row stays, a cursor on an empty row goes to the first row,
    a negative one to the first row and one past the end to the last. *)
Theorem EnsureCursorVisible_guard (m : TableModel) :
  let t := Table m in
  let t' := Table (EnsureCursorVisible m) in
  EnsureCursorVisible m = set_Table (table.set_cursor (table.cursor t') t) m
  /\ (table.rows t = [] -> EnsureCursorVisible m = m)
  /\ (table.rows t <> [] -> 0 <= table.cursor t' < len (table.rows t))
  /\ (0 <= table.cursor t < len (table.rows t) ->
      table.SelectedRow t <> [] -> EnsureCursorVisible m = m)
  /\ (0 <= table.cursor t < len (table.rows t) ->
      table.SelectedRow t = [] -> table.cursor t' = 0)
  /\ (table.cursor t < 0 -> table.rows t <> [] -> table.cursor t' = 0)
  /\ (len (table.rows t) <= table.cursor t -> table.rows t <> [] ->
      table.cursor t' = len (table.rows t) - 1).
Proof.
  cbv zeta. rewrite EnsureCursorVisible_eq, Table_set_Table.
  cbn [table.set_cursor table.cursor].
  pose proof (len_nonneg (table.rows (Table m))) as Hn.
  pose proof (len_nil_iff (table.rows (Table m))) as Hnil.
  pose proof (len_nil_iff (table.SelectedRow (Table m))) as Hsel.
  assert (forall c, c = table.cursor (Table m) ->
                    set_Table (table.set_cursor c (Table m)) m = m) as Hid.
  { intros c ->. now rewrite table_set_cursor_id, set_Table_id. }
  split; [done|].
  split. { intros E. apply Hid. unfold guarded_cursor. apply Hnil in E. now rewrite E. }
  assert (table.rows (Table m) <> [] -> len (table.rows (Table m)) <> 0) as Hne
    by (intros E E0; apply E, Hnil, E0).
  unfold guarded_cursor. rewrite Z.geb_leb.
  split. { intros E. apply Hne in E. ztest; lia. }
  split. { intros Hc E. apply Hid.
           assert (len (table.SelectedRow (Table m)) <> 0) by (intros E0; apply E, Hsel, E0).
           ztest; lia. }
  split. { intros Hc E. apply Hsel in E. ztest; lia. }
  split. { intros Hc E. apply Hne in E. ztest; lia. }
  intros Hc E. apply Hne in E. ztest; lia.
Qed.

Lemma EnsureCursorVisible_guard_witness :
  table.cursor (Table (EnsureCursorVisible
    (set_Table (table.set_cursor 9 (Table (loaded baseline))) (loaded baseline)))) = 2.
Proof.
  apply (EnsureCursorVisible_guard
    (set_Table (table.set_cursor 9 (Table (loaded baseline))) (loaded baseline)));
    vm_compute; discriminate.
Defined.

(** ** The column count and the width *)

Lemma accommodated_monotone cols : forall W W' total,
  W <= W' -> accommodated cols W total <= accommodated cols W' total.
Proof.
  induction cols as [|col rest IH]; intros W W' total HW; simpl; [lia|].
  pose proof (accommodated_bounds rest W' (total + (table.Width col + 2))).
  specialize (IH W W' (total + (table.Width col + 2)) HW).
  ztest; lia.
Qed.

(** X4: the count never exceeds the columns left from the offset on, and
    a wider terminal never shows fewer columns. *)
Theorem CalculateMaxColumns_monotone (m : TableModel) (width : Z) :
  0 <= MaxColumns (CalculateMaxColumns m)
       <= len (drop (Z.to_nat (ScrollOffset m)) (TableColumns m))
  /\ (Width m <= width ->
      MaxColumns (CalculateMaxColumns m)
      <= MaxColumns (CalculateMaxColumns (set_Width width m))).
Proof.
  rewrite !CalculateMaxColumns_count. fields.
  unfold computeVisibleColumnCount.
  set (from := drop (Z.to_nat (ScrollOffset m)) (TableColumns m)).
  pose proof (accommodated_bounds from (Width m) 0) as Hb.
  split.
  - destruct from as [|c from']; [exact Hb|].
    assert (1 <= len (c :: from')) by (unfold len; simpl; lia).
    ztest; lia.
  - intros HW. pose proof (accommodated_monotone from (Width m) width 0 HW) as Hm.
    pose proof (accommodated_bounds from width 0) as Hb'.
    destruct from as [|c from']; [exact Hm|]. ztest; lia.
Qed.

Lemma CalculateMaxColumns_monotone_witness :
  MaxColumns (CalculateMaxColumns (set_Width 30 (loaded baseline)))
  <= MaxColumns (CalculateMaxColumns (set_Width 40 (set_Width 30 (loaded baseline)))).
Proof.
  apply (CalculateMaxColumns_monotone (set_Width 30 (loaded baseline)) 40).
  vm_compute. discriminate.
Defined.

(** ** The view kept in step with the data *)

Lemma windowed_ext (m m' : TableModel) :
  TableColumns m' = TableColumns m -> ScrollOffset m' = ScrollOffset m ->
  MaxColumns m' = MaxColumns m -> Width m' = Width m ->
  OriginalRows m' = OriginalRows m ->
  table.cols (Table m') = table.cols (Table m) ->
  table.rows (Table m') = table.rows (Table m) ->
  windowed m -> windowed m'.
Proof.
  unfold windowed. intros -> -> -> -> -> -> ->. exact id.
Qed.

Lemma in_step_ext (m m' : TableModel) :
  TableColumns m' = TableColumns m -> ScrollOffset m' = ScrollOffset m ->
  MaxColumns m' = MaxColumns m -> Width m' = Width m ->
  OriginalRows m' = OriginalRows m -> Table m' = Table m ->
  in_step m -> in_step m'.
Proof.
  unfold in_step. intros Hc Ho Hm Hw Hr Ht [Hwin Hcur]. split.
  - apply (windowed_ext m); auto; now rewrite Ht.
  - now rewrite Hr, Ht.
Qed.

Lemma windowed_columns (m : TableModel) : windowed m -> TableColumns m <> [].
Proof.
  intros [Hoff _] E. rewrite E in Hoff. unfold len in Hoff. simpl in Hoff. lia.
Qed.

Lemma windowed_rows (m : TableModel) :
  windowed m -> len (table.rows (Table m)) = len (OriginalRows m).
Proof. intros (_ & _ & _ & ->). unfold len. now rewrite length_map. Qed.

Lemma rebuild_in_step (m m' : TableModel) :
  TableColumns m <> [] -> UpdateVisibleColumns m = Ok m' -> in_step m'.
Proof.
  intros Hcols Hupd.
  destruct (UpdateVisibleColumns_rebuild m Hcols) as (E & Hoff & Hcount).
  rewrite E in Hupd. injection Hupd as <-.
  assert (length (window (TableColumns m) (settled_offset m) (settled_count m))
          = Z.to_nat (settled_count m)) as Hlw by (apply length_window; lia).
  unfold in_step, windowed. fields.
  split; [split; [done|split; [done|split]]|].
  - done.
  - unfold rebuilt_table. cbn [table.rows]. now rewrite Hlw.
  - intros Hrows. apply cursor_rebuilt_table_range.
    pose proof (len_nonneg (OriginalRows m)). pose proof (len_nil_iff (OriginalRows m)).
    destruct (Z.eq_dec (len (OriginalRows m)) 0); [tauto|lia].
Qed.

Lemma table_Update_shape (t : table.Model) (msg : Msg) :
  exists c, table.Update t msg = table.set_cursor c t.
Proof.
  unfold table.Update, table.GotoTop, table.GotoBottom, table.MoveUp, table.MoveDown.
  destruct (negb (table.focus t)); [exists (table.cursor t); now rewrite table_set_cursor_id|].
  destruct msg as [k|w h]; [|exists (table.cursor t); now rewrite table_set_cursor_id].
  repeat match goal with
         | |- context [if ?b then _ else _] => destruct b; [eauto|]
         end.
  exists (table.cursor t). now rewrite table_set_cursor_id.
Qed.

Lemma table_Update_iter_shape (msg : Msg) (n : nat) (t : table.Model) :
  exists c, Nat.iter n (fun t => table.Update t msg) t = table.set_cursor c t.
Proof.
  induction n as [|n [c IH]]; simpl.
  - exists (table.cursor t). now rewrite table_set_cursor_id.
  - rewrite IH. destruct (table_Update_shape (table.set_cursor c t) msg) as [c' ->].
    now exists c'.
Qed.

(** What [Update] does last on most paths: the widget handles the
    message and the cursor is checked. *)
Lemma finish_in_step (m : TableModel) (c : Z) :
  windowed m ->
  in_step (EnsureCursorVisible (set_Table (table.set_cursor c (Table m)) m)).
Proof.
  intros Hwin. rewrite EnsureCursorVisible_eq, Table_set_Table.
  set (g := guarded_cursor _).
  assert (in_step (set_Table (table.set_cursor g (Table m)) m)) as Hin.
  { split.
    - apply (windowed_ext m); fields; auto.
    - fields. cbn [table.set_cursor table.cursor]. intros Hrows.
      rewrite <- (windowed_rows m Hwin).
      assert (len (table.rows (Table m)) <> 0) as Hne.
      { rewrite (windowed_rows m Hwin). intros E. now apply len_nil_iff in E. }
      pose proof (len_nonneg (table.rows (Table m))).
      subst g. unfold guarded_cursor. cbn [table.set_cursor table.rows table.cursor].
      rewrite Z.geb_leb. ztest; lia. }
  replace (set_Table (table.set_cursor g (table.set_cursor c (Table m)))
             (set_Table (table.set_cursor c (Table m)) m))
    with (set_Table (table.set_cursor g (Table m)) m); [exact Hin|].
  now destruct m.
Qed.

Lemma windowed_widget (m : TableModel) (t : table.Model) :
  table.cols t = table.cols (Table m) -> table.rows t = table.rows (Table m) ->
  windowed m -> windowed (set_Table t m).
Proof.
  intros Hc Hr. apply windowed_ext; fields; auto.
Qed.

Lemma windowed_guard (m : TableModel) : windowed m -> windowed (EnsureCursorVisible m).
Proof. rewrite EnsureCursorVisible_eq. now apply windowed_widget. Qed.

Lemma finish_step (m : TableModel) (msg : Msg) :
  windowed m ->
  in_step (EnsureCursorVisible (set_Table (table.Update (Table m) msg) m)).
Proof.
  destruct (table_Update_shape (Table m) msg) as [c ->]. apply finish_in_step.
Qed.

Lemma SortRows_in_step (m m' : TableModel) :
  in_step m -> SortRows m = Ok m' -> in_step m'.
Proof.
  intros Hin. unfold SortRows. destruct (SortColumn m <? 0); [now intros [= <-]|].
  intros HS. apply bind_Ok in HS. destruct HS as (rows & _ & HS).
  revert HS. apply rebuild_in_step. fields. exact (windowed_columns m (proj1 Hin)).
Qed.

(** ** What a message can change *)

Lemma UpdateVisibleColumns_shape (m m' : TableModel) :
  UpdateVisibleColumns m = Ok m' ->
  exists t a b, m' = set_Table t (set_MaxColumns a (set_ScrollOffset b m)).
Proof. intros E. apply UpdateVisibleColumns_frame in E. eauto. Qed.

Lemma SortRows_shape (m m' : TableModel) :
  SortRows m = Ok m' ->
  exists t a b rows,
    m' = set_Table t (set_MaxColumns a (set_ScrollOffset b (set_OriginalRows rows m))).
Proof.
  unfold SortRows. destruct (SortColumn m <? 0).
  - intros [= <-]. exists (Table m), (MaxColumns m), (ScrollOffset m), (OriginalRows m).
    now destruct m.
  - intros HS. inv_bind HS. apply UpdateVisibleColumns_shape in HS.
    destruct HS as (t & a & b & ->). eauto 10.
Qed.

Section filter_blocks.
Context `{External}.

Lemma ApplyFilter_shape (m m' : TableModel) :
  ApplyFilter m = Ok m' ->
  exists s t a b rows frows,
    m' = set_StatusMsg s (set_Table t (set_MaxColumns a (set_ScrollOffset b
           (set_OriginalRows rows (set_FilteredRows frows m))))).
Proof.
  unfold ApplyFilter. destruct (String.eqb (FilterText m) "").
  - intros HA. inv_bind HA. injection HA as <-.
    apply UpdateVisibleColumns_shape in E. destruct E as (t & a & b & ->).
    destruct (len (AllRows m) >? 0).
    + exists "已恢复全部数据", t, a, b, (AllRows m), (FilteredRows m). now destruct m.
    + exists "已恢复全部数据", t, a, b, (OriginalRows m), (FilteredRows m). now destruct m.
  - intros HA. inv_bind HA. inv_bind HA. inv_bind HA. injection HA as <-.
    apply UpdateVisibleColumns_shape in E0. destruct E0 as (t & a & b & ->). eauto 10.
Qed.

Lemma ApplyFilter_in_step (m m' : TableModel) :
  TableColumns m <> [] -> ApplyFilter m = Ok m' -> in_step m'.
Proof.
  intros Hcols. unfold ApplyFilter. destruct (String.eqb (FilterText m) "").
  - intros HA. inv_bind HA. injection HA as <-.
    apply rebuild_in_step in E.
    + revert E. apply in_step_ext; fields; reflexivity.
    + destruct (len (AllRows m) >? 0); fields; exact Hcols.
  - intros HA. inv_bind HA. inv_bind HA. inv_bind HA. injection HA as <-.
    apply rebuild_in_step in E0; [|fields; exact Hcols].
    revert E0. apply in_step_ext; fields; reflexivity.
Qed.
End filter_blocks.

Ltac split_result HU :=
  repeat match type of HU with
         | (if ?b then _ else _) = Ok _ => let E := fresh "Ek" in destruct b eqn:E
         | mbind _ _ = Ok _ =>
             let x := fresh "m" in
             let E := fresh "E" in
             apply bind_Ok in HU; destruct HU as (x & E & HU); split_result E
         | (let '(_, _) := ?p in _) = Ok _ => let E := fresh "Ex" in destruct p eqn:E
         | match ?o with Some _ => _ | None => _ end = Ok _ => destruct o
         | match ?g with KeyMsg _ => _ | WindowSizeMsg _ _ => _ end = Ok _ =>
             let k := fresh "k" in destruct g as [k|? ?]
         | Ok (_, _, _) = Ok _ => injection HU as <- <- <-
         | Ok _ = Ok ?x => is_var x; injection HU as <-
         end.

(** One goal for every path through [Update]. *)
Ltac split_Update HU :=
  unfold Update, scroll_to, page in HU;
  cbv beta iota delta [baseStyle_GetFrameSize] in HU;
  split_result HU.

(** Bring the result of every block into the form of field updates of
    its argument. *)
Ltac frames :=
  repeat match goal with
         | E : UpdateVisibleColumns _ = Ok ?x |- _ =>
             is_var x; destruct (UpdateVisibleColumns_shape _ _ E) as (? & ? & ? & ->)
         | E : SortRows _ = Ok ?x |- _ =>
             is_var x; destruct (SortRows_shape _ _ E) as (? & ? & ? & ? & ->)
         | E : ApplyFilter _ = Ok ?x |- _ =>
             is_var x;
             destruct (ApplyFilter_shape _ _ E) as (? & ? & ? & ? & ? & ? & ->)
         end;
  rewrite ?EnsureCursorVisible_eq, ?CalculateMaxColumns_eq;
  fields.

(** The schema of the argument of a block is the one of [m]. *)
Ltac same_columns Hcols :=
  repeat match goal with
         | |- context [if ?b then _ else _] => destruct b
         end;
  rewrite ?EnsureCursorVisible_eq, ?CalculateMaxColumns_eq; fields; exact Hcols.

Ltac windowed_tac Hin :=
  lazymatch goal with
  | |- windowed (EnsureCursorVisible _) => apply windowed_guard; windowed_tac Hin
  | |- windowed (set_Table (table.SetCursor _ (Table ?x)) ?x) =>
      apply windowed_widget; [reflexivity|reflexivity|windowed_tac Hin]
  | |- windowed (set_Table (Nat.iter ?n _ (Table ?x)) ?x) =>
      let c := fresh "c" in
      destruct (table_Update_iter_shape (KeyMsg "up") n (Table x)) as [c ->] ||
      destruct (table_Update_iter_shape (KeyMsg "down") n (Table x)) as [c ->];
      apply windowed_widget; [reflexivity|reflexivity|windowed_tac Hin]
  | Hx : in_step ?x |- windowed ?x => exact (proj1 Hx)
  | |- windowed _ => apply (windowed_ext _ _) with (8 := proj1 Hin); fields; reflexivity
  end.

Section messages.
Context `{External}.

(** X5: no message changes the schema, the title, the row count or the
    query duration, and the full data set is written at most once: by the
    filter key, when it is still empty. *)
Theorem Update_keeps_data (d d' : Disk) (m m' : TableModel) (msg : Msg) (c : Cmd) :
  Update d m msg = Ok (m', c, d') ->
  TableColumns m' = TableColumns m
  /\ Title m' = Title m
  /\ RowCount m' = RowCount m
  /\ QueryDuration m' = QueryDuration m
  /\ (AllRows m <> [] -> AllRows m' = AllRows m)
  /\ (AllRows m' = AllRows m \/ AllRows m' = OriginalRows m).
Proof.
  intros HU.
  assert (AllRows m <> [] -> (len (AllRows m) =? 0) = false) as Hfull.
  { intros Hne. apply Z.eqb_neq. intros E. now apply len_nil_iff in E. }
  split_Update HU; frames;
    repeat match goal with
           | |- context [if ?b then _ else _] => let E := fresh in destruct b eqn:E
           end;
    fields; repeat split; auto.
  all: intros Hne; apply Hfull in Hne; fields_in H0; rewrite Hne in H0; discriminate.
Qed.


(** X6: every message keeps the view in step with the data. *)
Theorem Update_in_step (d d' : Disk) (m m' : TableModel) (msg : Msg) (c : Cmd) :
  in_step m -> Update d m msg = Ok (m', c, d') -> in_step m'.
Proof.
  intros Hin HU.
  pose proof (windowed_columns m (proj1 Hin)) as Hcols.
  split_Update HU;
    repeat match goal with
           | E : UpdateVisibleColumns ?x = Ok ?y |- _ =>
               apply rebuild_in_step in E; [|same_columns Hcols]
           | E : ApplyFilter ?x = Ok ?y |- _ =>
               apply ApplyFilter_in_step in E; [|same_columns Hcols]
           | E : SortRows ?x = Ok ?y |- _ =>
               apply SortRows_in_step in E;
               [|revert Hin; apply in_step_ext; fields; reflexivity]
           end;
    try assumption;
    try (apply finish_step; windowed_tac Hin).
  - revert E. apply in_step_ext; fields; reflexivity.
  - revert Hin. apply in_step_ext; fields; reflexivity.
  - revert Hin. destruct (_ && _); apply in_step_ext; fields; reflexivity.
Qed.
End messages.

Lemma Update_keeps_data_witness :
  AllRows (model_of (after_keys baseline ["s"])) = AllRows (loaded baseline).
Proof.
  apply (@Update_keeps_data plain_text empty_disk empty_disk (loaded baseline)
           (model_of (after_keys baseline ["s"])) (KeyMsg "s") cmd_nil).
  - vm_compute. reflexivity.
  - vm_compute. discriminate.
Defined.

Lemma Update_in_step_witness : in_step (model_of (after_keys baseline ["s"])).
Proof.
  apply (@Update_in_step plain_text empty_disk empty_disk (loaded baseline)
           (model_of (after_keys baseline ["s"])) (KeyMsg "s") cmd_nil).
  - evaluated.
  - vm_compute. reflexivity.
Defined.

(** ** The state handed to the runtime *)

Lemma widen_row_spec (row : list string) : forall (w : list Z) (i : nat),
  length (widen_row w i row) = length w
  /\ (forall k x, w !! k = Some x ->
        exists y, widen_row w i row !! k = Some y /\ x <= y)
  /\ (forall j cell y, row !! j = Some cell ->
        widen_row w i row !! (i + j)%nat = Some y -> slen cell <= y).
Proof.
  induction row as [|cell rest IH]; intros w i; simpl.
  { split; [done|]. split; [intros k x Hk; exists x; split; [done|lia]|].
    intros j cell y Hj. now rewrite lookup_nil in Hj. }
  set (w1 := match w !! i with
             | Some x => if slen cell >? x then <[i:=slen cell + 2]> w else w
             | None => w
             end).
  assert (length w1 = length w
          /\ (forall k x, w !! k = Some x -> exists y, w1 !! k = Some y /\ x <= y)
          /\ (forall y, w1 !! i = Some y -> slen cell <= y)) as (Hl & Hm & Hc).
  { subst w1. destruct (w !! i) as [x|] eqn:Ei.
    - rewrite Z.gtb_ltb. destruct (Z.ltb_spec x (slen cell)) as [Hlt|Hge].
      + pose proof (lookup_lt_Some _ _ _ Ei) as Hi.
        split; [apply length_insert|]. split.
        * intros k x' Hk. destruct (decide (k = i)) as [-> |Hne].
          -- rewrite list_lookup_insert_eq by done. exists (slen cell + 2).
             split; [done|]. rewrite Ei in Hk. injection Hk as <-. lia.
          -- rewrite list_lookup_insert_ne by done. exists x'. split; [done|lia].
        * intros y. rewrite list_lookup_insert_eq by done. intros [= <-]. lia.
      + split; [done|]. split; [intros k x' Hk; exists x'; split; [done|lia]|].
        intros y. rewrite Ei. intros [= <-]. lia.
    - split; [done|]. split; [intros k x' Hk; exists x'; split; [done|lia]|].
      intros y. rewrite Ei. discriminate. }
  destruct (IH w1 (S i)) as (IHl & IHm & IHc).
  split; [congruence|]. split.
  - intros k x Hk. destruct (Hm k x Hk) as (y & Hy & Hxy).
    destruct (IHm k y Hy) as (z & Hz & Hyz). exists z. split; [done|lia].
  - intros [|j] c y Hj Hy; simpl in Hj.
    + injection Hj as <-. rewrite Nat.add_0_r in Hy.
      destruct (w1 !! i) as [y0|] eqn:E0.
      * destruct (IHm i y0 E0) as (z & Hz & Hle). rewrite Hz in Hy.
        injection Hy as <-. specialize (Hc y0 eq_refl). lia.
      * apply lookup_ge_None in E0. apply lookup_lt_Some in Hy. lia.
    + apply (IHc j c y Hj). now replace (S i + j)%nat with (i + S j)%nat by lia.
Qed.

Lemma widen_rows_spec (rows : list (list string)) : forall w : list Z,
  let W := foldl (fun w row => widen_row w 0 row) w rows in
  length W = length w
  /\ (forall k x, w !! k = Some x -> exists y, W !! k = Some y /\ x <= y)
  /\ (forall r row j cell y, rows !! r = Some row -> row !! j = Some cell ->
        W !! j = Some y -> slen cell <= y).
Proof.
  induction rows as [|row rest IH]; intros w; cbn [foldl].
  { split; [done|]. split; [intros k x Hk; exists x; split; [done|lia]|].
    intros r row j cell y Hr. now rewrite lookup_nil in Hr. }
  destruct (widen_row_spec row w 0) as (Hl & Hm & Hc).
  destruct (IH (widen_row w 0 row)) as (IHl & IHm & IHc).
  cbv zeta in *. split; [congruence|]. split.
  - intros k x Hk. destruct (Hm k x Hk) as (y & Hy & Hxy).
    destruct (IHm k y Hy) as (z & Hz & Hyz). exists z. split; [done|lia].
  - intros [|r] row' j cell y Hr Hj Hy; simpl in Hr.
    + injection Hr as <-.
      destruct (widen_row w 0 row !! j) as [y0|] eqn:E0.
      * destruct (IHm j y0 E0) as (z & Hz & Hle). rewrite Hz in Hy.
        injection Hy as <-. specialize (Hc j cell y0 Hj E0). lia.
      * apply lookup_ge_None in E0. apply lookup_lt_Some in Hy. lia.
    + exact (IHc r row' j cell y Hr Hj Hy).
Qed.

Lemma ShowTable_fields (termSize : option (Z * Z)) (data : TableData) (m : TableModel) :
  ShowTable termSize data = Ok m ->
  exists m0,
    UpdateVisibleColumns m0 = Ok m
    /\ TableColumns m0
       = zip_with column_of (Headers data)
           (foldl (fun w row => widen_row w 0 row)
              (map (fun header => slen header + 2) (Headers data)) (Rows data))
    /\ OriginalRows m0
       = (if len (Rows data) =? 0
          then [replicate (length (Headers data)) "无数据"] else Rows data)
    /\ AllRows m0 = OriginalRows m0
    /\ ScrollOffset m0 = 0
    /\ table.cursor (Table m0) = 0
    /\ table.focus (Table m0) = true
    /\ Title m0 = data_Title data
    /\ RowCount m0 = len (Rows data)
    /\ SortColumn m0 = -1 /\ SortAsc m0 = true
    /\ Filtering m0 = false /\ FilterText m0 = ""
    /\ Width m0 = match termSize with Some (w, _) => w - 4 | None => 80 end
    /\ Height m0 = match termSize with Some (_, h) => Z.max 10 (h - 12) | None => 20 end.
Proof.
  unfold ShowTable. destruct (time.ParseDuration _) as [duration|]; [|discriminate].
  intros Hshow. eexists. split; [exact Hshow|].
  rewrite CalculateMaxColumns_eq.
  assert (forall rows : list (list string),
             len rows = 0 -> app rows [replicate (length (Headers data)) "无数据"]
                             = [replicate (length (Headers data)) "无数据"]) as Happ.
  { intros rows E. apply len_nil_iff in E. now rewrite E. }
  destruct termSize as [[w h]|].
  - destruct (Z.eqb_spec (len (Rows data)) 0) as [E|E]; [rewrite (Happ _ E)|];
      fields; (destruct (Z.ltb_spec (h - 12) 10); fields; repeat split; lia).
  - destruct (Z.eqb_spec (len (Rows data)) 0) as [E|E]; [rewrite (Happ _ E)|];
      fields; repeat split.
Qed.

(** X7: the state handed to the runtime.  The active rows and the full
    data set are the same non-empty list (the data rows, when there are
    any), nothing is sorted or filtered, the window starts at the first
    column with the cursor on the first row, the height is at least ten,
    and with a header the view is in step with the data. *)
Theorem ShowTable_initial_state
    (termSize : option (Z * Z)) (data : TableData) (m : TableModel) :
  ShowTable termSize data = Ok m ->
  AllRows m = OriginalRows m
  /\ OriginalRows m <> []
  /\ (Rows data <> [] -> OriginalRows m = Rows data)
  /\ RowCount m = len (Rows data)
  /\ Title m = data_Title data
  /\ SortColumn m = -1 /\ SortAsc m = true
  /\ Filtering m = false /\ FilterText m = ""
  /\ ScrollOffset m = 0
  /\ table.cursor (Table m) = 0
  /\ table.focus (Table m) = true
  /\ 10 <= Height m
  /\ (Headers data <> [] -> in_step m).
Proof.
  intros Hshow.
  destruct (ShowTable_fields termSize data m Hshow)
    as (m0 & Hupd & Ecols & Erows & Eall & Eoff & Ecur & Efoc & Etitle & Ecount
        & Ecol & Easc & Efil & Etext & Ew & Eh).
  assert (OriginalRows m0 <> [] /\ (Rows data <> [] -> OriginalRows m0 = Rows data))
    as [Hne Hsame].
  { rewrite Erows. destruct (Z.eqb_spec (len (Rows data)) 0) as [E|E].
    - split; [done|]. intros Hr. now apply len_nil_iff in E.
    - split; [|done]. intros Hr. apply E. now rewrite Hr. }
  assert (10 <= Height m0) as Hh.
  { rewrite Eh. destruct termSize as [[w h]|]; lia. }
  assert (ScrollOffset m = 0 /\ table.cursor (Table m) = 0
          /\ table.focus (Table m) = true) as (Ho & Hc & Hf).
  { destruct (TableColumns m0) as [|c0 cs] eqn:E0.
    - unfold UpdateVisibleColumns in Hupd. rewrite E0 in Hupd. cbn in Hupd.
      injection Hupd as <-. done.
    - destruct (UpdateVisibleColumns_rebuild m0) as (E & Hoff & _); [now rewrite E0|].
      rewrite E in Hupd. injection Hupd as <-. fields.
      assert (settled_offset m0 = 0) as ->.
      { unfold settled_offset. rewrite Eoff. rewrite E0 in Hoff |- *.
        unfold table.clamp, len. simpl length. lia. }
      split; [done|]. unfold rebuilt_table, table.Cursor, table.Focused.
      cbn [table.cursor table.focus]. rewrite Ecur, Efoc.
      split; [|done]. destruct (_ >? 0) eqn:Epos; [|done].
      apply Z.gtb_lt in Epos. unfold table.clamp. lia. }
  split. { apply UpdateVisibleColumns_shape in Hupd. destruct Hupd as (t & a & b & ->).
           fields. exact Eall. }
  destruct (UpdateVisibleColumns_rows m0 m Hupd) as (Er & _).
  apply UpdateVisibleColumns_shape in Hupd as Hshape.
  destruct Hshape as (t & a & b & Hm).
  assert (RowCount m = RowCount m0 /\ Title m = Title m0 /\ SortColumn m = SortColumn m0
          /\ SortAsc m = SortAsc m0 /\ Filtering m = Filtering m0
          /\ FilterText m = FilterText m0 /\ Height m = Height m0)
    as (-> & -> & -> & -> & -> & -> & ->).
  { rewrite Hm. fields. repeat split. }
  rewrite Er. repeat (split; [assumption|]).
  intros Hheaders. apply (rebuild_in_step m0 m); [|exact Hupd].
  rewrite Ecols. intros E. apply (f_equal length) in E.
  assert (length (foldl (fun w row => widen_row w 0 row)
                    (map (fun header => slen header + 2) (Headers data)) (Rows data))
          = length (Headers data)) as Hl.
  { destruct (widen_rows_spec (Rows data)
                (map (fun header => slen header + 2) (Headers data))) as (Hl & _).
    cbv zeta in Hl. now rewrite Hl, length_map. }
  rewrite length_zip_with, Hl in E. simpl in E.
  destruct (Headers data); [done|simpl in E; lia].
Qed.

Lemma ShowTable_initial_state_witness :
  AllRows (loaded baseline) = OriginalRows (loaded baseline)
  /\ OriginalRows (loaded baseline) <> [].
Proof.
  destruct (ShowTable_initial_state None baseline (loaded baseline)) as (Ha & Hr & _).
  - vm_compute. reflexivity.
  - split; [exact Ha|exact Hr].
Defined.

Lemma column_of_Width (header : string) (width : Z) :
  table.Width (column_of header width) = Z.max 10 (Z.min 40 width).
Proof. unfold column_of. cbn [table.Width]. ztest; lia. Qed.

(** X8: the schema built from the data.  The columns carry the headers
    in order, every width lies between ten and forty, and up to that cap
    a column is at least as wide as its header plus two and as each of
    its cells. *)
Theorem ShowTable_columns
    (termSize : option (Z * Z)) (data : TableData) (m : TableModel) :
  ShowTable termSize data = Ok m ->
  map table.Title (TableColumns m) = Headers data
  /\ Forall (fun col => 10 <= table.Width col <= 40) (TableColumns m)
  /\ (forall i header col,
        Headers data !! i = Some header -> TableColumns m !! i = Some col ->
        Z.min 40 (slen header + 2) <= table.Width col)
  /\ (forall r row i cell col,
        Rows data !! r = Some row -> row !! i = Some cell ->
        TableColumns m !! i = Some col ->
        Z.min 40 (slen cell) <= table.Width col).
Proof.
  intros Hshow.
  destruct (ShowTable_fields termSize data m Hshow) as (m0 & Hupd & Ecols & _).
  destruct (UpdateVisibleColumns_rows m0 m Hupd) as (_ & _ & _ & -> & _).
  rewrite Ecols. clear Hshow Hupd Ecols m m0.
  destruct (widen_rows_spec (Rows data)
              (map (fun header => slen header + 2) (Headers data))) as (Hl & Hm & Hc).
  cbv zeta in Hl, Hm, Hc. rewrite length_map in Hl.
  set (W := foldl _ _ _) in *.
  split; [now apply map_Title_zip_with|]. split; [|split].
  - apply Forall_lookup_2. intros i col Hi.
    apply lookup_zip_with_Some in Hi. destruct Hi as (h & w & -> & _ & _).
    rewrite column_of_Width. lia.
  - intros i header col Hh Hi.
    apply lookup_zip_with_Some in Hi. destruct Hi as (h & w & -> & _ & Hw).
    rewrite column_of_Width.
    destruct (Hm i (slen header + 2)) as (y & Hy & Hle).
    { now rewrite lookup_map, Hh. }
    rewrite Hy in Hw. injection Hw as <-. lia.
  - intros r row i cell col Hr Hcell Hi.
    apply lookup_zip_with_Some in Hi. destruct Hi as (h & w & -> & _ & Hw).
    rewrite column_of_Width. specialize (Hc r row i cell w Hr Hcell Hw). lia.
Qed.

Lemma ShowTable_columns_witness :
  map table.Title (TableColumns (loaded baseline)) = ["ID"; "Name"; "Age"].
Proof.
  apply (ShowTable_columns None baseline (loaded baseline)).
  vm_compute. reflexivity.
Defined.

(** ** The scroll keys *)

Lemma visible_row_nil_iff (off : Z) (n : nat) (row : table.Row) :
  (0 < n)%nat -> len (visible_row off n row) = 0 <-> len row <= off.
Proof.
  intros Hn. unfold visible_row.
  destruct (Z.ltb_spec off (len row)) as [Hlt|Hge].
  - unfold len in *. rewrite length_map, length_seq. lia.
  - unfold len in *. simpl. lia.
Qed.

(** The guard on a view in step: the cursor stays when its row has a cell
    at the offset, and goes to the first row otherwise. *)
Lemma guard_in_step (m : TableModel) (row : table.Row) :
  in_step m ->
  OriginalRows m !! Z.to_nat (table.cursor (Table m)) = Some row ->
  guarded_cursor (Table m)
  = if ScrollOffset m <? len row then table.cursor (Table m) else 0.
Proof.
  intros [Hwin Hcur] Hrow.
  assert (OriginalRows m <> []) as Hne by (intros E; now rewrite E in Hrow).
  specialize (Hcur Hne).
  pose proof (windowed_rows m Hwin) as Hlen.
  destruct Hwin as (Hoff & Hcount & _ & Hrows).
  pose proof (computeVisibleColumnCount_bounds (TableColumns m) (ScrollOffset m)
                (Width m) Hoff) as Hb.
  rewrite <- Hcount in Hb.
  assert (table.SelectedRow (Table m)
          = visible_row (ScrollOffset m) (Z.to_nat (MaxColumns m)) row) as Hsel.
  { unfold table.SelectedRow.
    replace (table.cursor (Table m) <? 0) with false by (symmetry; apply Z.ltb_ge; lia).
    replace (len (table.rows (Table m)) <=? table.cursor (Table m)) with false
      by (symmetry; apply Z.leb_gt; lia).
    cbn [orb]. now rewrite Hrows, lookup_map, Hrow. }
  unfold guarded_cursor. rewrite Hsel, Z.geb_leb.
  pose proof (visible_row_nil_iff (ScrollOffset m) (Z.to_nat (MaxColumns m)) row) as Hnil.
  ztest; lia.
Qed.

Lemma SetCursor_in_range (t : table.Model) :
  0 <= table.cursor t < len (table.rows t) -> table.SetCursor (table.cursor t) t = t.
Proof.
  intros Hc. unfold table.SetCursor. rewrite clamp_in_range by lia.
  apply table_set_cursor_id.
Qed.

Lemma in_step_set_cursor (m : TableModel) (c : Z) :
  in_step m -> 0 <= c < len (OriginalRows m) ->
  in_step (set_Table (table.set_cursor c (Table m)) m).
Proof.
  intros [Hwin _] Hc. split.
  - now apply windowed_widget.
  - fields. cbn [table.set_cursor table.cursor]. intros _. exact Hc.
Qed.

(** The guard applied to a view in step, and applied again. *)
Lemma guard_twice (m : TableModel) (row : table.Row) :
  in_step m ->
  OriginalRows m !! Z.to_nat (table.cursor (Table m)) = Some row ->
  let c := if ScrollOffset m <? len row then table.cursor (Table m) else 0 in
  EnsureCursorVisible m = set_Table (table.set_cursor c (Table m)) m
  /\ EnsureCursorVisible (EnsureCursorVisible m) = EnsureCursorVisible m.
Proof.
  intros Hin Hrow. cbv zeta.
  assert (OriginalRows m <> []) as Hne by (intros E; now rewrite E in Hrow).
  pose proof (proj2 Hin Hne) as Hcur.
  pose proof (guard_in_step m row Hin Hrow) as Hg.
  rewrite EnsureCursorVisible_eq, Hg. split; [done|].
  set (c := if ScrollOffset m <? len row then table.cursor (Table m) else 0).
  assert (0 <= c < len (OriginalRows m)) as Hc by (subst c; ztest; lia).
  pose proof (in_step_set_cursor m c Hin Hc) as Hin'.
  destruct (OriginalRows m !! Z.to_nat c) as [row'|] eqn:Hrow'.
  2:{ apply lookup_ge_None in Hrow'. unfold len in Hc. lia. }
  rewrite EnsureCursorVisible_eq.
  rewrite (guard_in_step _ row' Hin'); fields; cbn [table.set_cursor table.cursor];
    [|exact Hrow'].
  assert ((if ScrollOffset m <? len row' then c else 0) = c) as ->.
  { subst c. destruct (ScrollOffset m <? len row) eqn:E;
      [|now destruct (ScrollOffset m <? len row')].
    rewrite Hrow in Hrow'. injection Hrow' as <-. now rewrite E. }
  now destruct m.
Qed.

Lemma table_Update_scroll_key (t : table.Model) (k : string) :
  In k ["left"; "right"; "shift+left"; "shift+right"] ->
  table.Update t (KeyMsg k) = t.
Proof.
  unfold table.Update. intros Hk. destruct (negb (table.focus t)); [done|].
  repeat (destruct Hk as [<-|Hk]; [reflexivity|]). destruct Hk.
Qed.

(** The shared body of the scroll keys, on a view in step. *)
Lemma scroll_to_in_step (m : TableModel) (off : Z) (row : table.Row) :
  in_step m ->
  0 <= off < len (TableColumns m) ->
  OriginalRows m !! Z.to_nat (table.cursor (Table m)) = Some row ->
  exists m',
    scroll_to off m = Ok m'
    /\ in_step m'
    /\ ScrollOffset m' = off
    /\ OriginalRows m' = OriginalRows m
    /\ table.cursor (Table m') = (if off <? len row then table.cursor (Table m) else 0)
    /\ EnsureCursorVisible m' = m'.
Proof.
  intros Hin Hoff Hrow. unfold scroll_to.
  assert (OriginalRows m <> []) as Hne by (intros E; now rewrite E in Hrow).
  pose proof (proj2 Hin Hne) as Hcur.
  set (m1 := set_ScrollOffset off m).
  assert (TableColumns m1 = TableColumns m /\ OriginalRows m1 = OriginalRows m
          /\ Table m1 = Table m /\ ScrollOffset m1 = off) as (Ec1 & Er1 & Et1 & Eo1).
  { unfold m1. fields. repeat split. }
  assert (TableColumns m1 <> []) as Hcols1.
  { rewrite Ec1. apply (windowed_columns m (proj1 Hin)). }
  destruct (UpdateVisibleColumns_never_panics m1) as [m2 Hupd].
  rewrite Hupd. cbn [mbind result_bind].
  pose proof (rebuild_in_step m1 m2 Hcols1 Hupd) as Hin2.
  destruct (UpdateVisibleColumns_rows m1 m2 Hupd) as (Er2 & _).
  destruct (UpdateVisibleColumns_rebuild m1 Hcols1) as (E & _).
  rewrite E in Hupd. injection Hupd as Hm2.
  assert (ScrollOffset m2 = off) as Eo2.
  { rewrite <- Hm2. fields. unfold settled_offset. rewrite Eo1, Ec1.
    apply clamp_in_range. lia. }
  assert (table.cursor (Table m2) = table.cursor (Table m)) as Ecur2.
  { rewrite <- Hm2. fields.
    destruct (cursor_rebuilt_table_range m1) as [-> _].
    - rewrite Er1. lia.
    - rewrite Et1, Er1. unfold table.Cursor. apply clamp_in_range. lia. }
  assert (table.SetCursor (table.Cursor (Table m)) (Table m2) = Table m2) as ->.
  { unfold table.Cursor. rewrite <- Ecur2. apply SetCursor_in_range.
    rewrite (windowed_rows m2 (proj1 Hin2)), Er2, Er1, Ecur2. exact Hcur. }
  rewrite set_Table_id.
  assert (OriginalRows m2 !! Z.to_nat (table.cursor (Table m2)) = Some row) as Hrow2.
  { now rewrite Er2, Er1, Ecur2. }
  destruct (guard_twice m2 row Hin2 Hrow2) as [Eg Egg].
  exists (EnsureCursorVisible m2). split; [done|]. split; [|split; [|split; [|split]]].
  - rewrite Eg. apply in_step_set_cursor; [exact Hin2|].
    rewrite Er2, Er1, Ecur2. ztest; lia.
  - rewrite Eg. fields. exact Eo2.
  - rewrite Eg. fields. now rewrite Er2, Er1.
  - rewrite Eg. fields. cbn [table.set_cursor table.cursor]. now rewrite Eo2, Ecur2.
  - exact Egg.
Qed.

Section scrolling.
Context `{External}.

Lemma widget_step_idle (m : TableModel) (msg : Msg) :
  table.Update (Table m) msg = Table m -> widget_step msg m = EnsureCursorVisible m.
Proof. unfold widget_step. intros ->. now rewrite set_Table_id. Qed.

(** The four scroll keys on a view in step, in the model of the widget. *)
Lemma scroll_keys_outcome
    (d : Disk) (m : TableModel) (k : string) (off : Z) (row : table.Row) :
  in_step m ->
  Filtering m = false ->
  OriginalRows m !! Z.to_nat (table.cursor (Table m)) = Some row ->
  In (k, off) [("left", Z.max 0 (ScrollOffset m - 1));
               ("right", Z.min (len (TableColumns m) - 1) (ScrollOffset m + 1));
               ("shift+left", 0);
               ("shift+right", len (TableColumns m) - 1)] ->
  exists m',
    Update d m (KeyMsg k) = Ok (m', cmd_nil, d)
    /\ ScrollOffset m' = off
    /\ OriginalRows m' = OriginalRows m
    /\ table.cursor (Table m') = (if off <? len row then table.cursor (Table m) else 0).
Proof.
  intros Hin Hfil Hrow Hk.
  pose proof (proj1 (proj1 Hin)) as Hoff.
  assert (forall msg o, table.Update (Table m) msg = Table m ->
            ScrollOffset m = o ->
            exists m', Ok (widget_step msg m, cmd_nil, d) = Ok (m', cmd_nil, d)
                       /\ ScrollOffset m' = o
                       /\ OriginalRows m' = OriginalRows m
                       /\ table.cursor (Table m')
                          = (if o <? len row then table.cursor (Table m) else 0))
    as Hstay.
  { intros msg o Hidle <-. eexists. split; [reflexivity|].
    rewrite (widget_step_idle m msg Hidle).
    destruct (guard_twice m row Hin Hrow) as [-> _]. fields. repeat split. }
  assert (forall key o, In key ["left"; "right"; "shift+left"; "shift+right"] ->
            0 <= o < len (TableColumns m) ->
            exists m', (m1 ← scroll_to o m;
                        Ok (widget_step (KeyMsg key) m1, cmd_nil, d))
                       = Ok (m', cmd_nil, d)
                       /\ ScrollOffset m' = o
                       /\ OriginalRows m' = OriginalRows m
                       /\ table.cursor (Table m')
                          = (if o <? len row then table.cursor (Table m) else 0))
    as Hmove.
  { intros key o Hkey Hrange.
    destruct (scroll_to_in_step m o row Hin Hrange Hrow)
      as (m1 & -> & _ & Eo & Er & Ec & Eg).
    cbn [mbind result_bind]. exists m1.
    rewrite (widget_step_idle m1 _ (table_Update_scroll_key _ key Hkey)), Eg.
    repeat split; assumption. }
  assert (forall key, In key ["left"; "right"; "shift+left"; "shift+right"] ->
            table.Update (Table m) (KeyMsg key) = Table m) as Hidle
    by (intros key; apply table_Update_scroll_key).
  destruct Hk as [[= <- <-]|[[= <- <-]|[[= <- <-]|[[= <- <-]|[]]]]].
  - assert (Update d m (KeyMsg "left")
            = if ScrollOffset m >? 0
              then m1 ← scroll_to (ScrollOffset m - 1) m;
                   Ok (widget_step (KeyMsg "left") m1, cmd_nil, d)
              else Ok (widget_step (KeyMsg "left") m, cmd_nil, d)) as ->
      by (unfold Update; rewrite Hfil; reflexivity).
    rewrite Z.gtb_ltb. destruct (Z.ltb_spec 0 (ScrollOffset m)).
    + replace (Z.max 0 (ScrollOffset m - 1)) with (ScrollOffset m - 1) by lia.
      apply Hmove; [simpl; tauto|lia].
    + apply Hstay; [apply Hidle; simpl; tauto|lia].
  - assert (Update d m (KeyMsg "right")
            = if ScrollOffset m <? len (TableColumns m) - 1
              then m1 ← scroll_to (ScrollOffset m + 1) m;
                   Ok (widget_step (KeyMsg "right") m1, cmd_nil, d)
              else Ok (widget_step (KeyMsg "right") m, cmd_nil, d)) as ->
      by (unfold Update; rewrite Hfil; reflexivity).
    destruct (Z.ltb_spec (ScrollOffset m) (len (TableColumns m) - 1)).
    + replace (Z.min (len (TableColumns m) - 1) (ScrollOffset m + 1))
        with (ScrollOffset m + 1) by lia.
      apply Hmove; [simpl; tauto|lia].
    + apply Hstay; [apply Hidle; simpl; tauto|lia].
  - assert (Update d m (KeyMsg "shift+left")
            = if ScrollOffset m >? 0
              then m1 ← scroll_to 0 m;
                   Ok (widget_step (KeyMsg "shift+left") m1, cmd_nil, d)
              else Ok (widget_step (KeyMsg "shift+left") m, cmd_nil, d)) as ->
      by (unfold Update; rewrite Hfil; reflexivity).
    rewrite Z.gtb_ltb. destruct (Z.ltb_spec 0 (ScrollOffset m)).
    + apply Hmove; [simpl; tauto|lia].
    + apply Hstay; [apply Hidle; simpl; tauto|lia].
  - assert (Update d m (KeyMsg "shift+right")
            = let maxScroll := len (TableColumns m) - 1 in
              let maxScroll := if maxScroll <? 0 then 0 else maxScroll in
              if negb (ScrollOffset m =? maxScroll)
              then m1 ← scroll_to maxScroll m;
                   Ok (widget_step (KeyMsg "shift+right") m1, cmd_nil, d)
              else Ok (widget_step (KeyMsg "shift+right") m, cmd_nil, d)) as ->
      by (unfold Update; rewrite Hfil; reflexivity).
    cbv zeta.
    replace (len (TableColumns m) - 1 <? 0) with false by (symmetry; apply Z.ltb_ge; lia).
    destruct (Z.eqb_spec (ScrollOffset m) (len (TableColumns m) - 1)); cbn [negb].
    + apply Hstay; [apply Hidle; simpl; tauto|lia].
    + apply Hmove; [simpl; tauto|lia].
Qed.
(** X9: the four scroll keys, on a view in step and outside filter mode.
    When the message returns a model, left and right have moved the
    window by one column, stopping at the first and the last column, and
    the shifted keys have gone to those columns at once.  The rows are
    untouched, and the cursor has stayed on its row when that row has a
    cell at the new offset; otherwise it has gone to the first row. *)
Theorem scroll_keys
    (d d' : Disk) (m m' : TableModel) (k : string) (off : Z) (row : table.Row) (c : Cmd) :
  in_step m ->
  Filtering m = false ->
  OriginalRows m !! Z.to_nat (table.cursor (Table m)) = Some row ->
  In (k, off) [("left", Z.max 0 (ScrollOffset m - 1));
               ("right", Z.min (len (TableColumns m) - 1) (ScrollOffset m + 1));
               ("shift+left", 0);
               ("shift+right", len (TableColumns m) - 1)] ->
  Update d m (KeyMsg k) = Ok (m', c, d') ->
  ScrollOffset m' = off
  /\ OriginalRows m' = OriginalRows m
  /\ table.cursor (Table m') = (if off <? len row then table.cursor (Table m) else 0)
  /\ c = cmd_nil /\ d' = d.
Proof.
  intros Hin Hfil Hrow Hk HU.
  destruct (scroll_keys_outcome d m k off row Hin Hfil Hrow Hk) as (m1 & E & Ho & Hr & Hc).
  rewrite E in HU. injection HU as <- <- <-. repeat split; assumption.
Qed.
End scrolling.

Lemma scroll_keys_witness :
  ScrollOffset (model_of (after_keys baseline ["right"])) = 1.
Proof.
  apply (@scroll_keys plain_text empty_disk empty_disk (loaded baseline)
           (model_of (after_keys baseline ["right"])) "right" 1
           ["1"; "Alice"; "30"] cmd_nil).
  - evaluated.
  - reflexivity.
  - reflexivity.
  - vm_compute. tauto.
  - vm_compute. reflexivity.
Defined.

(** ** Outcomes of a message *)

Section outcomes.
Context `{External}.

(** X11: the quit command is returned for the esc key outside filter
    mode and for nothing else, and then neither the model nor the disk
    has changed. *)
Theorem Update_quits_only_on_esc
    (d d' : Disk) (m m' : TableModel) (msg : Msg) (c : Cmd) :
  Update d m msg = Ok (m', c, d') ->
  (c = tea_Quit <-> Filtering m = false /\ msg = KeyMsg "esc")
  /\ (c = tea_Quit -> m' = m /\ d' = d).
Proof.
  intros HU.
  assert (forall k, String.eqb k "esc" = false -> KeyMsg k <> KeyMsg "esc") as Hne.
  { intros k E [= ->]. discriminate. }
  split_Update HU; (split; [split|]); try discriminate; try (intros [? ?]);
    try congruence; try (exfalso; eapply Hne; eassumption).
  all: try (apply String.eqb_eq in Ek0; subst; auto).
Qed.

End outcomes.

Lemma Update_quits_only_on_esc_witness :
  model_of (after_keys baseline ["esc"]) = loaded baseline.
Proof.
  apply (@Update_quits_only_on_esc plain_text empty_disk empty_disk (loaded baseline)
           (model_of (after_keys baseline ["esc"])) (KeyMsg "esc") tea_Quit).
  - vm_compute. reflexivity.
  - reflexivity.
Defined.

(** ** The sort key *)

(** Decide the key tests of [Update] at a given key. *)
Ltac at_key Hfil :=
  unfold Update; rewrite Hfil; cbn [String.eqb Ascii.eqb Bool.eqb].

Section sort_key.
Context `{External}.

End sort_key.


(** ** The order after a sort of at most twelve rows *)

Section insertion_order.
Context {A : Type} (less : A -> A -> result bool) (well_formed : A -> Prop).
Hypothesis less_total :
  forall x y, well_formed x -> well_formed y -> exists b, less x y = Ok b.
Hypothesis less_asym : forall x y, less x y = Ok true -> less y x = Ok false.

Lemma insertion_shift_order : forall (j : nat) (data : list A) (a i : nat),
  Forall well_formed data ->
  (a <= j <= i)%nat -> (i < length data)%nat ->
  (forall k, (a <= k)%nat -> (S k < j)%nat -> in_order less data k) ->
  (forall k, (j < k)%nat -> (S k <= i)%nat -> in_order less data k) ->
  ((j < i)%nat -> in_order less data j) ->
  ((a < j)%nat -> (j < i)%nat ->
   forall x y, data !! (j - 1)%nat = Some x -> data !! S j = Some y ->
               less y x = Ok false) ->
  exists data',
    sort.insertion_shift less data a j = Ok data'
    /\ forall k, (a <= k)%nat -> (S k <= i)%nat -> in_order less data' k.
Proof.
  induction j as [|j IH]; intros data a i Hwf Hj Hi Hlow Hhigh Hat Hbridge.
  { exists data. split; [done|]. intros k Hk Hki.
    destruct k as [|k]; [apply Hat; lia|apply Hhigh; lia]. }
  cbn [sort.insertion_shift].
  destruct (Nat.ltb_spec a (S j)) as [Ha|Ha].
  2:{ exists data. split; [done|]. intros k Hk Hki.
      destruct (decide (k = S j)) as [-> |Hne]; [apply Hat; lia|apply Hhigh; lia]. }
  destruct (lookup_lt_is_Some_2 data (S j) ltac:(lia)) as [x Hx].
  destruct (lookup_lt_is_Some_2 data j ltac:(lia)) as [y Hy].
  assert (well_formed x /\ well_formed y) as [Hwx Hwy].
  { rewrite Forall_forall in Hwf.
    split; apply Hwf; eapply list_elem_of_lookup_2; eauto. }
  unfold sort.Less. rewrite Hx, Hy.
  destruct (less_total x y Hwx Hwy) as [b Hb]. rewrite Hb. cbn [mbind result_bind].
  destruct b.
  2:{ exists data. split; [done|]. intros k Hk Hki.
      destruct (lt_eq_lt_dec k j) as [[Hlt| ->]|Hgt].
      - apply Hlow; lia.
      - intros x' y' Hx' Hy'. rewrite Hy in Hx'. rewrite Hx in Hy'.
        injection Hx' as <-. injection Hy' as <-. exact Hb.
      - destruct (decide (k = S j)) as [-> |Hne]; [apply Hat; lia|apply Hhigh; lia]. }
  unfold sort.Swap. rewrite Hx, Hy. cbn [mbind result_bind].
  set (data1 := <[S j := y]> (<[j := x]> data)).
  assert (forall k, k <> j -> k <> S j -> data1 !! k = data !! k) as Hother.
  { intros k Hk1 Hk2. unfold data1.
    now rewrite list_lookup_insert_ne, list_lookup_insert_ne by done. }
  assert (data1 !! j = Some x) as Hj1.
  { unfold data1. rewrite list_lookup_insert_ne by lia.
    apply list_lookup_insert_eq. lia. }
  assert (data1 !! S j = Some y) as Hj2.
  { unfold data1. apply list_lookup_insert_eq. rewrite length_insert. lia. }
  destruct (IH data1 a i) as (data' & E & Hpost).
  - assert (data1 ≡ₚ data) as Hperm by now apply insert_swap_perm.
    now rewrite Hperm.
  - lia.
  - unfold data1. rewrite !length_insert. lia.
  - intros k Hk Hkj x' y'. rewrite !Hother by lia. apply Hlow; lia.
  - intros k Hk Hki x' y'. destruct (decide (k = S j)) as [-> |Hne].
    + rewrite Hj2, Hother by lia. intros [= <-] Hy'.
      apply (Hbridge ltac:(lia) ltac:(lia) y y'); [|exact Hy'].
      now replace (S j - 1)%nat with j by lia.
    + rewrite !Hother by lia. apply Hhigh; lia.
  - intros _ x' y'. rewrite Hj1, Hj2. intros [= <-] [= <-]. now apply less_asym.
  - intros Haj Hji x' y'. rewrite Hj2, Hother by lia. intros Hx' [= <-].
    apply (Hlow (j - 1)%nat ltac:(lia) ltac:(lia) x' y); [exact Hx'|].
    now replace (S (j - 1)) with j by lia.
  - exists data'. split; [exact E|exact Hpost].
Qed.

Lemma insertion_loop_order : forall (n : nat) (data : list A) (a i : nat),
  Forall well_formed data ->
  (a <= i)%nat -> (n = 0 \/ i + n <= length data)%nat ->
  (forall k, (a <= k)%nat -> (S k < i)%nat -> in_order less data k) ->
  exists data',
    sort.insertion_loop less data a i n = Ok data'
    /\ forall k, (a <= k)%nat -> (S k < i + n)%nat -> in_order less data' k.
Proof.
  induction n as [|n IH]; intros data a i Hwf Hai Hn Hlow.
  { exists data. split; [done|]. intros k Hk Hki. apply Hlow; lia. }
  cbn [sort.insertion_loop]. destruct Hn as [Hn|Hn]; [discriminate|].
  destruct (insertion_shift_order i data a i Hwf) as (data1 & E1 & Hpost1);
    [lia|lia|exact Hlow|intros; lia|intros; lia|intros; lia|].
  rewrite E1. cbn [mbind result_bind].
  pose proof (insertion_shift_perm less _ _ _ _ E1) as Hperm.
  destruct (IH data1 a (S i)) as (data' & E & Hpost).
  - now rewrite Hperm.
  - lia.
  - right. apply Permutation_length in Hperm. lia.
  - intros k Hk Hki. apply Hpost1; lia.
  - exists data'. split; [exact E|]. intros k Hk Hki. apply Hpost; lia.
Qed.

Lemma Slice_order_up_to_twelve (x : list A) :
  Forall well_formed x -> (length x <= 12)%nat ->
  exists x', sort.Slice less x = Ok x' /\ forall k, in_order less x' k.
Proof.
  intros Hwf Hlen. unfold sort.Slice. cbn [sort.pdqsort_func].
  rewrite Nat.sub_0_r.
  replace (length x <=? 12)%nat with true by (symmetry; apply Nat.leb_le; lia).
  unfold sort.insertionSort_func.
  destruct (insertion_loop_order (length x - 1) x 0 1 Hwf) as (x' & E & Hpost).
  - lia.
  - lia.
  - intros k _ Hk. lia.
  - exists x'. split; [exact E|]. intros k a b Ha Hb.
    pose proof (insertion_loop_perm less _ _ _ _ _ E) as Hperm.
    pose proof (lookup_lt_Some _ _ _ Hb) as Hlt. apply Permutation_length in Hperm.
    apply (Hpost k); [lia|lia|exact Ha|exact Hb].
Qed.
End insertion_order.

Lemma f64_lt_asym (x y : float64) : f64_lt x y = true -> f64_lt y x = false.
Proof.
  unfold f64_lt, SFltb. rewrite (SFcompare_antisym x y).
  now destruct (SFcompare x y) as [[| |]|].
Qed.

Lemma string_lt_asym (a b : string) : string_lt a b = true -> string_lt b a = false.
Proof.
  unfold string_lt. rewrite (String.compare_antisym a b).
  now destruct (String.compare b a).
Qed.

Lemma SortRows_less_asym (col : Z) (asc : bool) (ri rj : table.Row) :
  SortRows_less col asc ri rj = Ok true -> SortRows_less col asc rj ri = Ok false.
Proof.
  destruct asc.
  - unfold SortRows_less.
    destruct (index ri col) as [a| |]; cbn [mbind result_bind]; try discriminate.
    destruct (index rj col) as [b| |]; cbn [mbind result_bind]; try discriminate.
    destruct (strconv.ParseFloat a) as [x|], (strconv.ParseFloat b) as [y|];
      intros [= Hlt]; f_equal;
      first [now apply f64_lt_asym | now apply string_lt_asym].
  - rewrite !SortRows_less_flip. unfold SortRows_less.
    destruct (index rj col) as [b| |]; cbn [mbind result_bind];
      [|destruct (index ri col); cbn; discriminate
       |destruct (index ri col); cbn; discriminate].
    destruct (index ri col) as [a| |]; cbn [mbind result_bind]; try discriminate.
    destruct (strconv.ParseFloat a) as [x|], (strconv.ParseFloat b) as [y|];
      intros [= Hlt]; f_equal;
      first [now apply f64_lt_asym | now apply string_lt_asym].
Qed.

(** X14: on at most twelve active rows, each with a cell in the sort
    column, [sort.Slice] returns rows among which none is directly
    followed by a row that the comparator puts strictly before it; these
    are the rows of the model that [SortRows] returns. *)
Theorem SortRows_orders_up_to_twelve_rows (m : TableModel) :
  0 <= SortColumn m ->
  len (OriginalRows m) <= 12 ->
  Forall (fun row => SortColumn m < len row) (OriginalRows m) ->
  exists sorted,
    sort.Slice (SortRows_less (SortColumn m) (SortAsc m)) (OriginalRows m) = Ok sorted
    /\ SortRows m = UpdateVisibleColumns (set_OriginalRows sorted m)
    /\ (forall m', SortRows m = Ok m' -> OriginalRows m' = sorted)
    /\ forall k ri rj,
         sorted !! k = Some ri -> sorted !! S k = Some rj ->
         SortRows_less (SortColumn m) (SortAsc m) rj ri = Ok false.
Proof.
  intros Hcol Hlen Hrows.
  destruct (Slice_order_up_to_twelve
              (SortRows_less (SortColumn m) (SortAsc m))
              (fun row => 0 <= SortColumn m < len row)
              (fun x y Hx Hy => SortRows_less_total _ _ x y Hx Hy)
              (SortRows_less_asym _ _) (OriginalRows m))
    as (rows & Hsort & Horder).
  - eapply Forall_impl; [exact Hrows|]. cbn. intros row Hrow. lia.
  - unfold len in Hlen. lia.
  - assert (SortRows m = UpdateVisibleColumns (set_OriginalRows rows m)) as HS.
    { unfold SortRows.
      replace (SortColumn m <? 0) with false by (symmetry; apply Z.ltb_ge; lia).
      now rewrite Hsort. }
    exists rows. split; [exact Hsort|]. split; [exact HS|]. split.
    + intros m' Hm'. rewrite HS in Hm'.
      destruct (UpdateVisibleColumns_rows _ _ Hm') as (-> & _). now destruct m.
    + intros k ri rj. apply Horder.
Qed.

Lemma SortRows_orders_up_to_twelve_rows_witness :
  exists sorted,
    (forall m', SortRows (baseline_by_age true) = Ok m' -> OriginalRows m' = sorted)
    /\ forall k ri rj,
         sorted !! k = Some ri -> sorted !! S k = Some rj ->
         SortRows_less 2 true rj ri = Ok false.
Proof.
  destruct (SortRows_orders_up_to_twelve_rows (baseline_by_age true))
    as (sorted & _ & _ & Hrows & Horder).
  - vm_compute. discriminate.
  - vm_compute. discriminate.
  - vm_compute. repeat constructor.
  - exists sorted. split; [exact Hrows|exact Horder].
Defined.

(** ** Bringing the full data set back *)

Section restore.
Context `{External}.

(** X15: the reset key outside filter mode and the esc key inside it
    both make the full data set the active rows again, clear the filter
    text and leave filter mode; the sort column and direction stay as they
    were, as does the disk. *)
Theorem restore_keys (d d' : Disk) (m m' : TableModel) (k : string) (c : Cmd) :
  AllRows m <> [] ->
  (Filtering m = false /\ k = "r") \/ (Filtering m = true /\ k = "esc") ->
  Update d m (KeyMsg k) = Ok (m', c, d') ->
  OriginalRows m' = AllRows m
  /\ AllRows m' = AllRows m
  /\ FilterText m' = "" /\ Filtering m' = false
  /\ SortColumn m' = SortColumn m /\ SortAsc m' = SortAsc m
  /\ c = cmd_nil /\ d' = d.
Proof.
  intros Hall Hk.
  assert ((len (AllRows m) >? 0) = true) as Hpos.
  { apply Z.gtb_lt. pose proof (len_nonneg (AllRows m)).
    destruct (Z.eq_dec (len (AllRows m)) 0) as [E|E]; [|lia].
    now apply len_nil_iff in E. }
  destruct Hk as [[Hfil ->]|[Hfil ->]]; at_key Hfil.
  - rewrite Hpos. intros HU. split_result HU. frames.
    repeat split; try reflexivity. exact Hfil.
  - intros HU. split_result HU. revert E. fields. rewrite Hpos. intros E. frames.
    repeat split; reflexivity.
Qed.
End restore.

Lemma restore_keys_witness :
  OriginalRows (model_of (after_keys baseline ["s"; "r"])) = AllRows (loaded baseline).
Proof.
  apply (@restore_keys plain_text empty_disk empty_disk
           (model_of (after_keys baseline ["s"]))
           (model_of (after_keys baseline ["s"; "r"])) "r" cmd_nil).
  - vm_compute. discriminate.
  - left. split; reflexivity.
  - vm_compute. reflexivity.
Defined.

(** ** Reading an export back *)

(** A byte that the reader takes as part of a field. *)
Lemma csv_read_plain (c : ascii) (s : string) (mode : csv_mode)
    (field : string) (record : list string) :
  mode <> Quoted ->
  Ascii.eqb c "," = false -> Ascii.eqb c "010" = false -> Ascii.eqb c "034" = false ->
  csv_read (String c s) mode field record = csv_read s Unquoted (push field c) record.
Proof.
  intros Hmode Ec En Eq. cbn [csv_read]. rewrite Ec, En, Eq.
  now destruct mode.
Qed.

Lemma csv_read_comma (s : string) (mode : csv_mode) (field : string) (record : list string) :
  mode <> Quoted ->
  csv_read (String "," s) mode field record = csv_read s FieldStart "" (record ++ [field]).
Proof. intros Hmode. now destruct mode. Qed.

Lemma csv_read_newline (s : string) (mode : csv_mode) (field : string) (record : list string) :
  mode <> Quoted ->
  csv_read (String "010" s) mode field record
  = (record ++ [field]) :: csv_read s FieldStart "" [].
Proof. intros Hmode. now destruct mode. Qed.

Lemma Contains_cons (c : ascii) (s sub : string) :
  strings.Contains (String c s) sub = false -> strings.Contains s sub = false.
Proof.
  cbn [strings.Contains]. intros E. apply orb_false_iff in E. tauto.
Qed.

Lemma prefix_byte (x c : ascii) (s : string) :
  String.prefix (String x "") (String c s) = Ascii.eqb x c.
Proof.
  cbn [String.prefix]. destruct (ascii_dec x c) as [->|Hne].
  - rewrite Ascii.eqb_refl. now destruct s.
  - symmetry. now apply Ascii.eqb_neq.
Qed.

Lemma Contains_head (c x : ascii) (s : string) :
  strings.Contains (String c s) (String x "") = false -> Ascii.eqb c x = false.
Proof.
  cbn [strings.Contains]. rewrite prefix_byte. intros E. apply orb_false_iff in E.
  destruct E as [E _]. now rewrite Ascii.eqb_sym.
Qed.

Lemma append_cons (c : ascii) (a b : string) :
  String.append (String c a) b = String c (String.append a b).
Proof. reflexivity. Qed.

Lemma push_append (field : string) (c : ascii) (s : string) :
  String.append (push field c) s = String.append field (String c s).
Proof. unfold push. now rewrite string_append_assoc. Qed.

(** A field written as it is, up to the separator that follows it. *)
Lemma csv_read_unquoted (s rest : string) : forall mode field record,
  mode <> Quoted ->
  strings.Contains s "," = false ->
  strings.Contains s dquote = false ->
  strings.Contains s newline = false ->
  exists mode',
    mode' <> Quoted
    /\ csv_read (String.append s rest) mode field record
       = csv_read rest mode' (String.append field s) record.
Proof.
  induction s as [|c s IH]; intros mode field record Hmode Hc Hq Hn.
  - exists mode. split; [exact Hmode|]. now rewrite string_append_empty_r.
  - destruct (IH Unquoted (push field c) record) as (mode' & Hmode' & E);
      [discriminate|eapply Contains_cons; eassumption..|].
    exists mode'. split; [exact Hmode'|].
    change (String.append (String c s) rest) with (String c (String.append s rest)).
    rewrite csv_read_plain; [|exact Hmode|eapply Contains_head; eassumption..].
    rewrite E. now rewrite push_append.
Qed.

(** [strings.ReplaceAll] of a quote by two quotes, one byte at a time. *)
Lemma substring_tail (c : ascii) (s : string) :
  String.substring 1 (String.length (String c s) - 1) (String c s) = s.
Proof.
  cbn [String.length String.substring Nat.sub]. rewrite Nat.sub_0_r.
  induction s as [|x s IH]; [reflexivity|].
  cbn [String.length String.substring]. now rewrite IH.
Qed.

Lemma ReplaceAll_from_quote (n : nat) : forall s,
  (String.length s <= n)%nat ->
  strings.ReplaceAll_from n s dquote (String.append dquote dquote)
  = match s with
    | EmptyString => EmptyString
    | String c s' =>
        if Ascii.eqb c "034"
        then String "034" (String "034"
               (strings.ReplaceAll_from (Nat.pred n) s' dquote (String.append dquote dquote)))
        else String c (strings.ReplaceAll_from (Nat.pred n) s' dquote
                         (String.append dquote dquote))
    end.
Proof.
  destruct n as [|n]; intros [|c s] Hlen; try reflexivity.
  - cbn [String.length] in Hlen. lia.
  - cbn [strings.ReplaceAll_from Nat.pred].
    unfold dquote at 1. rewrite prefix_byte.
    change (String.length dquote) with 1%nat.
    rewrite substring_tail. rewrite (Ascii.eqb_sym "034" c).
    now destruct (Ascii.eqb c "034").
Qed.

(** A quoted field, up to the separator that follows its closing quote. *)
Lemma csv_read_quoted (s rest : string) : forall n field record,
  (String.length s <= n)%nat ->
  csv_read (String.append (strings.ReplaceAll_from n s dquote (String.append dquote dquote))
              (String "034" rest)) Quoted field record
  = csv_read rest QuoteSeen (String.append field s) record.
Proof.
  induction s as [|c s IH]; intros n field record Hlen.
  - rewrite ReplaceAll_from_quote by exact Hlen.
    change (String.append "" ?x) with x. cbn [csv_read Ascii.eqb Bool.eqb].
    now rewrite string_append_empty_r.
  - rewrite ReplaceAll_from_quote by exact Hlen.
    cbn [String.length] in Hlen.
    destruct (Ascii.eqb_spec c "034") as [->|Hne].
    + rewrite !append_cons. cbn [csv_read Ascii.eqb Bool.eqb]. rewrite IH by lia.
      now rewrite push_append.
    + rewrite !append_cons. cbn [csv_read].
      replace (Ascii.eqb c "034") with false by (symmetry; now apply Ascii.eqb_neq).
      rewrite IH by lia. now rewrite push_append.
Qed.

(** A cell as the export writes it, read from the start of a field. *)
Lemma csv_read_cell (cell rest : string) (record : list string) :
  exists mode,
    mode <> Quoted
    /\ csv_read (String.append (csv_cell cell) rest) FieldStart "" record
       = csv_read rest mode cell record.
Proof.
  unfold csv_cell.
  destruct (strings.Contains cell ",") eqn:Ec;
    [|destruct (strings.Contains cell dquote) eqn:Eq;
      [|destruct (strings.Contains cell newline) eqn:En]];
    cbn [orb].
  4: { destruct (csv_read_unquoted cell rest FieldStart "" record) as (mode & Hmode & E);
         try done.
       exists mode. split; [exact Hmode|]. exact E. }
  all: exists QuoteSeen; split; [discriminate|];
    rewrite !string_append_assoc; unfold dquote at 1; rewrite append_cons;
    change (String.append "" ?x) with x;
    cbn [csv_read Ascii.eqb Bool.eqb];
    unfold strings.ReplaceAll;
    change (String.append dquote rest) with (String "034" rest);
    now rewrite csv_read_quoted by lia.
Qed.

(** A line of cells as the export writes it. *)
Lemma csv_read_line (cells : list string) (rest : string) : forall cell record,
  csv_read (String.append (strings.Join (map csv_cell (cell :: cells)) ",")
              (String.append newline rest)) FieldStart "" record
  = (record ++ cell :: cells) :: csv_read rest FieldStart "" [].
Proof.
  unfold strings.Join.
  induction cells as [|next cells IH]; intros cell record.
  - cbn [map String.concat].
    destruct (csv_read_cell cell (String.append newline rest) record) as (mode & Hmode & ->).
    change (String.append newline rest) with (String "010" rest).
    now rewrite csv_read_newline.
  - change (String.concat "," (map csv_cell (cell :: next :: cells)))
      with (String.append (csv_cell cell)
              (String.append "," (String.concat "," (map csv_cell (next :: cells))))).
    rewrite !string_append_assoc.
    destruct (csv_read_cell cell
                (String.append ","
                   (String.append (String.concat "," (map csv_cell (next :: cells)))
                      (String.append newline rest))) record) as (mode & Hmode & ->).
    change (String.append "," ?x) with (String "," x).
    rewrite csv_read_comma by exact Hmode.
    rewrite IH. now rewrite <- app_assoc.
Qed.

Lemma foldl_Fprintln_lines {A} (line : A -> string) (rows : list A) : forall f,
  foldl (fun f row => Fprintln f (line row)) f rows
  = String.append f
      (foldr (fun row rest => String.append (line row) (String.append newline rest))
         "" rows).
Proof.
  induction rows as [|row rows IH]; intros f.
  - cbn. now rewrite string_append_empty_r.
  - cbn [foldl foldr]. rewrite IH. unfold Fprintln.
    now rewrite !string_append_assoc.
Qed.

Lemma csv_read_lines (rows : list (list string)) :
  Forall (fun row => row <> []) rows ->
  csv_read (foldr (fun row rest =>
                     String.append (strings.Join (map csv_cell row) ",")
                       (String.append newline rest)) "" rows) FieldStart "" []
  = rows.
Proof.
  induction 1 as [|row rows Hrow _ IH]; [reflexivity|].
  cbn [foldr]. destruct row as [|cell cells]; [done|].
  rewrite csv_read_line. now rewrite IH.
Qed.

(** X16: what the export writes reads back as the titles followed by the
    active rows, when there is a column, no title holds a comma, a quote
    or a line feed (the header line is written without quoting) and no
    row is without cells. *)
Theorem ExportToCSV_round_trip (m : TableModel) :
  TableColumns m <> [] ->
  Forall (fun col => strings.Contains (table.Title col) "," = false
                     /\ strings.Contains (table.Title col) dquote = false
                     /\ strings.Contains (table.Title col) newline = false)
         (TableColumns m) ->
  Forall (fun row => row <> []) (OriginalRows m) ->
  csv_parse (csv_bytes m) = map table.Title (TableColumns m) :: OriginalRows m.
Proof.
  intros Hcols Htitles Hrows. unfold csv_parse, csv_bytes.
  rewrite foldl_Fprintln_lines. unfold Fprintln.
  change (String.append "" ?x) with x.
  rewrite string_append_assoc.
  assert (forall cols,
            Forall (fun col => strings.Contains (table.Title col) "," = false
                               /\ strings.Contains (table.Title col) dquote = false
                               /\ strings.Contains (table.Title col) newline = false) cols ->
            map csv_cell (map table.Title cols) = map table.Title cols) as Hplain.
  { induction 1 as [|col cols (Ec & Eq & En) _ IH]; [reflexivity|].
    cbn [map]. rewrite IH. unfold csv_cell. now rewrite Ec, Eq, En. }
  specialize (Hplain _ Htitles).
  destruct (TableColumns m) as [|col cols]; [done|].
  change (map table.Title (col :: cols))
    with (table.Title col :: map table.Title cols) in *.
  rewrite <- Hplain at 1.
  rewrite csv_read_line. cbn [app]. f_equal. now apply csv_read_lines.
Qed.

Lemma ExportToCSV_round_trip_witness :
  csv_parse (csv_bytes (loaded special_cells))
  = map table.Title (TableColumns (loaded special_cells))
    :: OriginalRows (loaded special_cells).
Proof.
  apply (ExportToCSV_round_trip (loaded special_cells)).
  - vm_compute. discriminate.
  - vm_compute. repeat constructor.
  - vm_compute. repeat constructor; discriminate.
Defined.

(** ** Filter mode, export, help and resize *)

Section other_messages.
Context `{External}.

(** X17: the filter key outside filter mode returns at once: filter
    mode is on with an empty text and input line, the filter column is the
    column at the scroll offset, an empty full data set is filled from the
    active rows, and the rows, the widget and the disk are untouched. *)
Theorem filter_key (d : Disk) (m : TableModel) :
  Filtering m = false ->
  exists m',
    Update d m (KeyMsg "f") = Ok (m', textinput_Blink, d)
    /\ Filtering m' = true /\ FilterText m' = "" /\ TextInput m' = ""
    /\ SortColumn m' = ScrollOffset m
    /\ AllRows m' = (if len (AllRows m) =? 0 then OriginalRows m else AllRows m)
    /\ OriginalRows m' = OriginalRows m
    /\ Table m' = Table m
    /\ ScrollOffset m' = ScrollOffset m
    /\ SortAsc m' = SortAsc m
    /\ StatusMsg m' = StatusMsg m.
Proof.
  intros Hfil. at_key Hfil. eexists. split; [reflexivity|].
  fields.
  destruct (Z.eqb_spec (len (AllRows m)) 0) as [E0|Hne]; cbn [andb].
  - destruct (Z.gtb_spec (len (OriginalRows m)) 0) as [Hpos|Hle]; fields.
    + repeat split; reflexivity.
    + repeat split; try reflexivity.
      pose proof (len_nonneg (OriginalRows m)).
      assert (len (OriginalRows m) = 0) as E by lia.
      apply len_nil_iff in E0. apply len_nil_iff in E. congruence.
  - fields. repeat split; reflexivity.
Qed.

(** X18: in filter mode a key other than enter and esc goes to the input
    line and changes nothing else. *)
Theorem filter_mode_typing (d : Disk) (m : TableModel) (k : string) :
  Filtering m = true ->
  k <> "enter" -> k <> "esc" ->
  Update d m (KeyMsg k)
  = Ok (set_TextInput (textinput_Update (TextInput m) k) m, textinput_Cmd, d).
Proof.
  intros Hfil Henter Hesc. unfold Update. rewrite Hfil.
  apply String.eqb_neq in Henter, Hesc. now rewrite Henter, Hesc.
Qed.


(** X20: whenever a resize returns a model, the width is the terminal
    width and the height is the terminal height less four lines, and one
    more for each of filter mode, a filter text and a status message; the
    rows, the sort settings, the filter and the status line are
    untouched, and an offset inside the schema stays. *)
Theorem resize (d d' : Disk) (m m' : TableModel) (width height : Z) (c : Cmd) :
  Update d m (WindowSizeMsg width height) = Ok (m', c, d') ->
  Width m' = width
  /\ Height m' = height - 4
                 - (if Filtering m then 1 else 0)
                 - (if String.eqb (FilterText m) "" then 0 else 1)
                 - (if String.eqb (StatusMsg m) "" then 0 else 1)
  /\ OriginalRows m' = OriginalRows m /\ AllRows m' = AllRows m
  /\ SortColumn m' = SortColumn m /\ SortAsc m' = SortAsc m
  /\ Filtering m' = Filtering m /\ FilterText m' = FilterText m
  /\ StatusMsg m' = StatusMsg m
  /\ (0 <= ScrollOffset m < len (TableColumns m) -> ScrollOffset m' = ScrollOffset m)
  /\ c = cmd_nil /\ d' = d.
Proof.
  intros HU. unfold Update in HU.
  cbv beta iota delta [baseStyle_GetFrameSize] in HU.
  apply bind_Ok in HU. destruct HU as (m1 & E & HU). injection HU as <- <- <-.
  assert (0 <= ScrollOffset m < len (TableColumns m) -> ScrollOffset m1 = ScrollOffset m)
    as Hoff.
  { intros Hrange. apply UpdateVisibleColumns_offset in E.
    - destruct E as (-> & _). rewrite CalculateMaxColumns_eq. fields.
      apply clamp_in_range. lia.
    - rewrite CalculateMaxColumns_eq. fields. intros E0. rewrite E0 in Hrange.
      unfold len in Hrange. simpl in Hrange. lia. }
  revert E. rewrite CalculateMaxColumns_eq. intros E. frames. fields_in Hoff.
  repeat split; try reflexivity; try assumption; [lia|].
  destruct (Filtering m), (String.eqb (FilterText m) ""), (String.eqb (StatusMsg m) "");
    cbn [negb]; lia.
Qed.

(** X22: whenever the enter key in filter mode returns a model, filter
    mode is off, the filter text is what the input line held and the input
    line is empty; with an empty text the active rows are the full data
    set (or stay, when none was captured), otherwise they are the rows of
    the full data set whose cell in the filter column contains the text,
    both in lower case, in their order.  The full data set, the filter
    column and the disk are untouched. *)
Theorem enter_key (d d' : Disk) (m m' : TableModel) (c : Cmd) :
  Filtering m = true ->
  Update d m (KeyMsg "enter") = Ok (m', c, d') ->
  Filtering m' = false
  /\ FilterText m' = TextInput m
  /\ TextInput m' = ""
  /\ AllRows m' = AllRows m
  /\ SortColumn m' = SortColumn m /\ SortAsc m' = SortAsc m
  /\ OriginalRows m'
     = (if String.eqb (TextInput m) ""
        then (if len (AllRows m) >? 0 then AllRows m else OriginalRows m)
        else List.filter (cell_matches (SortColumn m) (TextInput m)) (AllRows m))
  /\ c = cmd_nil /\ d' = d.
Proof.
  intros Hfil HU. revert HU. at_key Hfil. intros HU.
  apply bind_Ok in HU. destruct HU as (m1 & E & HU). injection HU as <- <- <-.
  destruct (ApplyFilter_rows _ _ E) as [Ea Eo]. fields_in Ea. fields_in Eo.
  frames. fields_in Ea. fields_in Eo. repeat split; assumption || reflexivity.
Qed.

(** X23: whenever the help key outside filter mode returns a model, the
    help flag is flipped and the rows, the window, the sort and filter
    settings, the status line and the disk are untouched. *)
Theorem help_key (d d' : Disk) (m m' : TableModel) (c : Cmd) :
  Filtering m = false ->
  Update d m (KeyMsg "h") = Ok (m', c, d') ->
  ShowHelp m' = negb (ShowHelp m)
  /\ OriginalRows m' = OriginalRows m /\ AllRows m' = AllRows m
  /\ ScrollOffset m' = ScrollOffset m /\ MaxColumns m' = MaxColumns m
  /\ SortColumn m' = SortColumn m /\ SortAsc m' = SortAsc m
  /\ FilterText m' = FilterText m /\ Filtering m' = false
  /\ StatusMsg m' = StatusMsg m
  /\ c = cmd_nil /\ d' = d.
Proof.
  intros Hfil HU. revert HU. at_key Hfil. intros [= <- <- <-].
  rewrite EnsureCursorVisible_eq. fields. repeat split; reflexivity || assumption.
Qed.

End other_messages.

Lemma filter_key_witness :
  Filtering (model_of (@Update plain_text empty_disk (loaded baseline) (KeyMsg "f"))) = true.
Proof.
  destruct (@filter_key plain_text empty_disk (loaded baseline)) as (m' & E & Hf & _).
  - reflexivity.
  - rewrite E. exact Hf.
Defined.

Lemma filter_mode_typing_witness :
  let m := set_Filtering true (loaded baseline) in
  @Update plain_text empty_disk m (KeyMsg "a")
  = Ok (set_TextInput (@textinput_Update plain_text (TextInput m) "a") m,
        textinput_Cmd, empty_disk).
Proof.
  intros m. apply (@filter_mode_typing plain_text empty_disk m "a").
  - reflexivity.
  - discriminate.
  - discriminate.
Defined.


Lemma resize_witness :
  Height (model_of (@Update plain_text empty_disk (loaded baseline) (WindowSizeMsg 100 30)))
  = 26.
Proof.
  destruct (@resize plain_text empty_disk empty_disk (loaded baseline)
              (model_of (@Update plain_text empty_disk (loaded baseline)
                           (WindowSizeMsg 100 30)))
              100 30 cmd_nil) as (_ & Hh & _).
  - vm_compute. reflexivity.
  - rewrite Hh. vm_compute. reflexivity.
Defined.

Lemma enter_key_witness :
  OriginalRows (model_of (after_keys baseline ["right"; "f"; "a"; "enter"]))
  = [["1"; "Alice"; "30"]; ["3"; "Cara"; "25"]].
Proof.
  destruct (@enter_key plain_text empty_disk empty_disk
              (model_of (after_keys baseline ["right"; "f"; "a"]))
              (model_of (after_keys baseline ["right"; "f"; "a"; "enter"])) cmd_nil)
    as (_ & _ & _ & _ & _ & _ & Hrows & _).
  - vm_compute. reflexivity.
  - vm_compute. reflexivity.
  - rewrite Hrows. vm_compute. reflexivity.
Defined.

Lemma help_key_witness :
  ShowHelp (model_of (after_keys baseline ["h"])) = true.
Proof.
  destruct (@help_key plain_text empty_disk empty_disk (loaded baseline)
              (model_of (after_keys baseline ["h"])) cmd_nil) as (Hh & _).
  - reflexivity.
  - vm_compute. reflexivity.
  - rewrite Hh. vm_compute. reflexivity.
Defined.

(** ** Paging through the rows *)

Lemma table_Update_page_key (t : table.Model) (k : string) :
  In k ["shift+up"; "shift+down"] -> table.Update t (KeyMsg k) = t.
Proof.
  unfold table.Update. intros Hk. destruct (negb (table.focus t)); [done|].
  repeat (destruct Hk as [<-|Hk]; [reflexivity|]). destruct Hk.
Qed.

(** [n] line-up messages to a focused widget whose cursor is on a row. *)
Lemma table_Update_up_iter (n : nat) (t : table.Model) :
  table.focus t = true ->
  0 <= table.cursor t < len (table.rows t) ->
  Nat.iter n (fun t => table.Update t (KeyMsg "up")) t
  = table.set_cursor (Z.max 0 (table.cursor t - Z.of_nat n)) t.
Proof.
  intros Hfocus Hc. induction n as [|n IH].
  - change (Nat.iter 0 ?f ?x) with x. rewrite Z.sub_0_r, Z.max_r by lia.
    symmetry. apply table_set_cursor_id.
  - rewrite Nat.iter_succ, IH. unfold table.Update.
    cbn [table.set_cursor table.focus]. rewrite Hfocus. cbn [negb].
    change (table.key_in "up" ["up"; "k"]) with true. cbv iota.
    unfold table.MoveUp, table.set_cursor.
    cbn [table.cursor table.rows table.cols table.focus table.viewportWidth
         table.viewportHeight].
    f_equal. unfold table.clamp. lia.
Qed.

Lemma table_Update_down_iter (n : nat) (t : table.Model) :
  table.focus t = true ->
  0 <= table.cursor t < len (table.rows t) ->
  Nat.iter n (fun t => table.Update t (KeyMsg "down")) t
  = table.set_cursor (Z.min (len (table.rows t) - 1) (table.cursor t + Z.of_nat n)) t.
Proof.
  intros Hfocus Hc. induction n as [|n IH].
  - change (Nat.iter 0 ?f ?x) with x. rewrite Z.add_0_r, Z.min_r by lia.
    symmetry. apply table_set_cursor_id.
  - rewrite Nat.iter_succ, IH. unfold table.Update.
    cbn [table.set_cursor table.focus]. rewrite Hfocus. cbn [negb].
    change (table.key_in "down" ["up"; "k"]) with false.
    change (table.key_in "down" ["down"; "j"]) with true. cbv iota.
    unfold table.MoveDown, table.set_cursor.
    cbn [table.cursor table.rows table.cols table.focus table.viewportWidth
         table.viewportHeight].
    f_equal. unfold table.clamp. lia.
Qed.

Section paging.
Context `{External}.

(** X21: whenever a page key outside filter mode returns a model, on a
    view in step whose widget has the focus: shift+up has moved the cursor
    up by half the height, rounded towards zero, stopping at the first
    row, and shift+down has moved it down by as much, stopping at the last
    row; a height below two moves nothing.  The cursor stays there if
    that row has a cell at the scroll offset and otherwise goes to the
    first row; the rows and the window are untouched. *)
Theorem page_keys (d d' : Disk) (m m' : TableModel) (k : string) (target : Z)
    (row : table.Row) (c : Cmd) :
  in_step m ->
  Filtering m = false ->
  table.focus (Table m) = true ->
  OriginalRows m <> [] ->
  In (k, target)
     [("shift+up", Z.max 0 (table.cursor (Table m) - Z.max 0 (Z.quot (Height m) 2)));
      ("shift+down", Z.min (len (OriginalRows m) - 1)
                       (table.cursor (Table m) + Z.max 0 (Z.quot (Height m) 2)))] ->
  OriginalRows m !! Z.to_nat target = Some row ->
  Update d m (KeyMsg k) = Ok (m', c, d') ->
  table.cursor (Table m') = (if ScrollOffset m <? len row then target else 0)
  /\ OriginalRows m' = OriginalRows m
  /\ ScrollOffset m' = ScrollOffset m
  /\ table.rows (Table m') = table.rows (Table m)
  /\ c = cmd_nil /\ d' = d.
Proof.
  intros Hin Hfil Hfocus Hne Hk Hrow HU.
  pose proof (proj2 Hin Hne) as Hcur.
  pose proof (windowed_rows m (proj1 Hin)) as Hlen.
  assert (Z.of_nat (Z.to_nat (Z.quot (Height m) 2)) = Z.max 0 (Z.quot (Height m) 2))
    as Hpage by lia.
  assert (0 <= target < len (OriginalRows m)) as Htarget.
  { destruct Hk as [[= _ <-]|[[= _ <-]|[]]]; lia. }
  assert (page (if String.eqb k "shift+up" then "up" else "down") m
          = set_Table (table.set_cursor target (Table m)) m) as Hmoved.
  { unfold page. f_equal.
    destruct Hk as [[= <- <-]|[[= <- <-]|[]]]; cbn [String.eqb Ascii.eqb Bool.eqb].
    - rewrite table_Update_up_iter by (rewrite ?Hlen; done). now rewrite Hpage.
    - rewrite table_Update_down_iter by (rewrite ?Hlen; done).
      now rewrite Hpage, Hlen. }
  assert (Update d m (KeyMsg k)
          = Ok (EnsureCursorVisible (set_Table (table.set_cursor target (Table m)) m),
                cmd_nil, d)) as E.
  { rewrite <- Hmoved.
    destruct Hk as [[= <- <-]|[[= <- <-]|[]]]; at_key Hfil;
      rewrite table_Update_page_key by (cbn; tauto); now rewrite set_Table_id. }
  rewrite E in HU. injection HU as <- <- <-.
  pose proof (in_step_set_cursor m target Hin Htarget) as Hin'.
  destruct (guard_twice _ row Hin') as [-> _].
  { fields. cbn [table.set_cursor table.cursor]. exact Hrow. }
  fields. cbn [table.set_cursor table.cursor table.rows]. repeat split; reflexivity.
Qed.

End paging.

Lemma page_keys_witness :
  table.cursor (Table (model_of (after_keys baseline ["shift+down"]))) = 2.
Proof.
  apply (@page_keys plain_text empty_disk empty_disk (loaded baseline)
           (model_of (after_keys baseline ["shift+down"])) "shift+down" 2
           ["3"; "Cara"; "25"] cmd_nil).
  - evaluated.
  - reflexivity.
  - reflexivity.
  - vm_compute. discriminate.
  - vm_compute. tauto.
  - reflexivity.
  - vm_compute. reflexivity.
Defined.
